(** * SurgeScript runtime: program pool, runtime environment, VM driver, arrays

    A shallow embedding of
      - [src/surgescript/runtime/program_pool.c]  (the program pool),
      - [runtime/renv.h]                          (the runtime environment),
      - [runtime/vm.c]                            (the VM driver),
      - [runtime/sslib/array.c]                   (the Array built-in),
    followed by the properties of these components.

    Conventions.
      - A C string is a [string]; [strlen]/[strcmp] see the bytes before the
        first NUL, so names are NUL-free and [strcmp a b == 0] is [a = b].
      - A [surgescript_program_t*] handed to the pool is a live program, a value
        of the abstract type [program]; the C [NULL] returned by a lookup that
        finds nothing is [None].
      - [ssfatal] terminates the process: an operation returns the state it
        reached together with an [outcome], either [Returned v] or [Fatal e]. *)

From stdpp Require Import gmap strings list fin_maps.
From stdpp Require Import sorting.
From Stdlib Require Import ZArith Lia.

Local Open Scope Z_scope.

(** ** Machine integers *)

(** A value stored in a [uint32_t]. *)
Definition uint32 (z : Z) : Z := z mod 2 ^ 32.

(** A value stored in a [uint64_t]. *)
Definition uint64 (z : Z) : Z := z mod 2 ^ 64.

Definition INT_MAX : Z := 2 ^ 31 - 1.

(** A value stored in an [int] (two's complement, 32 bits). *)
Definition int_wrap (z : Z) : Z := (z + 2 ^ 31) mod 2 ^ 32 - 2 ^ 31.

(** ** Process-terminating errors *)

Inductive fatal_error : Type :=
  | DuplicateFunction (program_name object_name : string)
      (* "Runtime Error: duplicate function %s in object %s" *)
  | ArrayGetOutOfBounds (index : Z)
  | ArraySetOutOfBounds (index : Z)
      (* "Can't set %d-%s element of the array: the index is out of bounds." *)
  | NullPointerException
  | AssertionFailed.

Inductive outcome (A : Type) : Type :=
  | Returned (a : A)
  | Fatal (e : fatal_error).
Arguments Returned {A} a.
Arguments Fatal {A} e.

(** ** The program pool  (program_pool.c) *)

(** [extern void hashlittle2(const void *key, size_t length, uint32_t* pc,
    uint32_t* pb)]: declared in program_pool.c, defined elsewhere.  It reads
    the key and the two seeds [( *pc, *pb)] and writes two hash values back.
    The pool is defined, and its properties are proved, for any such function. *)
Class hashlittle2_t : Type :=
  hashlittle2 : string -> Z * Z -> Z * Z.

Section ProgramPool.

(** [surgescript_program_t]: an opaque callable. *)
Context {program : Type}.
Context {hashlittle2_impl : hashlittle2_t}.

(** [surgescript_programpool_signature_t] is [uint64_t]
    ([SURGESCRIPT_USE_FAST_SIGNATURES] is defined).  [pc] and [pb] are
    [uint32_t] variables: what [hashlittle2] writes into them is a 32-bit
    value. *)
Definition generate_signature (object_name program_name : string) : Z :=
  let '(pc, pb) := (0, 0) in
  let '(pc, pb) := hashlittle2 object_name (pc, pb) in
  let '(pc, pb) := (uint32 pc, uint32 pb) in
  let '(pc, pb) := hashlittle2 program_name (pc, pb) in
  let '(pc, pb) := (uint32 pc, uint32 pb) in
  Z.lor (uint64 pc) (Z.shiftl (uint64 pb) 32).

(** [struct surgescript_programpool_t]: [hash] maps a signature to its
    program (a uthash table keyed by the 8 bytes of the signature); [meta]
    maps an object name to the array of its program names (a uthash table
    keyed by the name, each entry holding an SSARRAY). *)
Record surgescript_programpool_t : Type := ProgramPool {
  hash : gmap Z program;
  meta : gmap string (list string)
}.

Definition surgescript_programpool_create : surgescript_programpool_t :=
  {| hash := ∅; meta := ∅ |}.

(** [HASH_FIND_ITEM_BY_SIGNATURE(pool->hash, signature, pair)] *)
Definition find_item_by_signature (pool : surgescript_programpool_t)
    (signature : Z) : option program :=
  hash pool !! signature.

Definition surgescript_programpool_shallowcheck
    (pool : surgescript_programpool_t) (object_name program_name : string) : bool :=
  let signature := generate_signature object_name program_name in
  match find_item_by_signature pool signature with
  | Some _ => true
  | None => false
  end.

(** *** metadata *)

Definition insert_metadata (pool : surgescript_programpool_t)
    (object_name program_name : string) : surgescript_programpool_t :=
  match meta pool !! object_name with
  | None =>
      {| hash := hash pool;
         meta := <[object_name := [] ++ [program_name]]> (meta pool) |}
  | Some m =>
      {| hash := hash pool;
         meta := <[object_name := m ++ [program_name]]> (meta pool) |}
  end.

(** The loop of [remove_metadata]: the first index [i] (counted from [i0])
    with [strcmp(m->program_name[i], program_name) == 0]. *)
Fixpoint find_program_name (names : list string) (program_name : string)
    (i0 : nat) : option nat :=
  match names with
  | [] => None
  | x :: rest =>
      if decide (x = program_name) then Some i0
      else find_program_name rest program_name (S i0)
  end.

(** Modelled from the spec: [ssarray_remove(arr, index)] of util/ssarray.h,
    which is not among the sources; the class index is an ordered sequence
    whose insertion order is preserved, so removing one element keeps the
    others in order. *)
Definition ssarray_remove (names : list string) (index : nat) : list string :=
  take index names ++ drop (S index) names.

Definition remove_metadata (pool : surgescript_programpool_t)
    (object_name program_name : string) : surgescript_programpool_t :=
  match meta pool !! object_name with
  | Some m =>
      match find_program_name m program_name 0 with
      | Some index =>
          {| hash := hash pool;
             meta := <[object_name := ssarray_remove m index]> (meta pool) |}
      | None => pool
      end
  | None => pool
  end.

Definition remove_object_metadata (pool : surgescript_programpool_t)
    (object_name : string) : surgescript_programpool_t :=
  match meta pool !! object_name with
  | Some _ => {| hash := hash pool; meta := delete object_name (meta pool) |}
  | None => pool
  end.

(** [traverse_metadata]: the callback receives each name and the [data]
    pointer; what it does through that pointer is a transformation of some
    state [State].  The loop reads [m->program_name[i]] for [i] from [0] to the
    length of the array, in the array found when the traversal starts (no
    callback of this file changes [pool->meta]). *)
Definition traverse_metadata {State : Type} (pool : surgescript_programpool_t)
    (object_name : string) (callback : string -> State -> State) (data : State) : State :=
  match meta pool !! object_name with
  | Some m => foldl (fun s program_name => callback program_name s) data m
  | None => data
  end.

(** *** public methods *)

Definition surgescript_programpool_put (pool : surgescript_programpool_t)
    (object_name program_name : string) (prog : program)
    : surgescript_programpool_t * outcome bool :=
  if negb (surgescript_programpool_shallowcheck pool object_name program_name)
  then
    let signature := generate_signature object_name program_name in
    let pool1 := {| hash := <[signature := prog]> (hash pool);
                    meta := meta pool |} in
    (insert_metadata pool1 object_name program_name, Returned true)
  else
    (pool, Fatal (DuplicateFunction program_name object_name)).

Definition surgescript_programpool_get (pool : surgescript_programpool_t)
    (object_name program_name : string) : option program :=
  let signature := generate_signature object_name program_name in
  match find_item_by_signature pool signature with
  | Some prog => Some prog
  | None =>
      (* try locating it in a common base for all objects *)
      let signature := generate_signature "Object" program_name in
      match find_item_by_signature pool signature with
      | Some prog => Some prog
      | None => None
      end
  end.

Definition surgescript_programpool_exists (pool : surgescript_programpool_t)
    (object_name program_name : string) : bool :=
  match surgescript_programpool_get pool object_name program_name with
  | Some _ => true
  | None => false
  end.

(** [surgescript_programpool_foreach]: [traverse_adapter] calls the
    one-argument callback, whose effect is on some state [State]. *)
Definition surgescript_programpool_foreach {State : Type}
    (pool : surgescript_programpool_t) (object_name : string)
    (callback : string -> State -> State) (s : State) : State :=
  traverse_metadata pool object_name callback s.

Definition surgescript_programpool_foreach_ex {State : Type}
    (pool : surgescript_programpool_t) (object_name : string)
    (callback : string -> State -> State) (data : State) : State :=
  traverse_metadata pool object_name callback data.

Definition surgescript_programpool_replace (pool : surgescript_programpool_t)
    (object_name program_name : string) (prog : program)
    : surgescript_programpool_t * outcome bool :=
  let signature := generate_signature object_name program_name in
  match find_item_by_signature pool signature with
  | Some _ =>
      ({| hash := <[signature := prog]> (hash pool); meta := meta pool |},
       Returned true)
  | None => surgescript_programpool_put pool object_name program_name prog
  end.

(** [delete_program]: [data] is the pair [{ pool, object_name }]. *)
Definition delete_program (object_name : string) (program_name : string)
    (pool : surgescript_programpool_t) : surgescript_programpool_t :=
  let signature := generate_signature object_name program_name in
  match find_item_by_signature pool signature with
  | Some _ => {| hash := delete signature (hash pool); meta := meta pool |}
  | None => pool
  end.

Definition surgescript_programpool_purge (pool : surgescript_programpool_t)
    (object_name : string) : surgescript_programpool_t :=
  let pool1 :=
    surgescript_programpool_foreach_ex pool object_name
      (delete_program object_name) pool in
  remove_object_metadata pool1 object_name.

Definition surgescript_programpool_delete (pool : surgescript_programpool_t)
    (object_name program_name : string) : surgescript_programpool_t :=
  let signature := generate_signature object_name program_name in
  let pool1 :=
    match find_item_by_signature pool signature with
    | Some _ => {| hash := delete signature (hash pool); meta := meta pool |}
    | None => pool
    end in
  remove_metadata pool1 object_name program_name.

Definition surgescript_programpool_is_compiled
    (pool : surgescript_programpool_t) (object_name : string) : bool :=
  match meta pool !! object_name with
  | Some m => bool_decide (0 < length m)%nat
  | None => false
  end.

End ProgramPool.

Arguments surgescript_programpool_t : clear implicits.

(** ** Values and heaps *)

(** Modelled from the spec: the variable value type [surgescript_var_t]
    (var.c is not among the sources).  The spec names clone, copy-assign,
    compare and swap; array.c also creates a variable and reads and writes its
    number.  A number that array.c stores or reads is an array length or an
    index, so numbers are integers here. *)
Inductive surgescript_var_t : Type :=
  | VarNull
  | VarBool (b : bool)
  | VarNumber (x : Z)
  | VarString (s : string)
  | VarObjectHandle (h : Z).

(** Modelled from the spec: [surgescript_var_create] of var.c, a new variable;
    it holds null. *)
Definition surgescript_var_create : surgescript_var_t := VarNull.

(** Modelled from the spec: [surgescript_var_get_number] of var.c, the number
    a variable holds (its conversion to a number when it holds none). *)
Definition surgescript_var_get_number (v : surgescript_var_t) : Z :=
  match v with
  | VarNumber x => x
  | VarBool true => 1
  | _ => 0
  end.

(** Modelled from the spec: [surgescript_var_set_number] of var.c makes the
    variable hold the number. *)
Definition surgescript_var_set_number (v : surgescript_var_t) (x : Z)
    : surgescript_var_t :=
  VarNumber x.

(** Modelled from the spec: [surgescript_var_clone] of var.c (clone) allocates
    a variable holding the same value. *)
Definition surgescript_var_clone (v : surgescript_var_t) : surgescript_var_t := v.

(** Modelled from the spec: [surgescript_var_copy(dst, src)] of var.c
    (copy-assign) overwrites [dst] with the value of [src]. *)
Definition surgescript_var_copy (dst src : surgescript_var_t) : surgescript_var_t :=
  src.

(** Modelled from the spec: the heap (heap.c is not among the sources), with
    [allocate_cell() -> index], [at(index) -> value_ref] and [free(index)];
    indices grow monotonically and a cell is reused only after it was freed.
    A heap is its sequence of cells, [None] for one that is free; [malloc]
    takes the first free cell, or a new one at the end. *)
Abbreviation surgescript_heap_t := (list (option surgescript_var_t))
  (only parsing).

(** Modelled from the spec: [surgescript_heap_at] of heap.c, the variable in
    the cell at [ptr] ([surgescript_heapptr_t] is an unsigned index), [None]
    when the cell is not allocated. *)
Definition surgescript_heap_at (heap : surgescript_heap_t) (ptr : Z)
    : option surgescript_var_t :=
  if 0 <=? ptr then mjoin (heap !! Z.to_nat ptr) else None.

(** The index (counted from [i0]) of the first cell that is free. *)
Fixpoint first_free_cell (heap : surgescript_heap_t) (i0 : nat) : nat :=
  match heap with
  | [] => i0
  | None :: _ => i0
  | Some _ :: rest => first_free_cell rest (S i0)
  end.

(** Modelled from the spec: [surgescript_heap_malloc] of heap.c allocates a
    cell holding a new variable and returns its index. *)
Definition surgescript_heap_malloc (heap : surgescript_heap_t)
    : surgescript_heap_t * Z :=
  let ptr := first_free_cell heap 0 in
  if decide (ptr < length heap)%nat
  then (<[ptr := Some surgescript_var_create]> heap, Z.of_nat ptr)
  else (heap ++ [Some surgescript_var_create], Z.of_nat ptr).

(** Modelled from the spec: [surgescript_heap_free] of heap.c frees the cell
    at [ptr]. *)
Definition surgescript_heap_free (heap : surgescript_heap_t) (ptr : Z)
    : surgescript_heap_t :=
  if 0 <=? ptr then <[Z.to_nat ptr := None]> heap else heap.

(** ** Computations on an object's heap *)

(** A C function of array.c acts on the heap of its object and either returns
    or stops the process. *)
Definition heapM (A : Type) : Type :=
  surgescript_heap_t -> surgescript_heap_t * outcome A.

Definition heap_ret {A : Type} (a : A) : heapM A :=
  fun heap => (heap, Returned a).

Definition heap_bind {A B : Type} (m : heapM A) (k : A -> heapM B) : heapM B :=
  fun heap =>
    match m heap with
    | (heap1, Returned a) => k a heap1
    | (heap1, Fatal e) => (heap1, Fatal e)
    end.

Notation "'do' x <- m ; k" := (heap_bind m (fun x => k))
  (at level 10, x name, m at level 100, k at level 200).
Notation "'do_' m ; k" := (heap_bind m (fun _ => k))
  (at level 10, m at level 100, k at level 200).

(** Modelled from the spec: [ssfatal] of util.h, the fatal error that
    terminates the process with a diagnostic. *)
Definition ssfatal {A : Type} (e : fatal_error) : heapM A :=
  fun heap => (heap, Fatal e).

(** Modelled from the spec: [ssassert] of util.h; an assertion that fails is
    fatal. *)
Definition ssassert (b : bool) : heapM unit :=
  if b then heap_ret tt else ssfatal AssertionFailed.

(** Reading [*surgescript_heap_at(heap, ptr)]; a cell that is not allocated
    stops the process. *)
Definition heap_read (ptr : Z) : heapM surgescript_var_t :=
  fun heap =>
    match surgescript_heap_at heap ptr with
    | Some v => (heap, Returned v)
    | None => (heap, Fatal NullPointerException)
    end.

(** Updating the variable [surgescript_heap_at(heap, ptr)] points to. *)
Definition heap_update (ptr : Z) (f : surgescript_var_t -> surgescript_var_t)
    : heapM unit :=
  fun heap =>
    match surgescript_heap_at heap ptr with
    | Some v => (<[Z.to_nat ptr := Some (f v)]> heap, Returned tt)
    | None => (heap, Fatal NullPointerException)
    end.

Definition heap_malloc : heapM Z :=
  fun heap => let '(heap1, ptr) := surgescript_heap_malloc heap in (heap1, Returned ptr).

Definition heap_free (ptr : Z) : heapM unit :=
  fun heap => (surgescript_heap_free heap ptr, Returned tt).

(** ** The Array built-in  (sslib/array.c) *)

(** the length of the array is allocated on the first address *)
Definition LENGTH_ADDR : Z := 0.
(** array elements come later *)
Definition BASE_ADDR : Z := 1.

(** [ARRAY_LENGTH(heap)]:
    [((int)surgescript_var_get_number(surgescript_heap_at((heap), LENGTH_ADDR)))] *)
Definition ARRAY_LENGTH : heapM Z :=
  do v <- heap_read LENGTH_ADDR;
  heap_ret (int_wrap (surgescript_var_get_number v)).

Definition fun_constructor : heapM unit :=
  do length_addr <- heap_malloc;
  do_ heap_update length_addr (fun v => surgescript_var_set_number v 0);
  ssassert (length_addr =? LENGTH_ADDR).

Definition fun_length : heapM surgescript_var_t :=
  do v <- heap_read LENGTH_ADDR;
  heap_ret (surgescript_var_clone v).

Definition fun_get (param0 : surgescript_var_t) : heapM surgescript_var_t :=
  let index := int_wrap (surgescript_var_get_number param0) in
  if 0 <=? index then
    do length <- ARRAY_LENGTH;
    if index <? length then
      do v <- heap_read (uint32 (BASE_ADDR + index));
      heap_ret (surgescript_var_clone v)
    else ssfatal (ArrayGetOutOfBounds index)
  else ssfatal (ArrayGetOutOfBounds index).

(** The loop [while(index >= length) { ... }] of [fun_set].  [fuel] bounds the
    number of iterations; [None] is returned when it does not suffice. *)
Fixpoint fun_set_grow (fuel : nat) (index length : Z) : heapM (option Z) :=
  if index >=? length then
    match fuel with
    | O => heap_ret None
    | S fuel1 =>
        do ptr <- heap_malloc;
        let length := int_wrap (length + 1) in
        do_ heap_update LENGTH_ADDR (fun v => surgescript_var_set_number v length);
        do_ ssassert (ptr =? uint32 (BASE_ADDR + (length - 1)));
        fun_set_grow fuel1 index length
    end
  else heap_ret (Some length).

(** [fun_set]: [param0] is the index, [param1] the value.  The result is
    [None] when the loop did not end within [fuel] iterations. *)
Definition fun_set (fuel : nat) (param0 param1 : surgescript_var_t)
    : heapM (option surgescript_var_t) :=
  let index := int_wrap (surgescript_var_get_number param0) in
  do length <- ARRAY_LENGTH;
  let value := param1 in
  if (index <? 0) || (index >=? int_wrap (length + 1024)) then
    ssfatal (ArraySetOutOfBounds index)
  else
    do grown <- fun_set_grow fuel index length;
    match grown with
    | None => heap_ret None
    | Some _ =>
        do_ heap_update (uint32 (BASE_ADDR + index))
              (fun dst => surgescript_var_copy dst value);
        heap_ret (Some (surgescript_var_clone value))
    end.

Definition fun_push (param0 : surgescript_var_t) : heapM unit :=
  let value := param0 in
  do length <- ARRAY_LENGTH;
  do ptr <- heap_malloc;
  do_ heap_update ptr (fun dst => surgescript_var_copy dst value);
  let length := int_wrap (length + 1) in
  do_ heap_update LENGTH_ADDR (fun v => surgescript_var_set_number v length);
  ssassert (ptr =? uint32 (BASE_ADDR + (length - 1))).

(** [fun_pop] returns a variable, or [NULL] (here [None]). *)
Definition fun_pop : heapM (option surgescript_var_t) :=
  do length <- ARRAY_LENGTH;
  if 0 <? length then
    do v <- heap_read (uint32 (BASE_ADDR + (length - 1)));
    let value := surgescript_var_clone v in
    do_ heap_update LENGTH_ADDR
          (fun v => surgescript_var_set_number v (int_wrap (length - 1)));
    do_ heap_free (uint32 (BASE_ADDR + (length - 1)));
    heap_ret (Some value)
  else heap_ret None.

(** The heap of an Array object: the stored length in the first cell, then
    the cells of the elements, then cells that are free (array.c never frees
    but the last element, so the cells are contiguous). *)
Definition array_cells (stored_length : Z) (elems : list surgescript_var_t)
    (free : nat) : surgescript_heap_t :=
  Some (VarNumber stored_length) :: (Some <$> elems) ++ replicate free None.

Definition array_heap (elems : list surgescript_var_t) (free : nat)
    : surgescript_heap_t :=
  array_cells (Z.of_nat (length elems)) elems free.

(** ** The runtime environment  (renv.h) *)

(** A pointer is the address it holds. *)
Abbreviation address := positive (only parsing).

(** [struct surgescript_renv_t] *)
Record surgescript_renv_t : Type := RuntimeEnvironment {
  owner : address;         (* pointer to the object this program refers to *)
  stack : address;         (* pointer to the stack *)
  heap : address;          (* pointer to the heap *)
  program_pool : address;  (* pointer to the program pool *)
  object_pool : address;   (* pointer to the object pool *)
  tmp : address            (* temporary variables *)
}.

(** getters *)
Definition surgescript_renv_owner (renv : surgescript_renv_t) : address := owner renv.
Definition surgescript_renv_stack (renv : surgescript_renv_t) : address := stack renv.
Definition surgescript_renv_heap (renv : surgescript_renv_t) : address := heap renv.
Definition surgescript_renv_programpool (renv : surgescript_renv_t) : address :=
  program_pool renv.
Definition surgescript_renv_objectpool (renv : surgescript_renv_t) : address :=
  object_pool renv.
Definition surgescript_renv_tmp (renv : surgescript_renv_t) : address := tmp renv.

(** The arrays of temporaries that are allocated, by address. *)
Abbreviation tmp_memory := (gmap address (list surgescript_var_t))
  (only parsing).

(** [surgescript_renv_tmp(renv)[i]] read ... *)
Definition tmp_read (mem : tmp_memory) (renv : surgescript_renv_t) (i : nat)
    : option surgescript_var_t :=
  mem !! surgescript_renv_tmp renv ≫= fun slots => slots !! i.

(** ... and written. *)
Definition tmp_write (mem : tmp_memory) (renv : surgescript_renv_t) (i : nat)
    (v : surgescript_var_t) : tmp_memory :=
  alter (fun slots => <[i := v]> slots) (surgescript_renv_tmp renv) mem.

(** Modelled from the spec: [surgescript_renv_clone] is declared in renv.h
    (clones an existing renv, except for the temporary variables) and defined
    in renv.c, which is not among the sources.  The clone has the same owner,
    stack, heap, program pool and object pool, and new temporaries: an array
    at an address that was not allocated, holding [scratch], whatever the
    uninitialized slots contain. *)
Definition surgescript_renv_clone (mem : tmp_memory)
    (scratch : list surgescript_var_t) (runtime_environment : surgescript_renv_t)
    : tmp_memory * surgescript_renv_t :=
  let new_tmp := fresh (dom mem) in
  (<[new_tmp := scratch]> mem,
   {| owner := owner runtime_environment;
      stack := stack runtime_environment;
      heap := heap runtime_environment;
      program_pool := program_pool runtime_environment;
      object_pool := object_pool runtime_environment;
      tmp := new_tmp |}).

(** ** The virtual machine  (vm.c) *)

(** [surgescript_objectmanager_handle_t] *)
Abbreviation surgescript_objectmanager_handle_t := Z (only parsing).

(** [struct surgescript_vm_t], with its fields [stack], [program_pool] and
    [object_manager] (prefixed here: the first two names are fields of
    [surgescript_renv_t] too); the stack and the object manager are defined
    outside vm.c. *)
Record surgescript_vm_t {stack_t program objectmanager_t : Type} : Type :=
  VirtualMachine {
    vm_stack : stack_t;
    vm_program_pool : surgescript_programpool_t program;
    vm_object_manager : objectmanager_t
  }.
Arguments surgescript_vm_t : clear implicits.

(** What vm.c calls in the object manager and in the object tree (both defined
    outside vm.c).  An object pointer is what [surgescript_objectmanager_get]
    returns.  The call
    [surgescript_object_traverse_tree(root, surgescript_object_update)] may
    change the whole machine: the field of that name gives the machine the
    call leaves and the objects it has called the update function on, in
    order. *)
Class objectmanager_interface (stack_t program objectmanager_t object_t : Type)
    : Type := ObjectManagerInterface {
  surgescript_objectmanager_root :
    objectmanager_t -> surgescript_objectmanager_handle_t;
  surgescript_objectmanager_exists :
    objectmanager_t -> surgescript_objectmanager_handle_t -> bool;
  surgescript_objectmanager_get :
    objectmanager_t -> surgescript_objectmanager_handle_t -> object_t;
  surgescript_object_traverse_tree :
    surgescript_vm_t stack_t program objectmanager_t -> object_t ->
    surgescript_vm_t stack_t program objectmanager_t * list object_t
}.

Section VirtualMachine.

Context {stack_t program objectmanager_t object_t : Type}.
Context {om : objectmanager_interface stack_t program objectmanager_t object_t}.

Local Abbreviation vm_t := (surgescript_vm_t stack_t program objectmanager_t).

Definition surgescript_vm_is_active (vm : vm_t) : bool :=
  let root_handle := surgescript_objectmanager_root (vm_object_manager vm) in
  surgescript_objectmanager_exists (vm_object_manager vm) root_handle.

Definition surgescript_vm_root_object (vm : vm_t) : object_t :=
  let root_handle := surgescript_objectmanager_root (vm_object_manager vm) in
  surgescript_objectmanager_get (vm_object_manager vm) root_handle.

(** [surgescript_vm_update]: the machine after the call, the value
    returned, and the objects visited during the call. *)
Definition surgescript_vm_update (vm : vm_t) : vm_t * bool * list object_t :=
  if surgescript_vm_is_active vm then
    let root := surgescript_vm_root_object vm in
    let '(vm1, visited) := surgescript_object_traverse_tree vm root in
    (vm1, surgescript_vm_is_active vm1, visited)
  else
    (vm, false, []).

(** [n] calls of [surgescript_vm_update] in a row: the machine they leave,
    and what each call returned and visited. *)
Fixpoint vm_updates (n : nat) (vm : vm_t) : vm_t * list (bool * list object_t) :=
  match n with
  | O => (vm, [])
  | S n1 =>
      let '(vm1, r, visited) := surgescript_vm_update vm in
      let '(vm2, log) := vm_updates n1 vm1 in
      (vm2, (r, visited) :: log)
  end.

End VirtualMachine.

(** ** Runs of calls on a pool *)

Section PoolCalls.

Context {program : Type}.
Context {hashlittle2_impl : hashlittle2_t}.

(** A call of one of the functions that change the pool. *)
Inductive pool_op : Type :=
  | OpPut (object_name program_name : string) (prog : program)
  | OpReplace (object_name program_name : string) (prog : program)
  | OpDelete (object_name program_name : string)
  | OpPurge (object_name : string).

Definition run_op (pool : surgescript_programpool_t program) (op : pool_op)
    : surgescript_programpool_t program * outcome unit :=
  match op with
  | OpPut object_name program_name prog =>
      match surgescript_programpool_put pool object_name program_name prog with
      | (pool1, Returned _) => (pool1, Returned tt)
      | (pool1, Fatal e) => (pool1, Fatal e)
      end
  | OpReplace object_name program_name prog =>
      match surgescript_programpool_replace pool object_name program_name prog
      with
      | (pool1, Returned _) => (pool1, Returned tt)
      | (pool1, Fatal e) => (pool1, Fatal e)
      end
  | OpDelete object_name program_name =>
      (surgescript_programpool_delete pool object_name program_name,
       Returned tt)
  | OpPurge object_name =>
      (surgescript_programpool_purge pool object_name, Returned tt)
  end.

(** The calls are made one after the other; a fatal one ends the run. *)
Fixpoint run_ops (pool : surgescript_programpool_t program)
    (ops : list pool_op) : surgescript_programpool_t program * outcome unit :=
  match ops with
  | [] => (pool, Returned tt)
  | op :: rest =>
      match run_op pool op with
      | (pool1, Returned _) => run_ops pool1 rest
      | (pool1, Fatal e) => (pool1, Fatal e)
      end
  end.

(** The pairs (object name, program name) the calls name. *)
Definition op_keys (op : pool_op) : list (string * string) :=
  match op with
  | OpPut object_name program_name _
  | OpReplace object_name program_name _
  | OpDelete object_name program_name => [(object_name, program_name)]
  | OpPurge _ => []
  end.

Definition ops_keys (ops : list pool_op) : list (string * string) :=
  concat (op_keys <$> ops).

(** Whether a delete or a purge is among the calls. *)
Definition removes (op : pool_op) : bool :=
  match op with
  | OpDelete _ _ | OpPurge _ => true
  | _ => false
  end.

(** The names [surgescript_programpool_foreach] hands to its callback for
    [object_name], in the order of the calls. *)
Definition visited_names (pool : surgescript_programpool_t program)
    (object_name : string) : list string :=
  surgescript_programpool_foreach pool object_name
    (fun program_name visited => visited ++ [program_name]) [].

(** The program names of [object_name], as the class index holds them. *)
Definition program_names (pool : surgescript_programpool_t program)
    (object_name : string) : list string :=
  default [] (meta pool !! object_name).

(** No two of the pairs (object name, program name) share a signature. *)
Definition signatures_distinct (keys : list (string * string)) : Prop :=
  Forall (fun k1 =>
    Forall (fun k2 =>
      generate_signature k1.1 k1.2 = generate_signature k2.1 k2.2 -> k1 = k2)
      keys) keys.

#[global] Instance signatures_distinct_dec keys : Decision (signatures_distinct keys).
Proof. unfold signatures_distinct. apply _. Defined.

(** *** the pool as the spec words it *)

(** Following the spec's words (data model of the Program Pool): the
    registry maps a (class, name) pair to at most one program, and the class
    index lists the names of a class in insertion order, a name being listed
    exactly when its pair is registered.  Here both are read off one
    sequence of entries, kept in the order in which they were registered. *)
Fixpoint registered (reg : list (string * string * program))
    (object_name program_name : string) : option program :=
  match reg with
  | [] => None
  | e :: rest =>
      if decide (e.1 = (object_name, program_name)) then Some e.2
      else registered rest object_name program_name
  end.

(** Following the spec's words: [put] registers a new program, and fails
    fatally if (class, name) already exists. *)
Definition spec_put (reg : list (string * string * program))
    (object_name program_name : string) (prog : program)
    : list (string * string * program) * outcome unit :=
  match registered reg object_name program_name with
  | Some _ => (reg, Fatal (DuplicateFunction program_name object_name))
  | None => (reg ++ [((object_name, program_name), prog)], Returned tt)
  end.

(** Following the spec's words: [replace] replaces the existing program if
    present, otherwise behaves as [put]; it never fails. *)
Definition spec_replace (reg : list (string * string * program))
    (object_name program_name : string) (prog : program)
    : list (string * string * program) :=
  match registered reg object_name program_name with
  | Some _ =>
      (fun e => if decide (e.1 = (object_name, program_name))
                then ((object_name, program_name), prog) else e) <$> reg
  | None => reg ++ [((object_name, program_name), prog)]
  end.

(** Following the spec's words: [delete] removes the exact entry and its
    class-index record if present, and is a no-op if absent. *)
Definition spec_delete (reg : list (string * string * program))
    (object_name program_name : string) : list (string * string * program) :=
  filter (fun e => e.1 <> (object_name, program_name)) reg.

(** Following the spec's words: [purge] removes every program of the
    class. *)
Definition spec_purge (reg : list (string * string * program))
    (object_name : string) : list (string * string * program) :=
  filter (fun e => e.1.1 <> object_name) reg.

(** Following the spec's words: [get] looks up the exact (class, name); if
    absent, ("Object", name); if still absent, nothing. *)
Definition spec_get (reg : list (string * string * program))
    (object_name program_name : string) : option program :=
  match registered reg object_name program_name with
  | Some prog => Some prog
  | None => registered reg "Object" program_name
  end.

(** Following the spec's words: the program names registered under the
    class, in insertion order. *)
Definition spec_names (reg : list (string * string * program))
    (object_name : string) : list string :=
  (fun e => e.1.2) <$> filter (fun e => e.1.1 = object_name) reg.

Definition spec_op (reg : list (string * string * program)) (op : pool_op)
    : list (string * string * program) * outcome unit :=
  match op with
  | OpPut object_name program_name prog =>
      spec_put reg object_name program_name prog
  | OpReplace object_name program_name prog =>
      (spec_replace reg object_name program_name prog, Returned tt)
  | OpDelete object_name program_name =>
      (spec_delete reg object_name program_name, Returned tt)
  | OpPurge object_name => (spec_purge reg object_name, Returned tt)
  end.

Fixpoint spec_ops (reg : list (string * string * program))
    (ops : list pool_op) : list (string * string * program) * outcome unit :=
  match ops with
  | [] => (reg, Returned tt)
  | op :: rest =>
      match spec_op reg op with
      | (reg1, Returned _) => spec_ops reg1 rest
      | (reg1, Fatal e) => (reg1, Fatal e)
      end
  end.

(** What is registered after the calls [ops] on a new pool. *)
Definition spec_registry (ops : list pool_op)
    : list (string * string * program) :=
  (spec_ops [] ops).1.

(** Following the spec's words (enumeration order): the names registered
    under [object_name], in the order they were first put under it.  A call
    that registers a name counts as its put; a later call for a name that
    was put before does not move it. *)
Definition note_first_put (object_name : string) (order : list string)
    (op : pool_op) : list string :=
  match op with
  | OpPut c n _ | OpReplace c n _ =>
      if decide (c = object_name) then
        if decide (n ∈ order) then order else order ++ [n]
      else order
  | _ => order
  end.

Definition first_put_order (object_name : string) (ops : list pool_op)
    : list string :=
  filter (fun n => is_Some (registered (spec_registry ops) object_name n))
    (foldl (note_first_put object_name) [] ops).

(** The pool holds what the registry [reg] says, as far as the pairs of
    [keys] go: under the signature of a pair is the program registered for
    it, and the class index lists the names registered for a class, in
    order. *)
Definition refines (keys : list (string * string))
    (pool : surgescript_programpool_t program)
    (reg : list (string * string * program)) : Prop :=
  (forall c n, (c, n) ∈ keys ->
     hash pool !! generate_signature c n = registered reg c n)
  /\ (forall c, program_names pool c = spec_names reg c)
  /\ (forall e, e ∈ reg -> e.1 ∈ keys)
  /\ NoDup reg.*1.

End PoolCalls.

(** *** three properties as the spec states them

    Each is stated for the pools that a run of calls makes of a new pool,
    whatever the pairs the calls name; [nat] stands for the programs. *)

(** [get] resolves over pairs: exact pair, else ("Object", name), else
    nothing. *)
Definition get_resolves_pairs (h : hashlittle2_t) : Prop :=
  forall (ops : list (@pool_op nat)) pool c n,
    @run_ops nat h surgescript_programpool_create ops = (pool, Returned tt) ->
    @surgescript_programpool_get nat h pool c n
    = spec_get (spec_registry ops) c n.

(** After [purge(c)], [get(c, n)] returns nothing for every [n] that was
    registered under [c], unless [n] is registered under "Object". *)
Definition purge_clears_pairs (h : hashlittle2_t) : Prop :=
  forall (ops : list (@pool_op nat)) pool c n,
    @run_ops nat h surgescript_programpool_create ops = (pool, Returned tt) ->
    is_Some (registered (spec_registry ops) c n) ->
    @surgescript_programpool_get nat h
      (@surgescript_programpool_purge nat h pool c) c n
    = registered (spec_purge (spec_registry ops) c) "Object" n.

(** [foreach] visits the registered names once each, in the order they were
    first put. *)
Definition foreach_in_first_put_order (h : hashlittle2_t) : Prop :=
  forall (ops : list (@pool_op nat)) pool c,
    @run_ops nat h surgescript_programpool_create ops = (pool, Returned tt) ->
    visited_names pool c = first_put_order c ops.

(** ** Chained hashing and a supply of names *)

(** The two [uint32_t] variables [pc] and [pb] after a call
    [hashlittle2(key, strlen(key), &pc, &pb)] that found [seeds] in them. *)
Definition hash_state {hashlittle2_impl : hashlittle2_t} (key : string)
    (seeds : Z * Z) : Z * Z :=
  let '(pc, pb) := hashlittle2 key seeds in (uint32 pc, uint32 pb).

(** The four 32-bit numbers that hashing [key] once from the zero seeds, and
    once more from the result, leaves behind, as one number below [2 ^ 128]. *)
Definition twice_hashed {hashlittle2_impl : hashlittle2_t} (key : string) : Z :=
  let s1 := hash_state key (0, 0) in
  let s2 := hash_state key s1 in
  s1.1 + 2 ^ 32 * s1.2 + 2 ^ 64 * s2.1 + 2 ^ 96 * s2.2.

(** A name over the letters a and b for every positive number: its binary
    digits, lowest first, without the leading one. *)
Fixpoint name_of_positive (p : positive) : string :=
  match p with
  | xH => EmptyString
  | xO q => String (Ascii.ascii_of_nat 97) (name_of_positive q)
  | xI q => String (Ascii.ascii_of_nat 98) (name_of_positive q)
  end.

Definition name_of (i : Z) : string := name_of_positive (Z.to_pos (i + 1)).

(** ** An instance of the hash function

    The properties of the pool hold for every [hashlittle2_t].  The closed
    instances at the end of the file need one: this is [hashlittle2] of Bob
    Jenkins' lookup3.c (public domain), for keys read as bytes in
    little-endian order. *)

Module Lookup3.

Definition rot (x k : Z) : Z :=
  uint32 (Z.lor (Z.shiftl x k) (Z.shiftr x (32 - k))).

Definition mix (s : Z * Z * Z) : Z * Z * Z :=
  let '(a, b, c) := s in
  let a := uint32 (a - c) in let a := Z.lxor a (rot c 4) in let c := uint32 (c + b) in
  let b := uint32 (b - a) in let b := Z.lxor b (rot a 6) in let a := uint32 (a + c) in
  let c := uint32 (c - b) in let c := Z.lxor c (rot b 8) in let b := uint32 (b + a) in
  let a := uint32 (a - c) in let a := Z.lxor a (rot c 16) in let c := uint32 (c + b) in
  let b := uint32 (b - a) in let b := Z.lxor b (rot a 19) in let a := uint32 (a + c) in
  let c := uint32 (c - b) in let c := Z.lxor c (rot b 4) in let b := uint32 (b + a) in
  (a, b, c).

Definition final (s : Z * Z * Z) : Z * Z * Z :=
  let '(a, b, c) := s in
  let c := Z.lxor c b in let c := uint32 (c - rot b 14) in
  let a := Z.lxor a c in let a := uint32 (a - rot c 11) in
  let b := Z.lxor b a in let b := uint32 (b - rot a 25) in
  let c := Z.lxor c b in let c := uint32 (c - rot b 16) in
  let a := Z.lxor a c in let a := uint32 (a - rot c 4) in
  let b := Z.lxor b a in let b := uint32 (b - rot a 14) in
  let c := Z.lxor c b in let c := uint32 (c - rot b 24) in
  (a, b, c).

Definition bytes_of (key : string) : list Z :=
  (fun ch => Z.of_N (Ascii.N_of_ascii ch)) <$> String.list_ascii_of_string key.

(** The 32-bit word made of the (at most four) bytes [bs], lowest first. *)
Fixpoint word_le (bs : list Z) : Z :=
  match bs with
  | [] => 0
  | x :: rest => x + 256 * word_le rest
  end.

Definition word_at (bs : list Z) (i : nat) : Z :=
  word_le (take 4 (drop (4 * i) bs)).

(** The blocks of 12 bytes, all but the last one. *)
Fixpoint blocks (fuel : nat) (bs : list Z) (s : Z * Z * Z) : list Z * (Z * Z * Z) :=
  match fuel with
  | O => (bs, s)
  | S fuel1 =>
      if decide (12 < length bs)%nat then
        let '(a, b, c) := s in
        blocks fuel1 (drop 12 bs)
          (mix (uint32 (a + word_at bs 0), uint32 (b + word_at bs 1),
                uint32 (c + word_at bs 2)))
      else (bs, s)
  end.

Definition hashlittle2 (key : string) (seeds : Z * Z) : Z * Z :=
  let '(pc, pb) := seeds in
  let bs := bytes_of key in
  let a := uint32 (3735928559 + Z.of_nat (length bs) + pc) in
  let '(rest, (a, b, c)) := blocks (length bs) bs (a, a, uint32 (a + pb)) in
  match rest with
  | [] => (c, b)
  | _ =>
      let '(a, b, c) :=
        final (uint32 (a + word_at rest 0), uint32 (b + word_at rest 1),
               uint32 (c + word_at rest 2)) in
      (c, b)
  end.

End Lookup3.

#[export] Instance lookup3_hashlittle2 : hashlittle2_t := Lookup3.hashlittle2.

(** ** An instance of the object manager

    The properties of the machine hold for every [objectmanager_interface].
    The closed instances at the end of the file need one.  Modelled from the
    spec: a manager that keeps the handles of the live objects, in traversal
    order, and of those that were killed; the root has handle 1; a traversal
    updates every live object and then removes the killed ones. *)

Module SimpleManager.

Record objectmanager : Type := ObjectManager {
  live : list surgescript_objectmanager_handle_t;
  killed : list surgescript_objectmanager_handle_t
}.

Definition root (mgr : objectmanager) : surgescript_objectmanager_handle_t := 1.

Definition exists_ (mgr : objectmanager) (h : surgescript_objectmanager_handle_t)
    : bool :=
  bool_decide (h ∈ live mgr).

Definition get (mgr : objectmanager) (h : surgescript_objectmanager_handle_t)
    : surgescript_objectmanager_handle_t := h.

Definition traverse (vm : surgescript_vm_t unit nat objectmanager)
    (root_object : surgescript_objectmanager_handle_t)
    : surgescript_vm_t unit nat objectmanager
      * list surgescript_objectmanager_handle_t :=
  let mgr := vm_object_manager vm in
  ({| vm_stack := vm_stack vm;
      vm_program_pool := vm_program_pool vm;
      vm_object_manager :=
        {| live := filter (fun h => h ∉ killed mgr) (live mgr); killed := [] |} |},
   live mgr).

End SimpleManager.

#[export] Instance simple_objectmanager
    : objectmanager_interface unit nat SimpleManager.objectmanager
        surgescript_objectmanager_handle_t :=
  {| surgescript_objectmanager_root := SimpleManager.root;
     surgescript_objectmanager_exists := SimpleManager.exists_;
     surgescript_objectmanager_get := SimpleManager.get;
     surgescript_object_traverse_tree := SimpleManager.traverse |}.

(** ** More of the Array built-in  (sslib/array.c) *)

(** [surgescript_var_compare(a, b)] of var.c, which is not among the sources:
    a three-way comparison, negative, zero or positive.  The functions that
    use it are defined, and their properties proved, for any such function;
    what a property needs of it is a hypothesis. *)
Class var_compare_t : Type :=
  surgescript_var_compare : surgescript_var_t -> surgescript_var_t -> Z.

(** Modelled from the spec: [surgescript_var_swap(a, b)] of var.c (swap)
    exchanges the values of the two variables; here [a] and [b] are the
    variables of the cells at [pa] and [pb]. *)
Definition heap_swap (pa pb : Z) : heapM unit :=
  do a <- heap_read pa;
  do b <- heap_read pb;
  do_ heap_update pa (fun _ => b);
  heap_update pb (fun _ => a).

(** [for(int i = lo; i < hi; i++) body], for a body that changes neither
    [i] nor [hi]: the body runs for [lo], [lo + 1], ..., [hi - 1], and a
    fatal error ends the loop.  ([i] never exceeds [hi], an [int].) *)
Fixpoint for_up (n : nat) (i : Z) (body : Z -> heapM unit) : heapM unit :=
  match n with
  | O => heap_ret tt
  | S n1 => do_ body i; for_up n1 (i + 1) body
  end.

Definition for_range (lo hi : Z) (body : Z -> heapM unit) : heapM unit :=
  for_up (Z.to_nat (hi - lo)) lo body.

(** [for(int i = hi; i > lo; i--) body], for a body that changes neither
    [i] nor [lo]: the body runs for [hi], [hi - 1], ..., [lo + 1]. *)
Fixpoint for_down (n : nat) (i : Z) (body : Z -> heapM unit) : heapM unit :=
  match n with
  | O => heap_ret tt
  | S n1 => do_ body i; for_down n1 (i - 1) body
  end.

Definition for_range_down (hi lo : Z) (body : Z -> heapM unit) : heapM unit :=
  for_down (Z.to_nat (hi - lo)) hi body.

(** [surgescript_var_copy(surgescript_heap_at(heap, dst), surgescript_heap_at(heap, src))] *)
Definition heap_copy (dst src : Z) : heapM unit :=
  do v <- heap_read src;
  heap_update dst (fun d => surgescript_var_copy d v).

Definition fun_destructor : heapM (option surgescript_var_t) :=
  heap_ret None.

Definition fun_main : heapM (option surgescript_var_t) :=
  heap_ret None.

(** removes (and returns) the first element and shifts all others to a lower
    index *)
Definition fun_shift : heapM (option surgescript_var_t) :=
  do length <- ARRAY_LENGTH;
  if 0 <? length then
    do v <- heap_read (uint32 (BASE_ADDR + 0));
    let value := surgescript_var_clone v in
    do_ for_range 0 (int_wrap (length - 1))
          (fun i => heap_copy (uint32 (BASE_ADDR + i))
                              (uint32 (BASE_ADDR + (i + 1))));
    do_ heap_update LENGTH_ADDR
          (fun v => surgescript_var_set_number v (int_wrap (length - 1)));
    do_ heap_free (uint32 (BASE_ADDR + (length - 1)));
    heap_ret (Some value)
  else heap_ret None.

(** adds an element to the beginning of the array and shifts all others to a
    higher index *)
Definition fun_unshift (param0 : surgescript_var_t) : heapM unit :=
  let value := param0 in
  do length <- ARRAY_LENGTH;
  do ptr <- heap_malloc;
  let length := int_wrap (length + 1) in
  do_ heap_update LENGTH_ADDR (fun v => surgescript_var_set_number v length);
  do_ ssassert (ptr =? uint32 (BASE_ADDR + (length - 1)));
  do_ for_range_down (int_wrap (length - 1)) 0
        (fun i => heap_copy (uint32 (BASE_ADDR + i))
                            (uint32 (BASE_ADDR + (i - 1))));
  heap_update (uint32 (BASE_ADDR + 0))
    (fun dst => surgescript_var_copy dst value).

(** reverses the array; [length / 2] is the division of two [int]s *)
Definition fun_reverse : heapM unit :=
  do length <- ARRAY_LENGTH;
  for_range 0 (Z.quot length 2)
    (fun i => heap_swap (uint32 (BASE_ADDR + i))
                        (uint32 (BASE_ADDR + (length - 1 - i)))).

Section ArrayCompare.

Context {var_compare_impl : var_compare_t}.

(** The loop of [fun_indexof], [n] iterations from [i] on: it returns at the
    first [i] whose element compares equal to the needle. *)
Fixpoint indexof_loop (n : nat) (i : Z) (needle : surgescript_var_t)
    : heapM surgescript_var_t :=
  match n with
  | O => heap_ret (surgescript_var_set_number surgescript_var_create (-1))
  | S n1 =>
      do element <- heap_read (uint32 (BASE_ADDR + i));
      if surgescript_var_compare element needle =? 0 then
        heap_ret (surgescript_var_set_number surgescript_var_create i)
      else indexof_loop n1 (i + 1) needle
  end.

(** finds the first i such that array[i] == param[0], or -1 if there is no
    such a match *)
Definition fun_indexof (param0 : surgescript_var_t) : heapM surgescript_var_t :=
  let needle := param0 in
  do length <- ARRAY_LENGTH;
  indexof_loop (Z.to_nat (length - 0)) 0 needle.

(** returns the median of 3 variables: [a], [b] and [c] are pointers to
    cells, and so is the result *)
Definition med3 (a b c : Z) : heapM Z :=
  do va <- heap_read a;
  do vb <- heap_read b;
  do vc <- heap_read c;
  let ab := surgescript_var_compare va vb in
  let bc := surgescript_var_compare vb vc in
  let ac := surgescript_var_compare va vc in
  if (ab >=? 0) && (ac >=? 0) then heap_ret (if bc >=? 0 then b else c)
  else if (ab <=? 0) && (bc >=? 0) then heap_ret (if ac >=? 0 then a else c)
  else heap_ret (if ab >=? 0 then a else b).

(** The loop [for(i = begin; i <= end - 1; i++)] of [partition], with [p]
    the variable it advances; [i], [p] and [end] are unsigned.  [fuel] bounds
    the number of iterations; [None] is returned when it does not suffice. *)
Fixpoint partition_loop (fuel : nat) (i p end_ pivot : Z) : heapM (option Z) :=
  if i <=? uint32 (end_ - 1) then
    match fuel with
    | O => heap_ret None
    | S fuel1 =>
        do x <- heap_read i;
        do pv <- heap_read pivot;
        if surgescript_var_compare x pv <=? 0 then
          do_ heap_swap i p;
          partition_loop fuel1 (uint32 (i + 1)) (uint32 (p + 1)) end_ pivot
        else partition_loop fuel1 (uint32 (i + 1)) p end_ pivot
    end
  else heap_ret (Some p).

(** returns ptr such that heap[begin .. ptr-1] <= heap[ptr] < heap[ptr+1 .. end],
    where begin <= end *)
Definition partition (fuel : nat) (begin end_ : Z) : heapM (option Z) :=
  let pivot := end_ in
  let p := begin in
  do m <- med3 begin (uint32 (begin + Z.quot (uint32 (end_ - begin)) 2)) pivot;
  do_ heap_swap pivot m;
  do found <- partition_loop fuel begin p end_ pivot;
  match found with
  | None => heap_ret None
  | Some p =>
      do_ heap_swap p pivot;
      heap_ret (Some p)
  end.

(** quicksort algorithm: sorts heap[begin .. end].  [depth] bounds the depth
    of the recursion and [fuel] the iterations of each loop; [None] is
    returned when one of them does not suffice. *)
Fixpoint quicksort (depth fuel : nat) (begin end_ : Z) : heapM (option unit) :=
  if begin <? end_ then
    match depth with
    | O => heap_ret None
    | S depth1 =>
        do found <- partition fuel begin end_;
        match found with
        | None => heap_ret None
        | Some p =>
            do left <- quicksort depth1 fuel begin (uint32 (p - 1));
            match left with
            | None => heap_ret None
            | Some _ => quicksort depth1 fuel (uint32 (p + 1)) end_
            end
        end
    end
  else heap_ret (Some tt).

(** sorts the array *)
Definition fun_sort (fuel : nat) : heapM (option unit) :=
  do length <- ARRAY_LENGTH;
  quicksort fuel fuel BASE_ADDR (uint32 (BASE_ADDR + length - 1)).

(** The index [fun_indexof] reports: that of the first element that compares
    equal to the needle, or [-1]. *)
Definition first_match_index (needle : surgescript_var_t)
    (es : list surgescript_var_t) : Z :=
  match list_find (fun x => surgescript_var_compare x needle = 0) es with
  | Some (i, _) => Z.of_nat i
  | None => -1
  end.

(** [a] does not come after [b]. *)
Definition var_le (a b : surgescript_var_t) : Prop :=
  surgescript_var_compare a b <= 0.

(** What the sorting functions need of the comparison: when [a] is not
    before [b] then [b] is not after [a], and the order is transitive. *)
Definition compare_antisymmetric : Prop :=
  forall a b, 0 <= surgescript_var_compare a b -> var_le b a.

Definition compare_transitive : Prop :=
  forall a b c, var_le a b -> var_le b c -> var_le a c.

End ArrayCompare.

(** A comparison for the closed instances: numbers by their value, any other
    variable as the number it converts to. *)
#[export] Instance number_compare : var_compare_t :=
  fun a b =>
    match surgescript_var_get_number a ?= surgescript_var_get_number b with
    | Lt => -1
    | Eq => 0
    | Gt => 1
    end.

(** ** Sequences of calls on an Array object *)

(** A call of one of the methods that change the array. *)
Inductive array_call : Type :=
  | CallPush (value : surgescript_var_t)
  | CallPop
  | CallShift
  | CallUnshift (value : surgescript_var_t)
  | CallReverse.

(** The call on the heap of the object, and what it returns ([None] for
    [NULL]). *)
Definition run_array_call (call : array_call)
    : heapM (option surgescript_var_t) :=
  match call with
  | CallPush value => do_ fun_push value; heap_ret None
  | CallPop => fun_pop
  | CallShift => fun_shift
  | CallUnshift value => do_ fun_unshift value; heap_ret None
  | CallReverse => do_ fun_reverse; heap_ret None
  end.

(** The calls are made one after the other; a fatal one ends the run. *)
Fixpoint run_array_calls (calls : list array_call)
    : heapM (list (option surgescript_var_t)) :=
  match calls with
  | [] => heap_ret []
  | call :: rest =>
      do r <- run_array_call call;
      do rs <- run_array_calls rest;
      heap_ret (r :: rs)
  end.

(** What the methods are meant to do, on the sequence of the elements: the
    sequence a call leaves and the value it returns. *)
Definition list_call (call : array_call) (es : list surgescript_var_t)
    : list surgescript_var_t * option surgescript_var_t :=
  match call with
  | CallPush value => (es ++ [value], None)
  | CallPop =>
      match last es with
      | Some x => (take (length es - 1) es, Some x)
      | None => (es, None)
      end
  | CallShift =>
      match es with
      | x :: rest => (rest, Some x)
      | [] => (es, None)
      end
  | CallUnshift value => (value :: es, None)
  | CallReverse => (reverse es, None)
  end.

Fixpoint list_calls (calls : list array_call) (es : list surgescript_var_t)
    : list surgescript_var_t * list (option surgescript_var_t) :=
  match calls with
  | [] => (es, [])
  | call :: rest =>
      let '(es1, r) := list_call call es in
      let '(es2, rs) := list_calls rest es1 in
      (es2, r :: rs)
  end.

(** ** Native functions  (vm.c, sslib/array.c) *)

(** [surgescript_cprogram_create(num_params, cfun)] of program.c, which is
    not among the sources: the program that calls the native function [cfun]
    with [num_params] parameters.  [surgescript_vm_bind] is defined, and its
    properties are proved, for any such function. *)
Class cprogram_create_t (program cfunction : Type) : Type :=
  surgescript_cprogram_create : Z -> cfunction -> program.

Section NativeFunctions.

Context {stack_t program objectmanager_t cfunction : Type}.
Context {hashlittle2_impl : hashlittle2_t}.
Context {cprogram_impl : cprogram_create_t program cfunction}.

(** A function of vm.c or of the library that works on the machine it is
    given: it leaves a machine, and returns or stops the process. *)
Definition vmM (A : Type) : Type :=
  surgescript_vm_t stack_t program objectmanager_t
  -> surgescript_vm_t stack_t program objectmanager_t * outcome A.

Definition vm_ret {A : Type} (a : A) : vmM A := fun vm => (vm, Returned a).

(** One call after the other; a fatal one ends the run. *)
Definition vm_seq {A B : Type} (m : vmM A) (k : vmM B) : vmM B :=
  fun vm =>
    match m vm with
    | (vm1, Returned _) => k vm1
    | (vm1, Fatal e) => (vm1, Fatal e)
    end.

(** [surgescript_vm_programpool], [surgescript_vm_objectmanager] *)
Definition surgescript_vm_programpool
    (vm : surgescript_vm_t stack_t program objectmanager_t)
    : surgescript_programpool_t program :=
  vm_program_pool vm.

Definition surgescript_vm_objectmanager
    (vm : surgescript_vm_t stack_t program objectmanager_t) : objectmanager_t :=
  vm_object_manager vm.

(** Binds a C function to a SurgeScript object.  The pool is the one object
    [vm->program_pool] points to: what [put] does to it is seen through the
    machine. *)
Definition surgescript_vm_bind (object_name fun_name : string)
    (cfun : cfunction) (num_params : Z) : vmM unit :=
  fun vm =>
    let cprogram := surgescript_cprogram_create num_params cfun in
    match surgescript_programpool_put (vm_program_pool vm) object_name fun_name
            cprogram with
    | (pool1, Returned _) =>
        ({| vm_stack := vm_stack vm;
            vm_program_pool := pool1;
            vm_object_manager := vm_object_manager vm |}, Returned tt)
    | (_, Fatal e) => (vm, Fatal e)
    end.

(** The calls [surgescript_vm_bind(vm, object_name, fun_name, cfun, num_params)]
    for the entries of [methods], first to last. *)
Definition bind_all (object_name : string)
    (methods : list (string * cfunction * Z)) : vmM unit :=
  foldr (fun method rest =>
           vm_seq (surgescript_vm_bind object_name method.1.1 method.1.2
                     method.2) rest)
    (vm_ret tt) methods.

(** The signature [surgescript_vm_bind] registers an entry of [methods]
    under. *)
Definition method_signature (object_name : string)
    (method : string * cfunction * Z) : Z :=
  generate_signature object_name method.1.1.

End NativeFunctions.

(** The native functions of array.c, as values of
    [surgescript_program_cfunction_t]. *)
Inductive array_cfunction : Type :=
  | cfun_constructor
  | cfun_destructor
  | cfun_main
  | cfun_get
  | cfun_set
  | cfun_length
  | cfun_push
  | cfun_pop
  | cfun_shift
  | cfun_unshift
  | cfun_sort
  | cfun_reverse
  | cfun_indexof.

Section RegisterArray.

Context {stack_t program objectmanager_t : Type}.
Context {hashlittle2_impl : hashlittle2_t}.
Context {cprogram_impl : cprogram_create_t program array_cfunction}.

Local Infix ">>" := vm_seq (at level 65, right associativity).

(** Register the methods of the SurgeScript Arrays *)
Definition surgescript_sslib_register_array
    : @vmM stack_t program objectmanager_t unit :=
  surgescript_vm_bind "Array" "__constructor" cfun_constructor 0 >>
  surgescript_vm_bind "Array" "__destructor" cfun_destructor 0 >>
  surgescript_vm_bind "Array" "state:main" cfun_main 0 >>
  surgescript_vm_bind "Array" "get" cfun_get 1 >>
  surgescript_vm_bind "Array" "set" cfun_set 2 >>
  surgescript_vm_bind "Array" "length" cfun_length 0 >>
  surgescript_vm_bind "Array" "push" cfun_push 1 >>
  surgescript_vm_bind "Array" "pop" cfun_pop 0 >>
  surgescript_vm_bind "Array" "shift" cfun_shift 0 >>
  surgescript_vm_bind "Array" "unshift" cfun_unshift 1 >>
  surgescript_vm_bind "Array" "sort" cfun_sort 0 >>
  surgescript_vm_bind "Array" "reverse" cfun_reverse 0 >>
  surgescript_vm_bind "Array" "indexOf" cfun_indexof 1.

End RegisterArray.

(** The methods of an Array, with the native function and the number of
    parameters of each, in the order [surgescript_sslib_register_array] binds
    them. *)
Definition array_methods : list (string * array_cfunction * Z) :=
  [ ("__constructor", cfun_constructor, 0);
    ("__destructor", cfun_destructor, 0);
    ("state:main", cfun_main, 0);
    ("get", cfun_get, 1);
    ("set", cfun_set, 2);
    ("length", cfun_length, 0);
    ("push", cfun_push, 1);
    ("pop", cfun_pop, 0);
    ("shift", cfun_shift, 0);
    ("unshift", cfun_unshift, 1);
    ("sort", cfun_sort, 0);
    ("reverse", cfun_reverse, 0);
    ("indexOf", cfun_indexof, 1) ].

(** For the closed instances: a program is the native function and the
    number of its parameters. *)
#[export] Instance tagged_cprogram
    : cprogram_create_t (Z * array_cfunction) array_cfunction :=
  fun num_params cfun => (num_params, cfun).

(** ** Concrete pools, machines, environments

    The inputs of the closed instances at the end of the file; the pools use
    the lookup3 hash. *)

Definition scenario_pool0 : surgescript_programpool_t nat :=
  surgescript_programpool_create.

Definition scenario_pool1 : surgescript_programpool_t nat :=
  (surgescript_programpool_put scenario_pool0 "Object" "toString" 1%nat).1.

Definition scenario_pool2 : surgescript_programpool_t nat :=
  (surgescript_programpool_put scenario_pool1 "Array" "toString" 2%nat).1.

Definition scenario_pool3 : surgescript_programpool_t nat :=
  (surgescript_programpool_put scenario_pool2 "Array" "push" 3%nat).1.

(** Runs of calls on a new pool. *)
Definition scenario_ops : list (@pool_op nat) :=
  [ OpPut "Object" "toString" 1%nat;
    OpPut "Array" "toString" 2%nat;
    OpPut "Array" "push" 3%nat;
    OpDelete "Array" "toString" ].

Definition scenario_ops_pool : surgescript_programpool_t nat :=
  (run_ops surgescript_programpool_create scenario_ops).1.

Definition order_ops : list (@pool_op nat) :=
  [ OpPut "Array" "push" 1%nat;
    OpPut "Array" "pop" 2%nat;
    OpReplace "Array" "push" 3%nat;
    OpPut "Object" "toString" 4%nat;
    OpReplace "Array" "get" 5%nat;
    OpReplace "Array" "pop" 6%nat ].

Definition order_pool : surgescript_programpool_t nat :=
  (run_ops surgescript_programpool_create order_ops).1.

(** The calls that make [scenario_pool3]. *)
Definition purge_ops : list (@pool_op nat) :=
  [ OpPut "Object" "toString" 1%nat;
    OpPut "Array" "toString" 2%nat;
    OpPut "Array" "push" 3%nat ].

(** [push] is deleted and put again. *)
Definition reorder_ops : list (@pool_op nat) :=
  [ OpPut "Array" "push" 1%nat;
    OpPut "Array" "pop" 2%nat;
    OpDelete "Array" "push";
    OpPut "Array" "push" 3%nat ].

Definition reorder_pool : surgescript_programpool_t nat :=
  (run_ops surgescript_programpool_create reorder_ops).1.

(** The class is purged and its names are put again, the other way round. *)
Definition reinsert_ops : list (@pool_op nat) :=
  [ OpPut "Array" "push" 1%nat;
    OpPut "Array" "pop" 2%nat;
    OpPurge "Array";
    OpPut "Array" "pop" 3%nat;
    OpPut "Array" "push" 4%nat ].

(** A machine whose root (handle 1) was killed: the first update removes
    it, and the machine is inactive from then on. *)
Definition killed_vm : surgescript_vm_t unit nat SimpleManager.objectmanager :=
  {| vm_stack := tt;
     vm_program_pool := surgescript_programpool_create;
     vm_object_manager := {| SimpleManager.live := [1; 2; 3];
                             SimpleManager.killed := [1; 2; 3] |} |}.

Definition stopped_vm : surgescript_vm_t unit nat SimpleManager.objectmanager :=
  (surgescript_vm_update killed_vm).1.1.

Definition sample_memory : gmap positive (list surgescript_var_t) :=
  {[ 5%positive := [VarNull; VarNumber 3] ]}.

Definition sample_env : surgescript_renv_t :=
  {| owner := 1; stack := 2; heap := 3; program_pool := 4; object_pool := 6;
     tmp := 5 |}.

Definition sample_clone : gmap positive (list surgescript_var_t) * surgescript_renv_t :=
  surgescript_renv_clone sample_memory [VarNull; VarNull] sample_env.

(** A machine with an empty pool, and the one the registration of the Array
    methods makes of it. *)
Definition fresh_vm
    : surgescript_vm_t unit (Z * array_cfunction) SimpleManager.objectmanager :=
  {| vm_stack := tt;
     vm_program_pool := surgescript_programpool_create;
     vm_object_manager := {| SimpleManager.live := [1];
                             SimpleManager.killed := [] |} |}.

Definition array_vm
    : surgescript_vm_t unit (Z * array_cfunction) SimpleManager.objectmanager :=
  (surgescript_sslib_register_array fresh_vm).1.

(** * Properties *)

(** ** The hash instance agrees with the published self-test of lookup3.c *)

Example lookup3_empty_key :
  Lookup3.hashlittle2 "" (0, 0) = (3735928559, 3735928559).
Proof. vm_compute. reflexivity. Qed.

Example lookup3_four_score :
  Lookup3.hashlittle2 "Four score and seven years ago" (0, 0)
  = (393676113, 3463587558).
Proof. vm_compute. reflexivity. Qed.

(** ** The program pool *)

Section ProgramPoolProperties.

Context {program : Type}.
Context {hashlittle2_impl : hashlittle2_t}.

Implicit Types pool : surgescript_programpool_t program.
Implicit Types c n object_name program_name : string.
Implicit Types p q prog : program.

Lemma shallowcheck_true pool c n :
  surgescript_programpool_shallowcheck pool c n = true
  <-> is_Some (hash pool !! generate_signature c n).
Proof.
  unfold surgescript_programpool_shallowcheck, find_item_by_signature.
  destruct (hash pool !! generate_signature c n) as [p|]; split;
    first [ done | by eauto | by intros [? ?] ].
Qed.

Lemma shallowcheck_false pool c n :
  surgescript_programpool_shallowcheck pool c n = false
  <-> hash pool !! generate_signature c n = None.
Proof.
  unfold surgescript_programpool_shallowcheck, find_item_by_signature.
  by destruct (hash pool !! generate_signature c n).
Qed.

Lemma insert_metadata_hash pool c n :
  hash (insert_metadata pool c n) = hash pool.
Proof. unfold insert_metadata. by destruct (meta pool !! c). Qed.

Lemma insert_metadata_names pool c n c' :
  program_names (insert_metadata pool c n) c'
  = if decide (c' = c) then program_names pool c ++ [n]
    else program_names pool c'.
Proof.
  unfold insert_metadata, program_names.
  destruct (meta pool !! c) as [m|] eqn:Hm; simpl;
    case_decide as Hc; subst;
    rewrite ?lookup_insert_eq, ?Hm; try done;
    by rewrite lookup_insert_ne.
Qed.

Lemma remove_metadata_hash pool c n :
  hash (remove_metadata pool c n) = hash pool.
Proof.
  unfold remove_metadata. destruct (meta pool !! c); [|done].
  by destruct (find_program_name _ _ _).
Qed.

Lemma remove_object_metadata_hash pool c :
  hash (remove_object_metadata pool c) = hash pool.
Proof. unfold remove_object_metadata. by destruct (meta pool !! c). Qed.

Lemma remove_object_metadata_lookup pool c :
  meta (remove_object_metadata pool c) !! c = None.
Proof.
  unfold remove_object_metadata.
  destruct (meta pool !! c) eqn:Hm; simpl; [apply lookup_delete_eq | done].
Qed.

(** What a call of [put] that returns has done. *)
Lemma put_returned pool c n p pool' b :
  surgescript_programpool_put pool c n p = (pool', Returned b) ->
  hash pool !! generate_signature c n = None
  /\ b = true
  /\ hash pool' = <[generate_signature c n := p]> (hash pool)
  /\ forall c', program_names pool' c'
       = if decide (c' = c) then program_names pool c ++ [n]
         else program_names pool c'.
Proof.
  unfold surgescript_programpool_put.
  destruct (surgescript_programpool_shallowcheck pool c n) eqn:Hs; simpl; [done|].
  intros [= <- <-]. apply shallowcheck_false in Hs.
  repeat split; [done | by rewrite insert_metadata_hash |].
  intros c'. by rewrite insert_metadata_names.
Qed.

(** [put] returns exactly when the signature is free. *)
Lemma put_free pool c n p :
  hash pool !! generate_signature c n = None ->
  exists pool', surgescript_programpool_put pool c n p = (pool', Returned true).
Proof.
  intros Hs%shallowcheck_false. unfold surgescript_programpool_put.
  rewrite Hs. simpl. eauto.
Qed.

Lemma get_unfold pool c n :
  surgescript_programpool_get pool c n
  = match hash pool !! generate_signature c n with
    | Some p => Some p
    | None => hash pool !! generate_signature "Object" n
    end.
Proof.
  unfold surgescript_programpool_get, find_item_by_signature.
  destruct (hash pool !! generate_signature c n); [done|].
  by destruct (hash pool !! generate_signature "Object" n).
Qed.

Lemma delete_hash pool c n :
  hash (surgescript_programpool_delete pool c n)
  = delete (generate_signature c n) (hash pool).
Proof.
  unfold surgescript_programpool_delete, find_item_by_signature.
  rewrite remove_metadata_hash.
  destruct (hash pool !! generate_signature c n) eqn:Hs; simpl; [done|].
  symmetry. by apply delete_id.
Qed.

(** C2.  After [put(c, n, p)] has succeeded, [get(c, n)] returns [p] and
    [exists(c, n)] returns true. *)
Theorem put_get_roundtrip pool c n p pool' b :
  surgescript_programpool_put pool c n p = (pool', Returned b) ->
  surgescript_programpool_get pool' c n = Some p
  /\ surgescript_programpool_exists pool' c n = true.
Proof.
  intros (_ & _ & Hh & _)%put_returned.
  assert (surgescript_programpool_get pool' c n = Some p) as Hget.
  { by rewrite get_unfold, Hh, lookup_insert_eq. }
  split; [done|].
  unfold surgescript_programpool_exists. by rewrite Hget.
Qed.

Lemma replace_unfold pool c n q :
  surgescript_programpool_replace pool c n q
  = match hash pool !! generate_signature c n with
    | Some _ =>
        ({| hash := <[generate_signature c n := q]> (hash pool);
            meta := meta pool |}, Returned true)
    | None => surgescript_programpool_put pool c n q
    end.
Proof. reflexivity. Qed.

(** C3.  When (c, n) is already registered exactly, a second [put(c, n, p')]
    is fatal ("duplicate function") and leaves the pool as it was, while
    [replace(c, n, p')] returns and [get(c, n)] then gives [p']. *)
Theorem duplicate_put_fatal_replace_not pool c n p' :
  surgescript_programpool_shallowcheck pool c n = true ->
  surgescript_programpool_put pool c n p'
    = (pool, Fatal (DuplicateFunction n c))
  /\ exists pool',
       surgescript_programpool_replace pool c n p' = (pool', Returned true)
       /\ surgescript_programpool_get pool' c n = Some p'
       /\ meta pool' = meta pool.
Proof.
  intros Hs. split.
  - unfold surgescript_programpool_put. by rewrite Hs.
  - apply shallowcheck_true in Hs as [old Hold].
    rewrite replace_unfold, Hold.
    eexists; split; [reflexivity|]. split; [|done].
    by rewrite get_unfold; simpl; rewrite lookup_insert_eq.
Qed.

(** *** purge *)

Lemma delete_program_hash pool c n :
  hash (delete_program c n pool) = delete (generate_signature c n) (hash pool).
Proof.
  unfold delete_program, find_item_by_signature.
  destruct (hash pool !! generate_signature c n) eqn:Hs; simpl; [done|].
  symmetry. by apply delete_id.
Qed.

Lemma delete_program_meta pool c n :
  meta (delete_program c n pool) = meta pool.
Proof.
  unfold delete_program. by destruct (find_item_by_signature _ _).
Qed.

(** The traversal of [purge]: every signature of a listed name is removed
    from the registry, nothing else is, and the class index is not touched. *)
Lemma delete_programs_spec c names : forall pool,
  let pool' := foldl (fun s program_name => delete_program c program_name s)
                 pool names in
  meta pool' = meta pool
  /\ forall k, hash pool' !! k
       = if decide (k ∈ generate_signature c <$> names) then None
         else hash pool !! k.
Proof.
  induction names as [|x names IH]; intros pool; cbn [foldl].
  - split; [done|]. intros k.
    destruct (decide (k ∈ generate_signature c <$> [])) as [Hk|]; [|done].
    by inversion Hk.
  - destruct (IH (delete_program c x pool)) as [Hm Hh].
    split; [by rewrite Hm, delete_program_meta|].
    intros k. rewrite Hh, delete_program_hash, fmap_cons.
    destruct (decide (k = generate_signature c x)) as [->|Hne].
    + rewrite lookup_delete_eq.
      rewrite (decide_True (P := _ ∈ _ :: _)) by apply list_elem_of_here.
      by case_decide.
    + rewrite lookup_delete_ne by done.
      case_decide as Hk.
      * by rewrite decide_True by by apply list_elem_of_further.
      * rewrite decide_False; [done|].
        by intros [?|?]%elem_of_cons.
Qed.

Lemma purge_lookup pool c k :
  hash (surgescript_programpool_purge pool c) !! k
  = if decide (k ∈ generate_signature c <$> program_names pool c) then None
    else hash pool !! k.
Proof.
  unfold surgescript_programpool_purge, surgescript_programpool_foreach_ex,
    traverse_metadata, program_names.
  rewrite remove_object_metadata_hash.
  destruct (meta pool !! c) as [m|]; cbn [default].
  - apply delete_programs_spec.
  - destruct (decide (k ∈ generate_signature c <$> [])) as [Hk|]; [|done].
    by inversion Hk.
Qed.

Lemma purge_meta_lookup pool c :
  meta (surgescript_programpool_purge pool c) !! c = None.
Proof. apply remove_object_metadata_lookup. Qed.

(** *** enumeration *)

Lemma foldl_snoc_log (names : list string) : forall log : list string,
  foldl (fun visited program_name => visited ++ [program_name]) log names
  = log ++ names.
Proof.
  induction names as [|x names IH]; intros log; simpl.
  - by rewrite app_nil_r.
  - by rewrite IH, <- app_assoc.
Qed.

(** [foreach] hands the callback the names of the class index, first to
    last. *)
Lemma foreach_program_names {State : Type} pool c (callback : string -> State -> State) s :
  surgescript_programpool_foreach pool c callback s
  = foldl (fun s program_name => callback program_name s) s
      (program_names pool c).
Proof.
  unfold surgescript_programpool_foreach, traverse_metadata, program_names.
  by destruct (meta pool !! c).
Qed.

Lemma visited_program_names pool c :
  visited_names pool c = program_names pool c.
Proof.
  unfold visited_names. rewrite foreach_program_names.
  apply (foldl_snoc_log _ []).
Qed.

(** A successful [put] appends the name to the sequence of its class. *)
Lemma put_visited pool c n p pool' b c' :
  surgescript_programpool_put pool c n p = (pool', Returned b) ->
  visited_names pool' c'
  = if decide (c' = c) then visited_names pool c ++ [n]
    else visited_names pool c'.
Proof.
  intros (_ & _ & _ & Hn)%put_returned. by rewrite !visited_program_names.
Qed.

(** [replace] on a name that is registered leaves every sequence as it is. *)
Lemma replace_registered_visited pool c n q c' :
  surgescript_programpool_shallowcheck pool c n = true ->
  visited_names (surgescript_programpool_replace pool c n q).1 c'
  = visited_names pool c'.
Proof.
  intros [old Hold]%shallowcheck_true. by rewrite replace_unfold, Hold.
Qed.

Lemma signatures_distinct_inj keys c n c' n' :
  signatures_distinct keys -> (c, n) ∈ keys -> (c', n') ∈ keys ->
  generate_signature c n = generate_signature c' n' -> (c, n) = (c', n').
Proof.
  intros Hd H1 H2 Heq. unfold signatures_distinct in Hd.
  rewrite Forall_forall in Hd. specialize (Hd _ H1).
  rewrite Forall_forall in Hd. by apply (Hd _ H2).
Qed.

(** *** further properties of the pool *)

(** X1.  [replace] never stops the process: on every pool it returns true,
    and [get] then gives the program it was handed. *)
Theorem replace_never_fatal pool c n q :
  exists pool',
    surgescript_programpool_replace pool c n q = (pool', Returned true)
    /\ surgescript_programpool_get pool' c n = Some q
    /\ surgescript_programpool_shallowcheck pool' c n = true.
Proof.
  rewrite replace_unfold.
  destruct (hash pool !! generate_signature c n) as [old|] eqn:Hs.
  - eexists; split; [reflexivity|]. split.
    + by rewrite get_unfold; simpl; rewrite lookup_insert_eq.
    + apply shallowcheck_true; simpl. rewrite lookup_insert_eq. eauto.
  - destruct (put_free pool c n q Hs) as [pool' Hput].
    exists pool'. split; [done|].
    apply put_returned in Hput as (_ & _ & Hh & _). split.
    + by rewrite get_unfold, Hh, lookup_insert_eq.
    + apply shallowcheck_true. rewrite Hh, lookup_insert_eq. eauto.
Qed.

(** X2.  Fallback: after [put("Object", n, P)], for a class [c] with no entry
    of its own for [n], [get(c, n)] is [P], [shallow_exists(c, n)] is false
    and [exists(c, n)] is true. *)
Theorem object_fallback pool n P pool' b c :
  surgescript_programpool_put pool "Object" n P = (pool', Returned b) ->
  surgescript_programpool_shallowcheck pool' c n = false ->
  surgescript_programpool_get pool' c n = Some P
  /\ surgescript_programpool_exists pool' c n = true.
Proof.
  intros (_ & _ & Hh & _)%put_returned Hs%shallowcheck_false.
  assert (surgescript_programpool_get pool' c n = Some P) as Hget.
  { by rewrite get_unfold, Hs, Hh, lookup_insert_eq. }
  split; [done|]. unfold surgescript_programpool_exists. by rewrite Hget.
Qed.

Lemma find_program_name_None names n i0 :
  n ∉ names -> find_program_name names n i0 = None.
Proof.
  revert i0. induction names as [|x names IH]; intros i0 Hn; simpl; [done|].
  apply not_elem_of_cons in Hn as [Hx Hrest].
  rewrite decide_False by done. by apply IH.
Qed.

(** X3.  [delete(c, n)] removes the entry under the signature of (c, n) and
    no other entry; when there is no such entry and the class index does not
    list [n] it changes nothing. *)
Theorem delete_exact_entry pool c n :
  surgescript_programpool_shallowcheck
    (surgescript_programpool_delete pool c n) c n = false
  /\ (forall k, k <> generate_signature c n ->
        find_item_by_signature (surgescript_programpool_delete pool c n) k
        = find_item_by_signature pool k)
  /\ (surgescript_programpool_shallowcheck pool c n = false ->
      n ∉ program_names pool c ->
      surgescript_programpool_delete pool c n = pool).
Proof.
  split; [|split].
  - apply shallowcheck_false. by rewrite delete_hash, lookup_delete_eq.
  - intros k Hk. unfold find_item_by_signature.
    by rewrite delete_hash, lookup_delete_ne.
  - intros Hs%shallowcheck_false Hn.
    unfold surgescript_programpool_delete, find_item_by_signature.
    rewrite Hs. unfold remove_metadata. unfold program_names in Hn.
    destruct (meta pool !! c) as [m|]; [|done]. simpl in Hn.
    by rewrite find_program_name_None.
Qed.

(** X4.  After a [put(c, n, p)] that succeeds, [is_compiled(c)] is true. *)
Theorem put_is_compiled pool c n p pool' b :
  surgescript_programpool_put pool c n p = (pool', Returned b) ->
  surgescript_programpool_is_compiled pool' c = true.
Proof.
  intros (_ & _ & _ & Hn)%put_returned. specialize (Hn c).
  rewrite decide_True in Hn by done.
  unfold surgescript_programpool_is_compiled. unfold program_names in Hn.
  destruct (meta pool' !! c) as [m|]; simpl in Hn.
  - apply bool_decide_eq_true. rewrite Hn, length_app. simpl. lia.
  - by destruct (default [] (meta pool !! c)).
Qed.

End ProgramPoolProperties.

(** ** Signatures *)

(** Among [n + 1] numbers below [n], two are equal. *)
Lemma pigeonhole_Z (n : Z) :
  0 <= n -> forall f : Z -> Z,
  (forall i, 0 <= i <= n -> 0 <= f i < n) ->
  exists i j, 0 <= i < j /\ j <= n /\ f i = f j.
Proof.
  intros Hn. pattern n. apply natlike_ind; [| |exact Hn]; clear n Hn.
  - intros f Hf. specialize (Hf 0). lia.
  - intros n Hn IH f Hf.
    destruct (Z.eq_dec n 0) as [->|Hpos].
    { exists 0, 1. pose proof (Hf 0). pose proof (Hf 1).
      change (Z.succ 0) with 1 in *. lia. }
    set (v := f (Z.succ n)).
    set (g := fun i => if f i =? v then 0
                       else if f i <? v then f i else f i - 1).
    destruct (IH g) as (i & j & Hij & Hjn & Hg).
    { intros i Hi. unfold g. pose proof (Hf i). pose proof (Hf (Z.succ n)).
      fold v in H0.
      destruct (Z.eqb_spec (f i) v); [lia|].
      destruct (Z.ltb_spec (f i) v); lia. }
    unfold g in Hg.
    destruct (Z.eqb_spec (f i) v) as [Hi|Hi].
    { exists i, (Z.succ n). repeat split; [lia..|done]. }
    destruct (Z.eqb_spec (f j) v) as [Hj|Hj].
    { exists j, (Z.succ n). repeat split; [lia..|done]. }
    exists i, j. repeat split; [lia..|].
    destruct (Z.ltb_spec (f i) v), (Z.ltb_spec (f j) v); lia.
Qed.

Lemma name_of_positive_inj p q :
  name_of_positive p = name_of_positive q -> p = q.
Proof.
  revert q. induction p as [p IH|p IH|]; intros [q|q|]; simpl; try done.
  - intros [= H]. by rewrite (IH q H).
  - intros [= H]. by rewrite (IH q H).
Qed.

Lemma name_of_inj i j : 0 <= i -> 0 <= j -> name_of i = name_of j -> i = j.
Proof.
  unfold name_of. intros Hi Hj H%name_of_positive_inj. lia.
Qed.

Lemma name_of_positive_length p :
  Z.of_nat (String.length (name_of_positive p)) = Z.log2 (Z.pos p).
Proof.
  induction p as [p IH|p IH|]; simpl String.length; [| |done].
  - rewrite Nat2Z.inj_succ, IH, Pos2Z.inj_xI.
    by rewrite Z.log2_succ_double.
  - rewrite Nat2Z.inj_succ, IH, Pos2Z.inj_xO.
    by rewrite Z.log2_double.
Qed.

Lemma name_of_length i :
  0 <= i <= 2 ^ 128 -> (String.length (name_of i) <= 128)%nat.
Proof.
  intros Hi. apply Nat2Z.inj_le. unfold name_of.
  rewrite name_of_positive_length, Z2Pos.id by lia.
  change (Z.of_nat 128) with (Z.log2 (2 ^ 128 + 1)).
  apply Z.log2_le_mono. lia.
Qed.

Lemma uint32_range z : 0 <= uint32 z < 2 ^ 32.
Proof. unfold uint32. apply Z.mod_pos_bound. lia. Qed.

(** The two halves of a 64-bit word. *)
Lemma lor_shiftl_32 x y :
  0 <= x < 2 ^ 32 -> 0 <= y ->
  Z.lor x (Z.shiftl y 32) = x + 2 ^ 32 * y.
Proof.
  intros Hx Hy.
  assert (Z.land x (Z.shiftl y 32) = 0) as Hland.
  { apply Z.bits_inj'. intros k Hk.
    rewrite Z.land_spec, Z.bits_0.
    destruct (Z.lt_ge_cases k 32) as [Hlt|Hge].
    - by rewrite Z.shiftl_spec_low, andb_false_r.
    - destruct (Z.eq_dec x 0) as [->|Hx0]; [by rewrite Z.bits_0|].
      rewrite (Z.bits_above_log2 x k); [done|lia|].
      apply Z.lt_le_trans with 32; [|done].
      apply Z.log2_lt_pow2; lia. }
  rewrite <- Z.lxor_lor by done.
  rewrite <- Z.add_nocarry_lxor by done.
  rewrite Z.shiftl_mul_pow2 by lia. lia.
Qed.

Section SignatureProperties.

Context {hashlittle2_impl : hashlittle2_t}.

Lemma hash_state_range key seeds :
  0 <= (hash_state key seeds).1 < 2 ^ 32
  /\ 0 <= (hash_state key seeds).2 < 2 ^ 32.
Proof.
  unfold hash_state. destruct (hashlittle2 key seeds) as [pc pb]; simpl.
  split; apply uint32_range.
Qed.

(** The signature is the second chained hash state, [pc] in the low half
    and [pb] in the high half. *)
Lemma generate_signature_chained a b :
  generate_signature a b
  = (hash_state b (hash_state a (0, 0))).1
    + 2 ^ 32 * (hash_state b (hash_state a (0, 0))).2.
Proof.
  unfold generate_signature, hash_state.
  destruct (hashlittle2 a (0, 0)) as [pc1 pb1].
  destruct (hashlittle2 b (uint32 pc1, uint32 pb1)) as [pc2 pb2]; simpl.
  pose proof (uint32_range pc2). pose proof (uint32_range pb2).
  unfold uint64. rewrite !Z.mod_small by lia.
  apply lor_shiftl_32; lia.
Qed.

Lemma twice_hashed_range key : 0 <= twice_hashed key < 2 ^ 128.
Proof.
  unfold twice_hashed.
  destruct (hash_state_range key (0, 0)) as [? ?].
  destruct (hash_state_range key (hash_state key (0, 0))) as [? ?].
  lia.
Qed.

Lemma twice_hashed_eq a b :
  twice_hashed a = twice_hashed b ->
  hash_state a (0, 0) = hash_state b (0, 0)
  /\ hash_state a (hash_state a (0, 0)) = hash_state b (hash_state b (0, 0)).
Proof.
  unfold twice_hashed.
  destruct (hash_state_range a (0, 0)) as [? ?].
  destruct (hash_state_range a (hash_state a (0, 0))) as [? ?].
  destruct (hash_state_range b (0, 0)) as [? ?].
  destruct (hash_state_range b (hash_state b (0, 0))) as [? ?].
  destruct (hash_state a (0, 0)) as [a1 a2], (hash_state b (0, 0)) as [b1 b2].
  destruct (hash_state a (a1, a2)) as [a3 a4], (hash_state b (b1, b2)) as [b3 b4].
  simpl in *. intros Heq.
  assert (a1 = b1 /\ a2 = b2 /\ a3 = b3 /\ a4 = b4) as (-> & -> & -> & ->) by lia.
  done.
Qed.

(** Whatever [hashlittle2] is, two different names of at most 128 letters
    have the same signature in both orders. *)
Lemma swapped_signatures_collide :
  exists a b : string,
    a <> b
    /\ (String.length a <= 128)%nat /\ (String.length b <= 128)%nat
    /\ generate_signature a b = generate_signature b a.
Proof.
  destruct (pigeonhole_Z (2 ^ 128) ltac:(lia)
              (fun i => twice_hashed (name_of i)))
    as (i & j & Hij & Hjn & Heq).
  { intros i _. apply twice_hashed_range. }
  apply twice_hashed_eq in Heq as [H1 H2].
  exists (name_of i), (name_of j).
  split; [intros Hn%name_of_inj; lia|].
  split; [apply name_of_length; lia|].
  split; [apply name_of_length; lia|].
  rewrite !generate_signature_chained.
  rewrite H1 in H2 |- *. by rewrite H2.
Qed.

(** C6.  The signature is a function of the pair (equal pairs give the same
    signature), a 64-bit number holding the two chained 32-bit hash values;
    the signatures of (a, b) and of (b, a) differ exactly when hashing [b]
    after [a] and hashing [a] after [b] leave different hash values. *)
Theorem signature_deterministic_chained a b a' b' :
  (a = a' -> b = b' -> generate_signature a b = generate_signature a' b')
  /\ 0 <= generate_signature a b < 2 ^ 64
  /\ (generate_signature a b <> generate_signature b a
      <-> hash_state b (hash_state a (0, 0))
          <> hash_state a (hash_state b (0, 0))).
Proof.
  split; [by intros -> ->|].
  rewrite !generate_signature_chained.
  destruct (hash_state_range b (hash_state a (0, 0))) as [? ?].
  destruct (hash_state_range a (hash_state b (0, 0))) as [? ?].
  destruct (hash_state b (hash_state a (0, 0))) as [x1 x2].
  destruct (hash_state a (hash_state b (0, 0))) as [y1 y2].
  simpl in *. split; [lia|].
  split.
  - intros Hne [= -> ->]. done.
  - intros Hne Heq. apply Hne.
    assert (x1 = y1 /\ x2 = y2) as [-> ->] by lia. done.
Qed.

End SignatureProperties.

(** C6, as it was stated: no hash function makes the signatures of (a, b) and
    (b, a) differ for all different names [a] and [b]. *)
Lemma swapped_signatures_alias :
  ~ exists h : hashlittle2_t,
      forall a b : string,
        a <> b -> @generate_signature h a b <> @generate_signature h b a.
Proof.
  intros [h Hsep].
  destruct (@swapped_signatures_collide h) as (a & b & Hne & _ & _ & Heq).
  by apply (Hsep a b).
Qed.

(** ** The virtual machine *)

Section VirtualMachineProperties.

Context {stack_t program objectmanager_t object_t : Type}.
Context {om : objectmanager_interface stack_t program objectmanager_t object_t}.

Implicit Types vm : surgescript_vm_t stack_t program objectmanager_t.

Lemma update_inactive_step vm :
  surgescript_vm_is_active vm = false ->
  surgescript_vm_update vm = (vm, false, []).
Proof. intros Hoff. unfold surgescript_vm_update. by rewrite Hoff. Qed.

(** X5.  A call of [update] that returns false leaves an inactive machine
    (so every later call returns false and visits nothing). *)
Theorem update_false_inactive vm vm1 visited :
  surgescript_vm_update vm = (vm1, false, visited) ->
  surgescript_vm_is_active vm1 = false.
Proof.
  unfold surgescript_vm_update.
  destruct (surgescript_vm_is_active vm) eqn:Hon.
  - destruct (surgescript_object_traverse_tree vm (surgescript_vm_root_object vm))
      as [vm2 log]. by intros [= <- -> _].
  - by intros [= <- _].
Qed.

(** C7.  When the root object no longer exists in the object manager,
    [update] returns false at once, visits no object and leaves the machine
    as it is; so does every later call of [update]. *)
Theorem update_inactive vm :
  surgescript_vm_is_active vm = false ->
  surgescript_vm_update vm = (vm, false, [])
  /\ forall k : nat,
       vm_updates k vm = (vm, replicate k (false, []))
       /\ surgescript_vm_is_active (vm_updates k vm).1 = false.
Proof.
  intros Hoff. split; [by apply update_inactive_step|].
  assert (forall k : nat, vm_updates k vm = (vm, replicate k (false, [])))
    as Hlog.
  { induction k as [|k IH]; [done|].
    cbn [vm_updates]. by rewrite (update_inactive_step vm Hoff), IH. }
  intros k. split; [apply Hlog|]. by rewrite Hlog.
Qed.

End VirtualMachineProperties.

(** ** The runtime environment *)

Lemma clone_fresh_tmp (mem : tmp_memory) scratch env :
  mem !! tmp (surgescript_renv_clone mem scratch env).2 = None.
Proof.
  simpl. apply not_elem_of_dom. apply is_fresh.
Qed.

(** C8.  The clone of an environment has the same owner, stack, heap,
    program pool and object pool, and temporaries of its own: the array is at
    an address that was not allocated, the arrays that were there are as
    they were, and writing a slot of the clone does not change what is read
    through the original environment, which the clone operation leaves as it
    is. *)
Theorem clone_shares_all_but_temporaries (mem : tmp_memory)
    (scratch : list surgescript_var_t) (env : surgescript_renv_t)
    mem' env' :
  is_Some (mem !! surgescript_renv_tmp env) ->
  surgescript_renv_clone mem scratch env = (mem', env') ->
  (surgescript_renv_owner env' = surgescript_renv_owner env
   /\ surgescript_renv_stack env' = surgescript_renv_stack env
   /\ surgescript_renv_heap env' = surgescript_renv_heap env
   /\ surgescript_renv_programpool env' = surgescript_renv_programpool env
   /\ surgescript_renv_objectpool env' = surgescript_renv_objectpool env)
  /\ surgescript_renv_tmp env' <> surgescript_renv_tmp env
  /\ mem !! surgescript_renv_tmp env' = None
  /\ mem' !! surgescript_renv_tmp env' = Some scratch
  /\ (forall a, a <> surgescript_renv_tmp env' -> mem' !! a = mem !! a)
  /\ forall (i : nat) (v : surgescript_var_t),
       (forall j, tmp_read (tmp_write mem' env' i v) env j = tmp_read mem env j)
       /\ ((i < length scratch)%nat ->
           tmp_read (tmp_write mem' env' i v) env' i = Some v).
Proof.
  intros [slots Hslots] Hclone.
  pose proof (clone_fresh_tmp mem scratch env) as Hfresh.
  rewrite Hclone in Hfresh. simpl in Hfresh.
  unfold surgescript_renv_clone in Hclone. injection Hclone as <- <-.
  unfold surgescript_renv_tmp in *. simpl in *.
  assert (fresh (dom mem) <> tmp env) as Hne.
  { intros Heq. rewrite Heq, Hslots in Hfresh. done. }
  split; [done|]. split; [done|]. split; [done|].
  split; [apply lookup_insert_eq|].
  split; [intros a Ha; by apply lookup_insert_ne|].
  intros i v. unfold tmp_read, tmp_write, surgescript_renv_tmp. simpl. split.
  - intros j. rewrite lookup_alter_ne by done.
    by rewrite lookup_insert_ne by done.
  - intros Hi. rewrite lookup_alter_eq, lookup_insert_eq. simpl.
    by apply list_lookup_insert_eq.
Qed.

(** ** The Array built-in *)

Lemma uint32_small z : 0 <= z < 2 ^ 32 -> uint32 z = z.
Proof. intros Hz. unfold uint32. by apply Z.mod_small. Qed.

Lemma int_wrap_small z : - 2 ^ 31 <= z <= INT_MAX -> int_wrap z = z.
Proof.
  unfold INT_MAX, int_wrap. intros Hz. rewrite Z.mod_small by lia. lia.
Qed.

Lemma insert_cons_S {A : Type} (a : A) (l : list A) (j : nat) (x : A) :
  <[S j := x]> (a :: l) = a :: <[j := x]> l.
Proof. reflexivity. Qed.

Lemma lookup_cons_S {A : Type} (a : A) (l : list A) (j : nat) :
  (a :: l) !! S j = l !! j.
Proof. reflexivity. Qed.

Section ArrayHeap.

Implicit Types es : list surgescript_var_t.
Implicit Types n : Z.
Implicit Types k j : nat.

Lemma heap_at_length_cell n es k :
  surgescript_heap_at (array_cells n es k) LENGTH_ADDR = Some (VarNumber n).
Proof. reflexivity. Qed.

Lemma heap_at_element n es k j :
  surgescript_heap_at (array_cells n es k) (Z.of_nat (S j))
  = if decide (j < length es)%nat then es !! j else None.
Proof.
  unfold surgescript_heap_at, array_cells.
  assert ((0 <=? Z.of_nat (S j)) = true) as -> by (apply Z.leb_le; lia).
  rewrite Nat2Z.id, lookup_cons_S.
  case_decide as Hj.
  - rewrite lookup_app_l by by rewrite length_fmap.
    rewrite list_lookup_fmap. by destruct (es !! j).
  - rewrite lookup_app_r by (rewrite length_fmap; lia).
    destruct (replicate k None !! (j - length (Some <$> es))%nat)
      as [cell|] eqn:Hcell; [|done].
    by apply lookup_replicate in Hcell as [-> _].
Qed.

Lemma first_free_cell_elements es k i0 :
  first_free_cell ((Some <$> es) ++ replicate k None) i0
  = (i0 + length es)%nat.
Proof.
  revert i0. induction es as [|x es IH]; intros i0; simpl.
  - destruct k; simpl; lia.
  - rewrite IH. lia.
Qed.

Lemma malloc_array_cells n es k :
  surgescript_heap_malloc (array_cells n es k)
  = (array_cells n (es ++ [VarNull]) (pred k), Z.of_nat (S (length es))).
Proof.
  unfold surgescript_heap_malloc, array_cells.
  cbn [first_free_cell]. rewrite first_free_cell_elements.
  cbn [length]. rewrite length_app, length_fmap, length_replicate.
  rewrite fmap_app. cbn [fmap list_fmap].
  destruct k as [|k]; cbn [pred replicate].
  - rewrite decide_False by lia. rewrite !app_nil_r. done.
  - rewrite decide_True by lia.
    change (1 + length es)%nat with (S (length es)).
    rewrite insert_cons_S. f_equal. f_equal.
    rewrite insert_app_r_alt by (rewrite length_fmap; lia).
    rewrite length_fmap, Nat.sub_diag.
    by rewrite <- app_assoc.
Qed.

Lemma update_length_cell n es k m :
  heap_update LENGTH_ADDR (fun v => surgescript_var_set_number v m)
    (array_cells n es k)
  = (array_cells m es k, Returned tt).
Proof. reflexivity. Qed.

Lemma update_element n es k j v :
  (j < length es)%nat ->
  heap_update (Z.of_nat (S j)) (fun dst => surgescript_var_copy dst v)
    (array_cells n es k)
  = (array_cells n (<[j := v]> es) k, Returned tt).
Proof.
  intros Hj. unfold heap_update. rewrite heap_at_element, decide_True by done.
  destruct (lookup_lt_is_Some_2 es j Hj) as [old ->].
  rewrite Nat2Z.id. unfold array_cells. rewrite insert_cons_S.
  f_equal. f_equal.
  rewrite insert_app_l by by rewrite length_fmap.
  by rewrite list_fmap_insert.
Qed.

Lemma free_last_element n es x k :
  surgescript_heap_free (array_cells n (es ++ [x]) k)
    (Z.of_nat (S (length es)))
  = array_cells n es (S k).
Proof.
  unfold surgescript_heap_free, array_cells.
  assert ((0 <=? Z.of_nat (S (length es))) = true) as ->
    by (apply Z.leb_le; lia).
  rewrite Nat2Z.id, insert_cons_S. f_equal.
  rewrite fmap_app, <- app_assoc.
  rewrite insert_app_r_alt by (rewrite length_fmap; lia).
  by rewrite length_fmap, Nat.sub_diag.
Qed.

Lemma array_length_read n es k :
  ARRAY_LENGTH (array_cells n es k)
  = (array_cells n es k, Returned (int_wrap n)).
Proof. reflexivity. Qed.

End ArrayHeap.

Lemma heap_bind_returned {A B : Type} (m : heapM A) (k : A -> heapM B)
    heap heap1 a :
  m heap = (heap1, Returned a) -> heap_bind m k heap = k a heap1.
Proof. intros Hm. unfold heap_bind. by rewrite Hm. Qed.

Section ArrayProperties.

Implicit Types es : list surgescript_var_t.
Implicit Types free fuel d : nat.
Implicit Types v : surgescript_var_t.

Lemma heap_read_element n es free (j : nat) x :
  es !! j = Some x ->
  heap_read (Z.of_nat (S j)) (array_cells n es free)
  = (array_cells n es free, Returned x).
Proof.
  intros Hx. unfold heap_read. rewrite heap_at_element.
  rewrite decide_True by by eapply lookup_lt_Some.
  by rewrite Hx.
Qed.

(** The heaps of Array objects: the constructor makes the heap of the
    empty array, and [push] keeps the shape. *)
Lemma constructor_array_heap :
  fun_constructor [] = (array_heap [] 0, Returned tt).
Proof. reflexivity. Qed.

(** X6.  [push(v)] on an Array object of length [L < INT_MAX] allocates the
    next cell, stores [v] in it as the new last element and makes the length
    [L + 1]; the elements that were there are unchanged. *)
Theorem push_array_heap es free v :
  Z.of_nat (length es) < INT_MAX ->
  fun_push v (array_heap es free)
  = (array_heap (es ++ [v]) (pred free), Returned tt).
Proof.
  intros Hmax. unfold fun_push, array_heap, INT_MAX in *.
  rewrite (heap_bind_returned _ _ _ _ _ (array_length_read _ _ _)).
  unfold heap_bind at 1. unfold heap_malloc. rewrite malloc_array_cells.
  rewrite (heap_bind_returned _ _ _ _ _
             (update_element (Z.of_nat (length es)) (es ++ [VarNull])
                (pred free) (length es) v
                ltac:(rewrite length_app; cbn [length]; lia))).
  rewrite (heap_bind_returned _ _ _ _ _ (update_length_cell _ _ _ _)).
  rewrite (int_wrap_small (Z.of_nat (length es))) by (unfold INT_MAX; lia).
  rewrite (int_wrap_small (Z.of_nat (length es) + 1))
    by (unfold INT_MAX; lia).
  assert ((Z.of_nat (S (length es))
           =? uint32 (BASE_ADDR + (Z.of_nat (length es) + 1 - 1))) = true)
    as ->.
  { unfold BASE_ADDR. rewrite uint32_small by lia. apply Z.eqb_eq. lia. }
  unfold ssassert, heap_ret.
  replace (length es) with (length es + 0)%nat at 2 by lia.
  rewrite insert_app_r. cbn [insert list_insert].
  rewrite length_app. cbn [length].
  by replace (Z.of_nat (length es + 1)) with (Z.of_nat (length es) + 1) by lia.
Qed.

(** C9.  [pop] on an Array object of length [L]: when [L > 0] it returns a
    clone of the element at index [L - 1], stores [L - 1] as the length and
    frees the cell of that element (the other elements stay); when [L] is
    [0] it returns nothing and leaves the heap as it is. *)
Theorem pop_last_element es free :
  Z.of_nat (length es) <= INT_MAX ->
  ((0 < length es)%nat ->
     exists es' x,
       es = es' ++ [x]
       /\ es !! (length es - 1)%nat = Some x
       /\ fun_pop (array_heap es free)
          = (array_heap es' (S free), Returned (Some (surgescript_var_clone x)))
       /\ surgescript_heap_at (array_heap es' (S free)) LENGTH_ADDR
          = Some (VarNumber (Z.of_nat (length es) - 1))
       /\ surgescript_heap_at (array_heap es' (S free))
            (BASE_ADDR + (Z.of_nat (length es) - 1)) = None)
  /\ (length es = 0%nat ->
      fun_pop (array_heap es free) = (array_heap es free, Returned None)).
Proof.
  intros Hmax. split.
  - intros Hpos.
    destruct (exists_last (l := es)) as (es' & x & ->).
    { intros ->. simpl in Hpos. lia. }
    rewrite length_app in *. cbn [length] in *.
    assert (Z.of_nat (length es' + 1) - 1 = Z.of_nat (length es')) as Hlen
      by lia.
    exists es', x. split; [done|]. split.
    { replace (length es' + 1 - 1)%nat with (length es') by lia.
      by apply list_lookup_middle. }
    split; [|split].
    + unfold fun_pop, array_heap.
      rewrite (heap_bind_returned _ _ _ _ _ (array_length_read _ _ _)).
      rewrite length_app. cbn [length].
      unfold INT_MAX in Hmax.
      rewrite int_wrap_small by (unfold INT_MAX; lia).
      assert ((0 <? Z.of_nat (length es' + 1)) = true) as ->
        by (apply Z.ltb_lt; lia).
      assert (uint32 (BASE_ADDR + (Z.of_nat (length es' + 1) - 1))
              = Z.of_nat (S (length es'))) as ->.
      { unfold BASE_ADDR. rewrite uint32_small by lia. lia. }
      rewrite (heap_bind_returned _ _ _ _ _
                 (heap_read_element _ _ _ (length es') x
                    (list_lookup_middle _ _ _ _ eq_refl))).
      rewrite (heap_bind_returned _ _ _ _ _ (update_length_cell _ _ _ _)).
      unfold heap_bind, heap_free. rewrite free_last_element.
      rewrite int_wrap_small by (unfold INT_MAX; lia).
      by rewrite Hlen.
    + unfold array_heap. by rewrite heap_at_length_cell, Hlen.
    + unfold array_heap, BASE_ADDR.
      replace (1 + (Z.of_nat (length es' + 1) - 1))
        with (Z.of_nat (S (length es'))) by lia.
      rewrite heap_at_element. by rewrite decide_False by lia.
  - intros Hnil. apply nil_length_inv in Hnil as ->. reflexivity.
Qed.

(** The loop of [fun_set] on the heap of an array: [d] new cells. *)
Lemma grow_array_cells d : forall fuel (index : Z) es free,
  index + 1 - Z.of_nat (length es) = Z.of_nat d ->
  (d <= fuel)%nat ->
  index < INT_MAX ->
  fun_set_grow fuel index (Z.of_nat (length es))
    (array_cells (Z.of_nat (length es)) es free)
  = (array_cells (index + 1) (es ++ replicate d VarNull) (free - d),
     Returned (Some (index + 1))).
Proof.
  induction d as [|d IH]; intros fuel index es free Hd Hfuel Hmax.
  - assert ((index >=? Z.of_nat (length es)) = false) as Hcond
      by (rewrite Z.geb_leb; apply Z.leb_gt; lia).
    destruct fuel; cbn [fun_set_grow]; rewrite Hcond;
      cbn [replicate]; rewrite app_nil_r, Nat.sub_0_r;
      by replace (index + 1) with (Z.of_nat (length es)) by lia.
  - assert ((index >=? Z.of_nat (length es)) = true) as Hcond
      by (rewrite Z.geb_leb; apply Z.leb_le; lia).
    destruct fuel as [|fuel]; [lia|].
    cbn [fun_set_grow]. rewrite Hcond.
    unfold heap_bind at 1. unfold heap_malloc. rewrite malloc_array_cells.
    unfold INT_MAX in Hmax.
    rewrite int_wrap_small by (unfold INT_MAX; lia).
    rewrite (heap_bind_returned _ _ _ _ _ (update_length_cell _ _ _ _)).
    assert ((Z.of_nat (S (length es))
             =? uint32 (BASE_ADDR + (Z.of_nat (length es) + 1 - 1))) = true)
      as Hassert.
    { unfold BASE_ADDR. rewrite uint32_small by lia. apply Z.eqb_eq. lia. }
    rewrite Hassert. unfold ssassert, heap_bind at 1, heap_ret.
    replace (Z.of_nat (length es) + 1)
      with (Z.of_nat (length (es ++ [VarNull])))
      by (rewrite length_app; cbn [length]; lia).
    rewrite IH; [| rewrite length_app; cbn [length]; lia | lia | unfold INT_MAX; lia].
    rewrite <- app_assoc. cbn [app replicate].
    by replace (pred free - d)%nat with (free - S d)%nat by lia.
Qed.

Lemma grow_not_needed fuel (index len : Z) heap :
  index < len ->
  fun_set_grow fuel index len heap = (heap, Returned (Some len)).
Proof.
  intros Hlt.
  assert ((index >=? len) = false) as Hcond
    by (rewrite Z.geb_leb; apply Z.leb_gt; lia).
  destruct fuel; cbn [fun_set_grow]; by rewrite Hcond.
Qed.

Lemma insert_last_new_cell es d v :
  <[(length es + d)%nat := v]> (es ++ replicate (S d) VarNull)
  = es ++ replicate d VarNull ++ [v].
Proof.
  rewrite insert_app_r, replicate_S_end. f_equal.
  rewrite insert_app_r_alt by (rewrite length_replicate; lia).
  by rewrite length_replicate, Nat.sub_diag.
Qed.

(** C10.  [set(i, v)] on an Array object of length [L]: for [0 <= i < L]
    the element at index [i] is overwritten with [v]; for
    [L <= i < L + 1024] cells are allocated so that the length becomes
    [i + 1] and [v] is stored at index [i]; for [i < 0] or [i >= L + 1024]
    the call is fatal (index out of bounds).  When it is not fatal it
    returns a clone of [v], and the elements at the other indices below
    [L] are as before. *)
Theorem set_element es free fuel (param0 v : surgescript_var_t) (i : Z) :
  Z.of_nat (length es) + 1024 <= INT_MAX ->
  surgescript_var_get_number param0 = i ->
  - (2 ^ 31) <= i /\ i <= INT_MAX ->
  (0 <= i /\ i < Z.of_nat (length es) ->
     fun_set fuel param0 v (array_heap es free)
     = (array_heap (<[Z.to_nat i := v]> es) free,
        Returned (Some (surgescript_var_clone v))))
  /\ (Z.of_nat (length es) <= i /\ i < Z.of_nat (length es) + 1024 ->
      (Z.to_nat (i - Z.of_nat (length es)) < fuel)%nat ->
      let grown :=
        es ++ replicate (Z.to_nat (i - Z.of_nat (length es))) VarNull ++ [v] in
      fun_set fuel param0 v (array_heap es free)
      = (array_heap grown
           (free - S (Z.to_nat (i - Z.of_nat (length es)))),
         Returned (Some (surgescript_var_clone v)))
      /\ Z.of_nat (length grown) = i + 1
      /\ grown !! Z.to_nat i = Some v
      /\ forall j : nat, (j < length es)%nat -> grown !! j = es !! j)
  /\ (i < 0 \/ Z.of_nat (length es) + 1024 <= i ->
      fun_set fuel param0 v (array_heap es free)
      = (array_heap es free, Fatal (ArraySetOutOfBounds i))).
Proof.
  intros Hmax Hparam Hint.
  assert (0 <= Z.of_nat (length es)) as Hlen0 by lia.
  assert (fun_set fuel param0 v (array_heap es free)
          = (if (i <? 0) || (i >=? Z.of_nat (length es) + 1024)
             then ssfatal (ArraySetOutOfBounds i)
             else
               do grown <- fun_set_grow fuel i (Z.of_nat (length es));
               match grown with
               | None => heap_ret None
               | Some _ =>
                   do_ heap_update (uint32 (BASE_ADDR + i))
                         (fun dst => surgescript_var_copy dst v);
                   heap_ret (Some (surgescript_var_clone v))
               end) (array_heap es free)) as Hset.
  { unfold fun_set, array_heap. rewrite Hparam.
    rewrite (heap_bind_returned _ _ _ _ _ (array_length_read _ _ _)).
    unfold INT_MAX in *.
    rewrite (int_wrap_small i) by (unfold INT_MAX; lia).
    rewrite (int_wrap_small (Z.of_nat (length es))) by (unfold INT_MAX; lia).
    by rewrite (int_wrap_small (Z.of_nat (length es) + 1024))
      by (unfold INT_MAX; lia). }
  rewrite Hset. clear Hset. unfold INT_MAX in *.
  assert (forall j : nat, Z.of_nat j = i ->
            uint32 (BASE_ADDR + i) = Z.of_nat (S j)) as Haddr.
  { intros j <-. unfold BASE_ADDR. rewrite uint32_small by lia. lia. }
  split; [|split].
  - intros [Hi0 HiL].
    assert ((i <? 0) || (i >=? Z.of_nat (length es) + 1024) = false) as ->.
    { apply orb_false_iff. split; [apply Z.ltb_ge; lia|].
      rewrite Z.geb_leb. apply Z.leb_gt. lia. }
    unfold array_heap.
    rewrite (heap_bind_returned _ _ _ _ _
               (grow_not_needed fuel i _ _ HiL)).
    rewrite (Haddr (Z.to_nat i)) by lia.
    rewrite (heap_bind_returned _ _ _ _ _
               (update_element (Z.of_nat (length es)) es free (Z.to_nat i) v
                  ltac:(lia))).
    unfold heap_ret. by rewrite length_insert.
  - intros [HiL Hi1024] Hfuel.
    set (d := Z.to_nat (i - Z.of_nat (length es))) in *.
    set (grown := es ++ replicate d VarNull ++ [v]).
    assert (Z.to_nat i = (length es + d)%nat) as Hj by lia.
    assert (Z.of_nat (length grown) = i + 1) as Hgrown.
    { unfold grown. rewrite !length_app, length_replicate. cbn [length]. lia. }
    split; [|split; [done|split]].
    + assert ((i <? 0) || (i >=? Z.of_nat (length es) + 1024) = false) as ->.
      { apply orb_false_iff. split; [apply Z.ltb_ge; lia|].
        rewrite Z.geb_leb. apply Z.leb_gt. lia. }
      unfold array_heap.
      rewrite (heap_bind_returned _ _ _ _ _
                 (grow_array_cells (S d) fuel i es free
                    ltac:(lia) ltac:(lia) ltac:(unfold INT_MAX; lia))).
      rewrite (Haddr (Z.to_nat i)) by lia.
      rewrite (heap_bind_returned _ _ _ _ _
                 (update_element (i + 1) (es ++ replicate (S d) VarNull)
                    (free - S d) (Z.to_nat i) v
                    ltac:(rewrite length_app, length_replicate; lia))).
      unfold heap_ret. rewrite Hj, insert_last_new_cell.
      fold grown. by rewrite Hgrown.
    + unfold grown. rewrite Hj, app_assoc.
      apply list_lookup_middle.
      by rewrite length_app, length_replicate.
    + intros j Hlt. unfold grown. by rewrite lookup_app_l.
  - intros Hout.
    assert ((i <? 0) || (i >=? Z.of_nat (length es) + 1024) = true) as ->.
    { apply orb_true_iff. destruct Hout as [Hneg|Hbig].
      - left. apply Z.ltb_lt. lia.
      - right. rewrite Z.geb_leb. apply Z.leb_le. lia. }
    reflexivity.
Qed.

End ArrayProperties.

(** ** More of the Array built-in *)

Section ArrayCells.

Implicit Types es : list surgescript_var_t.
Implicit Types free : nat.
Implicit Types v x : surgescript_var_t.

(** The address of the element at index [j] (an [unsigned] that does not
    wrap for an array an [int] can count). *)
Lemma element_address (j : nat) :
  Z.of_nat j <= INT_MAX -> uint32 (BASE_ADDR + Z.of_nat j) = Z.of_nat (S j).
Proof.
  unfold INT_MAX, BASE_ADDR. intros Hj. rewrite uint32_small by lia. lia.
Qed.

Lemma first_element_address : uint32 (BASE_ADDR + 0) = Z.of_nat 1.
Proof. reflexivity. Qed.

Lemma heap_copy_element n es free (dst src : nat) x :
  es !! src = Some x -> (dst < length es)%nat ->
  heap_copy (Z.of_nat (S dst)) (Z.of_nat (S src)) (array_cells n es free)
  = (array_cells n (<[dst := x]> es) free, Returned tt).
Proof.
  intros Hsrc Hdst. unfold heap_copy.
  rewrite (heap_bind_returned _ _ _ _ _ (heap_read_element n es free src x Hsrc)).
  by apply update_element.
Qed.

Lemma heap_swap_elements n es free (i j : nat) a b :
  es !! i = Some a -> es !! j = Some b ->
  heap_swap (Z.of_nat (S i)) (Z.of_nat (S j)) (array_cells n es free)
  = (array_cells n (<[j := a]> (<[i := b]> es)) free, Returned tt).
Proof.
  intros Ha Hb. unfold heap_swap.
  rewrite (heap_bind_returned _ _ _ _ _ (heap_read_element n es free i a Ha)).
  rewrite (heap_bind_returned _ _ _ _ _ (heap_read_element n es free j b Hb)).
  rewrite (heap_bind_returned _ _ _ _ _
             (update_element n es free i b (lookup_lt_Some _ _ _ Ha))).
  apply (update_element n (<[i := b]> es) free j a).
  rewrite length_insert. by eapply lookup_lt_Some.
Qed.

(** [fun_get] and [fun_length] on the heap of an array. *)
Lemma get_cells es free (param0 : surgescript_var_t) (i : Z) :
  Z.of_nat (length es) <= INT_MAX ->
  surgescript_var_get_number param0 = i ->
  - (2 ^ 31) <= i /\ i <= INT_MAX ->
  (forall x, es !! Z.to_nat i = Some x -> 0 <= i ->
     fun_get param0 (array_heap es free)
     = (array_heap es free, Returned (surgescript_var_clone x)))
  /\ (i < 0 \/ Z.of_nat (length es) <= i ->
      fun_get param0 (array_heap es free)
      = (array_heap es free, Fatal (ArrayGetOutOfBounds i)))
  /\ fun_length (array_heap es free)
     = (array_heap es free, Returned (VarNumber (Z.of_nat (length es)))).
Proof.
  intros Hmax Hparam Hint. unfold fun_get. rewrite Hparam.
  rewrite (int_wrap_small i) by done.
  split; [|split; [|done]].
  - intros x Hx Hi0.
    assert ((0 <=? i) = true) as -> by (apply Z.leb_le; lia).
    pose proof (lookup_lt_Some _ _ _ Hx) as Hlt.
    unfold array_heap.
    rewrite (heap_bind_returned _ _ _ _ _ (array_length_read _ _ _)).
    rewrite int_wrap_small by (unfold INT_MAX in *; lia).
    assert ((i <? Z.of_nat (length es)) = true) as -> by (apply Z.ltb_lt; lia).
    replace i with (Z.of_nat (Z.to_nat i)) at 1 by lia.
    rewrite element_address by lia.
    by rewrite (heap_bind_returned _ _ _ _ _
                  (heap_read_element _ es free (Z.to_nat i) x Hx)).
  - intros [Hneg|Hbig].
    + by assert ((0 <=? i) = false) as -> by (apply Z.leb_gt; lia).
    + destruct (0 <=? i); [|done]. unfold array_heap.
      rewrite (heap_bind_returned _ _ _ _ _ (array_length_read _ _ _)).
      rewrite int_wrap_small by (unfold INT_MAX in *; lia).
      by assert ((i <? Z.of_nat (length es)) = false) as ->
        by (apply Z.ltb_ge; lia).
Qed.

(** X7.  [get(i)] on an Array object of length [L] returns a clone of the
    element at index [i] when [0 <= i < L] and is fatal (index out of bounds)
    otherwise; [length()] returns [L]; neither changes the heap. *)
Theorem get_element es free (param0 : surgescript_var_t) (i : Z) :
  Z.of_nat (length es) <= INT_MAX ->
  surgescript_var_get_number param0 = i ->
  - (2 ^ 31) <= i /\ i <= INT_MAX ->
  (forall x, es !! Z.to_nat i = Some x -> 0 <= i ->
     fun_get param0 (array_heap es free)
     = (array_heap es free, Returned (surgescript_var_clone x)))
  /\ (i < 0 \/ Z.of_nat (length es) <= i ->
      fun_get param0 (array_heap es free)
      = (array_heap es free, Fatal (ArrayGetOutOfBounds i)))
  /\ fun_length (array_heap es free)
     = (array_heap es free, Returned (VarNumber (Z.of_nat (length es)))).
Proof. apply get_cells. Qed.

(** The loop of [fun_shift]: after the iterations for [0 .. j - 1] the
    first [j] cells hold the elements that followed them. *)
Lemma shift_loop n x es free (m : nat) : forall (j : nat),
  (j + m = length es)%nat ->
  Z.of_nat (length es) < INT_MAX ->
  for_up m (Z.of_nat j)
    (fun i => heap_copy (uint32 (BASE_ADDR + i)) (uint32 (BASE_ADDR + (i + 1))))
    (array_cells n (take j es ++ drop j (x :: es)) free)
  = (array_cells n (es ++ drop (length es) (x :: es)) free, Returned tt).
Proof.
  induction m as [|m IH]; intros j Hj Hmax.
  - cbn [for_up]. unfold heap_ret.
    replace j with (length es) by lia. by rewrite take_ge by lia.
  - cbn [for_up].
    destruct (lookup_lt_is_Some_2 es j ltac:(lia)) as [y Hy].
    rewrite element_address by lia.
    replace (Z.of_nat j + 1) with (Z.of_nat (S j)) by lia.
    rewrite element_address by lia.
    assert (length (take j es) = j) as Htake by (rewrite length_take; lia).
    assert ((take j es ++ drop j (x :: es)) !! S j = Some y) as Hsrc.
    { rewrite lookup_app_r by lia. rewrite Htake.
      replace (S j - j)%nat with 1%nat by lia.
      rewrite lookup_drop. replace (j + 1)%nat with (S j) by lia. exact Hy. }
    assert (j < length (take j es ++ drop j (x :: es)))%nat as Hdst.
    { rewrite length_app, Htake, length_drop. simpl. lia. }
    rewrite (heap_bind_returned _ _ _ _ _
               (heap_copy_element n _ free j (S j) y Hsrc Hdst)).
    replace (Z.of_nat j + 1) with (Z.of_nat (S j)) by lia.
    rewrite <- (IH (S j)) by lia. f_equal. f_equal.
    replace j with (length (take j es) + 0)%nat at 1 by lia.
    rewrite insert_app_r.
    rewrite (take_S_r es j y Hy), <- app_assoc. f_equal.
    destruct (drop j (x :: es)) as [|z rest] eqn:Hdrop.
    { apply (f_equal length) in Hdrop. rewrite length_drop in Hdrop.
      simpl in Hdrop. lia. }
    cbn [insert list_insert app]. f_equal.
    assert (drop (S j) (x :: es) = rest) as Hrest.
    { replace (S j) with (j + 1)%nat by lia.
      rewrite <- (drop_drop (x :: es) 1 j). by rewrite Hdrop. }
    by rewrite Hrest.
Qed.

(** [fun_shift] on the heap of an array. *)
Lemma shift_cells es free :
  Z.of_nat (length es) <= INT_MAX ->
  (forall x rest, es = x :: rest ->
     fun_shift (array_heap es free)
     = (array_heap rest (S free), Returned (Some (surgescript_var_clone x))))
  /\ (es = [] ->
      fun_shift (array_heap es free) = (array_heap es free, Returned None)).
Proof.
  intros Hmax. split; [|by intros ->].
  intros x rest ->. cbn [length] in Hmax. unfold INT_MAX in Hmax.
  unfold fun_shift, array_heap.
  rewrite (heap_bind_returned _ _ _ _ _ (array_length_read _ _ _)).
  cbn [length].
  rewrite int_wrap_small by (unfold INT_MAX; lia).
  assert ((0 <? Z.of_nat (S (length rest))) = true) as ->
    by (apply Z.ltb_lt; lia).
  rewrite first_element_address.
  rewrite (heap_bind_returned _ _ _ _ _
             (heap_read_element _ (x :: rest) free 0 x eq_refl)).
  rewrite int_wrap_small by (unfold INT_MAX; lia).
  unfold for_range.
  replace (Z.to_nat (Z.of_nat (S (length rest)) - 1 - 0)) with (length rest)
    by lia.
  pose proof (shift_loop (Z.of_nat (S (length rest))) x rest free
                (length rest) 0 ltac:(lia) ltac:(unfold INT_MAX; lia)) as Hloop.
  rewrite take_0 in Hloop. cbn [app drop] in Hloop.
  change (Z.of_nat 0) with 0 in Hloop.
  rewrite (heap_bind_returned _ _ _ _ _ Hloop).
  rewrite (heap_bind_returned _ _ _ _ _ (update_length_cell _ _ _ _)).
  assert (exists y, drop (length rest) (x :: rest) = [y]) as [y Hy].
  { destruct (drop (length rest) (x :: rest)) as [|y [|z tl]] eqn:Hdrop;
      apply (f_equal length) in Hdrop; rewrite length_drop in Hdrop;
      cbn [length] in Hdrop; [lia| |lia]. by exists y. }
  rewrite Hy.
  replace (Z.of_nat (S (length rest)) - 1) with (Z.of_nat (length rest)) by lia.
  rewrite element_address by (unfold INT_MAX; lia).
  unfold heap_bind, heap_free, heap_ret. by rewrite free_last_element.
Qed.

(** X8.  [shift()] on an Array object of length [L]: when [L > 0] it returns
    a clone of the first element, moves every other element one index down,
    stores [L - 1] as the length and frees the last cell; when [L] is [0] it
    returns nothing and leaves the heap as it is. *)
Theorem shift_first_element es free :
  Z.of_nat (length es) <= INT_MAX ->
  (forall x rest, es = x :: rest ->
     fun_shift (array_heap es free)
     = (array_heap rest (S free), Returned (Some (surgescript_var_clone x))))
  /\ (es = [] ->
      fun_shift (array_heap es free) = (array_heap es free, Returned None)).
Proof. apply shift_cells. Qed.

(** The loop of [fun_unshift]: after the iterations for [L .. j + 1] the
    cells above [j] hold the elements that preceded them. *)
Lemma unshift_loop n es free (j : nat) :
  (j <= length es)%nat ->
  Z.of_nat (length es) < INT_MAX ->
  for_down j (Z.of_nat j)
    (fun i : Z => heap_copy (uint32 (BASE_ADDR + i))
                            (uint32 (BASE_ADDR + (i - 1))))
    (array_cells n (take (S j) (es ++ [VarNull]) ++ drop j es) free)
  = (array_cells n (take 1 (es ++ [VarNull]) ++ es) free, Returned tt).
Proof.
  intros Hj Hmax. induction j as [|j IH]; [done|].
  cbn [for_down].
  destruct (lookup_lt_is_Some_2 es j ltac:(lia)) as [y Hy].
  destruct (lookup_lt_is_Some_2 (es ++ [VarNull]) (S j)
              ltac:(rewrite length_app; cbn [length]; lia)) as [z Hz].
  rewrite element_address by lia.
  replace (Z.of_nat (S j) - 1) with (Z.of_nat j) by lia.
  rewrite element_address by lia.
  assert (length (take (S j) (es ++ [VarNull])) = S j) as Htake.
  { rewrite length_take, length_app. cbn [length]. lia. }
  assert ((take (S (S j)) (es ++ [VarNull]) ++ drop (S j) es) !! j = Some y)
    as Hsrc.
  { rewrite lookup_app_l by (rewrite length_take, length_app; cbn [length]; lia).
    rewrite lookup_take_lt by lia. by rewrite lookup_app_l by lia. }
  assert (S j < length (take (S (S j)) (es ++ [VarNull]) ++ drop (S j) es))%nat
    as Hdst.
  { rewrite length_app, length_take, length_app, length_drop. cbn [length]. lia. }
  rewrite (heap_bind_returned _ _ _ _ _
             (heap_copy_element n _ free (S j) j y Hsrc Hdst)).
  rewrite <- IH by lia. f_equal. f_equal.
  rewrite (take_S_r _ (S j) z Hz), <- app_assoc.
  replace (S j) with (length (take (S j) (es ++ [VarNull])) + 0)%nat at 1
    by lia.
  rewrite insert_app_r. cbn [app insert list_insert]. f_equal.
  symmetry. by apply drop_S.
Qed.

(** [fun_unshift] on the heap of an array. *)
Lemma unshift_cells es free v :
  Z.of_nat (length es) < INT_MAX ->
  fun_unshift v (array_heap es free)
  = (array_heap (v :: es) (pred free), Returned tt).
Proof.
  intros Hmax. pose proof Hmax as Hmax'. unfold INT_MAX in Hmax'.
  unfold fun_unshift, array_heap.
  rewrite (heap_bind_returned _ _ _ _ _ (array_length_read _ _ _)).
  unfold heap_bind at 1. unfold heap_malloc. rewrite malloc_array_cells.
  rewrite (int_wrap_small (Z.of_nat (length es))) by (unfold INT_MAX; lia).
  rewrite (int_wrap_small (Z.of_nat (length es) + 1)) by (unfold INT_MAX; lia).
  rewrite (heap_bind_returned _ _ _ _ _ (update_length_cell _ _ _ _)).
  replace (Z.of_nat (length es) + 1 - 1) with (Z.of_nat (length es)) by lia.
  rewrite element_address by (unfold INT_MAX; lia).
  rewrite Z.eqb_refl. unfold ssassert. unfold heap_bind at 1. unfold heap_ret.
  rewrite int_wrap_small by (unfold INT_MAX; lia).
  unfold for_range_down.
  replace (Z.to_nat (Z.of_nat (length es) - 0)) with (length es) by lia.
  pose proof (unshift_loop (Z.of_nat (length es) + 1) es (pred free)
                (length es) ltac:(lia) Hmax) as Hloop.
  rewrite take_ge in Hloop by (rewrite length_app; simpl; lia).
  rewrite drop_all, app_nil_r in Hloop.
  rewrite (heap_bind_returned _ _ _ _ _ Hloop).
  rewrite first_element_address.
  assert (exists z, take 1 (es ++ [VarNull]) = [z]) as [z Hz].
  { destruct es; simpl; eauto. }
  rewrite Hz.
  rewrite (update_element _ ([z] ++ es) _ 0 v) by (simpl; lia).
  cbn [app insert list_insert length].
  by replace (Z.of_nat (S (length es))) with (Z.of_nat (length es) + 1) by lia.
Qed.

(** X9.  [unshift(v)] on an Array object of length [L < INT_MAX] allocates
    one cell, moves every element one index up and stores [v] at index [0];
    the length becomes [L + 1]. *)
Theorem unshift_array_heap es free v :
  Z.of_nat (length es) < INT_MAX ->
  fun_unshift v (array_heap es free)
  = (array_heap (v :: es) (pred free), Returned tt).
Proof. apply unshift_cells. Qed.

(** The loop of [fun_reverse]: after the iterations for [0 .. j - 1] the
    first and the last [j] elements are exchanged, mirrored. *)
Lemma reverse_loop n es free (m : nat) : forall (j : nat) cur,
  (j + m = length es / 2)%nat ->
  Z.of_nat (length es) <= INT_MAX ->
  length cur = length es ->
  (forall t, (t < length es)%nat ->
     cur !! t = if decide (t < j \/ length es - j <= t)%nat
                then es !! (length es - 1 - t)%nat else es !! t) ->
  for_up m (Z.of_nat j)
    (fun i : Z => heap_swap (uint32 (BASE_ADDR + i))
                    (uint32 (BASE_ADDR + (Z.of_nat (length es) - 1 - i))))
    (array_cells n cur free)
  = (array_cells n (reverse es) free, Returned tt).
Proof.
  induction m as [|m IH]; intros j cur Hj Hmax Hlen Hcur.
  - cbn [for_up]. unfold heap_ret. f_equal. f_equal.
    apply list_eq. intros t.
    destruct (decide (t < length es)%nat) as [Ht|Ht].
    + rewrite Hcur by done. rewrite reverse_lookup by done.
      replace (length es - S t)%nat with (length es - 1 - t)%nat by lia.
      case_decide as Hside; [done|].
      assert (j = length es / 2)%nat as -> by lia.
      pose proof (Nat.div_mod_eq (length es) 2) as Hdiv.
      pose proof (Nat.mod_upper_bound (length es) 2 ltac:(lia)) as Hmod.
      f_equal. lia.
    + rewrite !lookup_ge_None_2; [done|rewrite length_reverse; lia|lia].
  - cbn [for_up].
    pose proof (Nat.div_mod_eq (length es) 2) as Hdiv.
    pose proof (Nat.mod_upper_bound (length es) 2 ltac:(lia)) as Hmod.
    assert (j < length es - 1 - j)%nat as Hlt by lia.
    destruct (lookup_lt_is_Some_2 es j ltac:(lia)) as [a Ha].
    destruct (lookup_lt_is_Some_2 es (length es - 1 - j) ltac:(lia)) as [b Hb].
    assert (cur !! j = Some a) as Hca.
    { rewrite Hcur by lia. by rewrite decide_False by lia. }
    assert (cur !! (length es - 1 - j)%nat = Some b) as Hcb.
    { rewrite Hcur by lia. by rewrite decide_False by lia. }
    unfold INT_MAX in Hmax.
    rewrite element_address by (unfold INT_MAX; lia).
    replace (Z.of_nat (length es) - 1 - Z.of_nat j)
      with (Z.of_nat (length es - 1 - j)) by lia.
    rewrite element_address by (unfold INT_MAX; lia).
    rewrite (heap_bind_returned _ _ _ _ _
               (heap_swap_elements n cur free j (length es - 1 - j) a b Hca Hcb)).
    replace (Z.of_nat j + 1) with (Z.of_nat (S j)) by lia.
    apply IH; [lia | unfold INT_MAX; lia | by rewrite !length_insert |].
    intros t Ht.
    destruct (decide (t = length es - 1 - j)%nat) as [->|Ht1].
    { rewrite list_lookup_insert_eq by (rewrite length_insert; lia).
      rewrite decide_True by lia.
      by replace (length es - 1 - (length es - 1 - j))%nat with j by lia. }
    rewrite list_lookup_insert_ne by done.
    destruct (decide (t = j)) as [->|Ht2].
    { rewrite list_lookup_insert_eq by lia. by rewrite decide_True by lia. }
    rewrite list_lookup_insert_ne by done. rewrite Hcur by done.
    repeat case_decide; try done; lia.
Qed.

(** [fun_reverse] on the heap of an array. *)
Lemma reverse_cells es free :
  Z.of_nat (length es) <= INT_MAX ->
  fun_reverse (array_heap es free) = (array_heap (reverse es) free, Returned tt).
Proof.
  intros Hmax. unfold fun_reverse, array_heap.
  rewrite (heap_bind_returned _ _ _ _ _ (array_length_read _ _ _)).
  rewrite int_wrap_small by (unfold INT_MAX in *; lia).
  unfold for_range. rewrite Z.sub_0_r.
  rewrite Z.quot_div_nonneg by lia.
  replace (Z.to_nat (Z.of_nat (length es) / 2)) with (length es / 2)%nat
    by (rewrite <- (Nat2Z.id (length es / 2)), Nat2Z.inj_div; done).
  rewrite length_reverse.
  apply (reverse_loop _ es free (length es / 2) 0 es); try done.
  intros t Ht. by rewrite decide_False by lia.
Qed.

(** X10.  [reverse()] on an Array object reverses the order of its elements
    and changes nothing else. *)
Theorem reverse_array_heap es free :
  Z.of_nat (length es) <= INT_MAX ->
  fun_reverse (array_heap es free) = (array_heap (reverse es) free, Returned tt).
Proof. apply reverse_cells. Qed.

(** *** sequences of calls *)

(** [fun_push] and [fun_pop] on the heap of an array. *)
Lemma push_cells es free v :
  Z.of_nat (length es) < INT_MAX ->
  fun_push v (array_heap es free)
  = (array_heap (es ++ [v]) (pred free), Returned tt).
Proof.
  intros Hmax. unfold fun_push, array_heap, INT_MAX in *.
  rewrite (heap_bind_returned _ _ _ _ _ (array_length_read _ _ _)).
  unfold heap_bind at 1. unfold heap_malloc. rewrite malloc_array_cells.
  assert (length es < length (es ++ [VarNull]))%nat as Hlt
    by (rewrite length_app; cbn [length]; lia).
  rewrite (heap_bind_returned _ _ _ _ _
             (update_element (Z.of_nat (length es)) (es ++ [VarNull])
                (pred free) (length es) v Hlt)).
  rewrite (heap_bind_returned _ _ _ _ _ (update_length_cell _ _ _ _)).
  rewrite (int_wrap_small (Z.of_nat (length es))) by (unfold INT_MAX; lia).
  rewrite (int_wrap_small (Z.of_nat (length es) + 1))
    by (unfold INT_MAX; lia).
  assert ((Z.of_nat (S (length es))
           =? uint32 (BASE_ADDR + (Z.of_nat (length es) + 1 - 1))) = true)
    as ->.
  { unfold BASE_ADDR. rewrite uint32_small by lia. apply Z.eqb_eq. lia. }
  unfold ssassert, heap_ret.
  replace (length es) with (length es + 0)%nat at 2 by lia.
  rewrite insert_app_r. cbn [insert list_insert].
  rewrite length_app. cbn [length].
  by replace (Z.of_nat (length es + 1)) with (Z.of_nat (length es) + 1) by lia.
Qed.

Lemma pop_cells es x free :
  Z.of_nat (length (es ++ [x])) <= INT_MAX ->
  fun_pop (array_heap (es ++ [x]) free)
  = (array_heap es (S free), Returned (Some x)).
Proof.
  intros Hmax. rewrite length_app in Hmax. cbn [length] in Hmax.
  unfold INT_MAX in Hmax. unfold fun_pop, array_heap.
  rewrite (heap_bind_returned _ _ _ _ _ (array_length_read _ _ _)).
  rewrite length_app. cbn [length].
  rewrite int_wrap_small by (unfold INT_MAX; lia).
  assert ((0 <? Z.of_nat (length es + 1)) = true) as ->
    by (apply Z.ltb_lt; lia).
  assert (uint32 (BASE_ADDR + (Z.of_nat (length es + 1) - 1))
          = Z.of_nat (S (length es))) as ->.
  { unfold BASE_ADDR. rewrite uint32_small by lia. lia. }
  rewrite (heap_bind_returned _ _ _ _ _
             (heap_read_element _ _ _ (length es) x
                (list_lookup_middle _ _ _ _ eq_refl))).
  rewrite (heap_bind_returned _ _ _ _ _ (update_length_cell _ _ _ _)).
  unfold heap_bind, heap_free. rewrite free_last_element.
  rewrite int_wrap_small by (unfold INT_MAX; lia).
  by replace (Z.of_nat (length es + 1) - 1) with (Z.of_nat (length es))
    by lia.
Qed.

(** One call: the heap stays the heap of an array, that of the sequence the
    call is meant to leave, and the value returned is the one meant. *)
Lemma run_array_call_spec call es free :
  Z.of_nat (length es) < INT_MAX ->
  exists free',
    run_array_call call (array_heap es free)
    = (array_heap (list_call call es).1 free', Returned (list_call call es).2)
    /\ (length (list_call call es).1 <= S (length es))%nat.
Proof.
  intros Hmax.
  assert (Z.of_nat (length es) <= INT_MAX) as Hmax' by lia.
  destruct call as [v| | |v|]; cbn [run_array_call list_call].
  - exists (pred free). cbn [fst snd].
    rewrite (heap_bind_returned _ _ _ _ _ (push_cells es free v Hmax)).
    split; [done|]. rewrite length_app. cbn [length]. lia.
  - destruct (decide (es = [])) as [->|Hne].
    + exists free. split; [reflexivity | simpl; lia].
    + destruct (exists_last Hne) as (es' & x & ->).
      rewrite last_snoc. cbn [fst snd].
      exists (S free). rewrite (pop_cells es' x free Hmax').
      rewrite length_app. cbn [length].
      replace (length es' + 1 - 1)%nat with (length es') by lia.
      rewrite take_app_length. split; [done|]. lia.
  - destruct es as [|x rest].
    + exists free. split; [reflexivity | simpl; lia].
    + exists (S free). cbn [fst snd].
      rewrite (proj1 (shift_cells (x :: rest) free Hmax') x rest eq_refl).
      split; [done|]. cbn [length]. lia.
  - exists (pred free). cbn [fst snd].
    rewrite (heap_bind_returned _ _ _ _ _ (unshift_cells es free v Hmax)).
    split; [done|]. cbn [length]. lia.
  - exists free. cbn [fst snd].
    rewrite (heap_bind_returned _ _ _ _ _ (reverse_cells es free Hmax')).
    split; [done|]. rewrite length_reverse. lia.
Qed.

Lemma run_array_calls_spec calls : forall es free,
  Z.of_nat (length es + length calls) <= INT_MAX ->
  exists free',
    run_array_calls calls (array_heap es free)
    = (array_heap (list_calls calls es).1 free',
       Returned (list_calls calls es).2).
Proof.
  induction calls as [|call calls IH]; intros es free Hmax.
  - exists free. reflexivity.
  - cbn [length] in Hmax. cbn [run_array_calls list_calls].
    destruct (run_array_call_spec call es free ltac:(lia))
      as (free1 & Hcall & Hlen).
    rewrite (heap_bind_returned _ _ _ _ _ Hcall).
    destruct (list_call call es) as [es1 r]. cbn [fst snd] in *.
    destruct (IH es1 free1 ltac:(lia)) as (free2 & Hrest).
    rewrite (heap_bind_returned _ _ _ _ _ Hrest).
    destruct (list_calls calls es1) as [es2 rs]. cbn [fst snd].
    exists free2. reflexivity.
Qed.

(** X20.  From the constructor on, an Array object behaves as the sequence
    of its elements: after [__constructor] and any sequence of at most
    [INT_MAX] calls of [push], [pop], [shift], [unshift] and [reverse], no
    call was fatal (no assertion failed, no cell that is not allocated was
    read), the values returned are those the same calls return on a
    sequence that starts empty, and the heap is the stored length followed
    by the cells of the elements of that sequence, in order, and by free
    cells. *)
Theorem array_calls_as_list calls :
  Z.of_nat (length calls) <= INT_MAX ->
  exists free,
    (do_ fun_constructor; run_array_calls calls) []
    = (array_heap (list_calls calls []).1 free,
       Returned (list_calls calls []).2).
Proof.
  intros Hmax.
  rewrite (heap_bind_returned _ _ _ _ _ constructor_array_heap).
  apply run_array_calls_spec. cbn [length]. lia.
Qed.

(** *** set, then get *)

(** [fun_set] on the heap of an array, for an index it accepts. *)
Lemma set_cells es free fuel (param0 v : surgescript_var_t) (i : Z) :
  Z.of_nat (length es) + 1024 <= INT_MAX ->
  surgescript_var_get_number param0 = i ->
  0 <= i /\ i < Z.of_nat (length es) + 1024 ->
  (Z.to_nat (i + 1 - Z.of_nat (length es)) <= fuel)%nat ->
  exists es' free',
    fun_set fuel param0 v (array_heap es free)
    = (array_heap es' free', Returned (Some (surgescript_var_clone v)))
    /\ es' !! Z.to_nat i = Some v
    /\ Z.of_nat (length es') = Z.max (Z.of_nat (length es)) (i + 1)
    /\ forall j : nat,
         (j < length es)%nat -> j <> Z.to_nat i -> es' !! j = es !! j.
Proof.
  intros Hmax Hparam [Hi0 Hi1024] Hfuel.
  assert ((i <? 0) || (i >=? Z.of_nat (length es) + 1024) = false) as Hin.
  { apply orb_false_iff. split; [apply Z.ltb_ge; lia|].
    rewrite Z.geb_leb. apply Z.leb_gt. lia. }
  assert (uint32 (BASE_ADDR + i) = Z.of_nat (S (Z.to_nat i))) as Haddr.
  { unfold BASE_ADDR, INT_MAX in *. rewrite uint32_small by lia. lia. }
  unfold fun_set, array_heap. rewrite Hparam.
  rewrite (heap_bind_returned _ _ _ _ _ (array_length_read _ _ _)).
  unfold INT_MAX in Hmax.
  rewrite (int_wrap_small i) by (unfold INT_MAX; lia).
  rewrite (int_wrap_small (Z.of_nat (length es))) by (unfold INT_MAX; lia).
  rewrite (int_wrap_small (Z.of_nat (length es) + 1024))
    by (unfold INT_MAX; lia).
  rewrite Hin, Haddr.
  destruct (Z.lt_ge_cases i (Z.of_nat (length es))) as [HiL|HiL].
  - exists (<[Z.to_nat i := v]> es), free.
    assert (Z.to_nat i < length es)%nat as Hlt by lia.
    rewrite (heap_bind_returned _ _ _ _ _ (grow_not_needed fuel i _ _ HiL)).
    rewrite (heap_bind_returned _ _ _ _ _
               (update_element (Z.of_nat (length es)) es free (Z.to_nat i) v
                  Hlt)).
    unfold heap_ret. rewrite length_insert.
    split; [done|]. split; [by apply list_lookup_insert_eq|].
    split; [lia|]. intros j _ Hj. by apply list_lookup_insert_ne.
  - set (d := Z.to_nat (i - Z.of_nat (length es))).
    assert (Z.to_nat i = (length es + d)%nat) as Hj by lia.
    assert (length es + d
            < length (es ++ replicate (S d) VarNull))%nat as Hlt
      by (rewrite length_app, length_replicate; lia).
    exists (es ++ replicate d VarNull ++ [v]), (free - S d)%nat.
    rewrite (heap_bind_returned _ _ _ _ _
               (grow_array_cells (S d) fuel i es free
                  ltac:(lia) ltac:(lia) ltac:(unfold INT_MAX; lia))).
    rewrite Hj.
    rewrite (heap_bind_returned _ _ _ _ _
               (update_element (i + 1) (es ++ replicate (S d) VarNull)
                  (free - S d) (length es + d) v Hlt)).
    unfold heap_ret. rewrite insert_last_new_cell.
    assert (Z.of_nat (length (es ++ replicate d VarNull ++ [v])) = i + 1)
      as Hgrown.
    { rewrite !length_app, length_replicate. cbn [length]. lia. }
    rewrite Hgrown. split; [done|]. split; [|split; [lia|]].
    + rewrite app_assoc. apply list_lookup_middle.
      by rewrite length_app, length_replicate.
    + intros j Hjlt _. by rewrite lookup_app_l.
Qed.

(** X22.  What [set] stores, [get] returns: on an Array object of length
    [L], for an index [0 <= i < L + 1024], [set(i, v)] followed by [get(i)]
    returns a clone of [v]; the length is then the greater of [L] and
    [i + 1], and [get] of any other index below [L] returns the element that
    was there before the [set]. *)
Theorem set_then_get es free fuel (param0 v : surgescript_var_t) (i : Z) :
  Z.of_nat (length es) + 1024 <= INT_MAX ->
  surgescript_var_get_number param0 = i ->
  0 <= i /\ i < Z.of_nat (length es) + 1024 ->
  (Z.to_nat (i + 1 - Z.of_nat (length es)) <= fuel)%nat ->
  exists es' free',
    (do_ fun_set fuel param0 v; fun_get param0) (array_heap es free)
    = (array_heap es' free', Returned (surgescript_var_clone v))
    /\ fun_length (array_heap es' free')
       = (array_heap es' free',
          Returned (VarNumber (Z.max (Z.of_nat (length es)) (i + 1))))
    /\ forall (j : nat) x (param : surgescript_var_t),
         es !! j = Some x -> j <> Z.to_nat i ->
         surgescript_var_get_number param = Z.of_nat j ->
         fun_get param (array_heap es' free')
         = (array_heap es' free', Returned (surgescript_var_clone x)).
Proof.
  intros Hmax Hparam Hi Hfuel.
  destruct (set_cells es free fuel param0 v i Hmax Hparam Hi Hfuel)
    as (es' & free' & Hset & Hv & Hlen & Hother).
  exists es', free'.
  rewrite (heap_bind_returned _ _ _ _ _ Hset).
  assert (Z.of_nat (length es') <= INT_MAX) as Hmax' by lia.
  assert (forall z, 0 <= z <= Z.of_nat (length es) + 1024 ->
            - 2 ^ 31 <= z /\ z <= INT_MAX) as Hint
    by (intros z Hz; unfold INT_MAX in *; lia).
  split; [|split].
  - exact (proj1 (get_cells es' free' param0 i Hmax' Hparam
                    (Hint i ltac:(lia))) v Hv (proj1 Hi)).
  - rewrite <- Hlen.
    exact (proj2 (proj2 (get_cells es' free' param0 i Hmax' Hparam
                           (Hint i ltac:(lia))))).
  - intros j x param Hx Hj Hpj.
    pose proof (lookup_lt_Some _ _ _ Hx) as Hjlt.
    apply (proj1 (get_cells es' free' param (Z.of_nat j) Hmax' Hpj
                    (Hint (Z.of_nat j) ltac:(lia)))); [|lia].
    rewrite Nat2Z.id, Hother by done. exact Hx.
Qed.

(** *** the constructor *)

Lemma first_free_cell_bounds (heap : list (option surgescript_var_t)) :
  forall i0, (i0 <= first_free_cell heap i0 <= i0 + length heap)%nat.
Proof.
  induction heap as [|[v|] heap IH]; intros i0; cbn [first_free_cell length];
    [lia| |lia].
  specialize (IH (S i0)). lia.
Qed.

(** X21.  [__constructor] needs the first cell of the heap: when that cell
    is free (as on the heap of a new object) the constructor allocates it
    and stores the length [0] in it; when it is allocated, the cell the
    heap hands out is another one and the assertion
    [length_addr == LENGTH_ADDR] stops the process. *)
Theorem constructor_first_cell (heap : list (option surgescript_var_t)) :
  (surgescript_heap_at heap LENGTH_ADDR = None ->
   exists heap1,
     fun_constructor heap = (heap1, Returned tt)
     /\ surgescript_heap_at heap1 LENGTH_ADDR = Some (VarNumber 0)
     /\ ARRAY_LENGTH heap1 = (heap1, Returned 0)
     /\ drop 1 heap1 = drop 1 heap)
  /\ (is_Some (surgescript_heap_at heap LENGTH_ADDR) ->
      exists heap1, fun_constructor heap = (heap1, Fatal AssertionFailed)).
Proof.
  unfold fun_constructor, surgescript_heap_at, LENGTH_ADDR.
  cbn [Z.leb Z.compare Z.to_nat].
  split.
  - intros Hfree.
    destruct heap as [|[v|] heap]; [| discriminate Hfree |].
    + eexists. split; [reflexivity|]. by repeat split.
    + unfold heap_bind at 1. unfold heap_malloc, surgescript_heap_malloc.
      cbn [first_free_cell length]. rewrite decide_True by lia.
      eexists. split; [reflexivity|]. by repeat split.
  - intros [v Hv].
    destruct heap as [|[v'|] heap]; [discriminate Hv| |discriminate Hv].
    unfold heap_bind at 1. unfold heap_malloc, surgescript_heap_malloc.
    cbn [first_free_cell length].
    pose proof (first_free_cell_bounds heap 1) as Hb.
    set (ptr := first_free_cell heap 1) in *.
    assert ((Z.of_nat ptr =? 0) = false) as Hne by (apply Z.eqb_neq; lia).
    assert ((0 <=? Z.of_nat ptr) = true) as Hle by (apply Z.leb_le; lia).
    destruct (decide (ptr < S (length heap))%nat) as [Hlt|Hge].
    + unfold heap_bind at 1. unfold heap_update, surgescript_heap_at.
      rewrite Hle, Nat2Z.id.
      rewrite list_lookup_insert_eq by (cbn [length]; lia).
      cbn [mjoin option_join option_bind mbind]. rewrite Hne.
      eexists. reflexivity.
    + unfold heap_bind at 1. unfold heap_update, surgescript_heap_at.
      assert (ptr = length (Some v' :: heap)) as Hptr
        by (cbn [length]; lia).
      rewrite Hle, Nat2Z.id, Hptr.
      rewrite (list_lookup_middle (Some v' :: heap) [] _ _ eq_refl).
      cbn [mjoin option_join option_bind mbind].
      rewrite <- Hptr, Hne. eexists. reflexivity.
Qed.

End ArrayCells.

Section ArrayCompareProperties.

Context {var_compare_impl : var_compare_t}.

Implicit Types es : list surgescript_var_t.
Implicit Types free : nat.

Lemma indexof_loop_spec n es free needle (m : nat) : forall (j : nat),
  (j + m = length es)%nat ->
  Z.of_nat (length es) <= INT_MAX ->
  indexof_loop m (Z.of_nat j) needle (array_cells n es free)
  = (array_cells n es free,
     Returned (VarNumber
       (match list_find (fun x => surgescript_var_compare x needle = 0)
                (drop j es) with
        | Some (i, _) => Z.of_nat (j + i)
        | None => -1
        end))).
Proof.
  induction m as [|m IH]; intros j Hj Hmax.
  - rewrite drop_ge by lia. reflexivity.
  - cbn [indexof_loop].
    destruct (lookup_lt_is_Some_2 es j ltac:(lia)) as [y Hy].
    rewrite element_address by lia.
    rewrite (heap_bind_returned _ _ _ _ _ (heap_read_element n es free j y Hy)).
    rewrite (drop_S es y j Hy). cbn [list_find].
    destruct (Z.eqb_spec (surgescript_var_compare y needle) 0) as [Heq|Hne].
    + rewrite decide_True by done. unfold heap_ret. simpl.
      by rewrite Nat.add_0_r.
    + rewrite decide_False by done.
      replace (Z.of_nat j + 1) with (Z.of_nat (S j)) by lia.
      rewrite IH by lia.
      destruct (list_find _ (drop (S j) es)) as [[i z]|]; simpl; [|done].
      by replace (j + S i)%nat with (S (j + i)) by lia.
Qed.

(** X11.  [indexOf(needle)] on an Array object returns the index of the
    first element that compares equal to the needle, and [-1] when no element
    does; it does not change the heap. *)
Theorem indexof_first_match es free needle :
  Z.of_nat (length es) <= INT_MAX ->
  fun_indexof needle (array_heap es free)
  = (array_heap es free, Returned (VarNumber (first_match_index needle es)))
  /\ (forall (i : nat) x,
        es !! i = Some x ->
        surgescript_var_compare x needle = 0 ->
        (forall (j : nat) y, (j < i)%nat -> es !! j = Some y ->
           surgescript_var_compare y needle <> 0) ->
        first_match_index needle es = Z.of_nat i)
  /\ ((forall x, x ∈ es -> surgescript_var_compare x needle <> 0) ->
      first_match_index needle es = -1).
Proof.
  intros Hmax. split; [|split].
  - unfold fun_indexof, array_heap.
    rewrite (heap_bind_returned _ _ _ _ _ (array_length_read _ _ _)).
    rewrite int_wrap_small by (unfold INT_MAX in *; lia).
    rewrite Z.sub_0_r, Nat2Z.id.
    by rewrite (indexof_loop_spec _ es free needle (length es) 0).
  - intros i x Hx Heq Hfirst. unfold first_match_index.
    assert (list_find (fun x => surgescript_var_compare x needle = 0) es
            = Some (i, x)) as ->; [|done].
    apply list_find_Some. eauto.
  - intros Hnone. unfold first_match_index.
    assert (list_find (fun x => surgescript_var_compare x needle = 0) es = None)
      as ->; [|done].
    apply list_find_None, Forall_forall. exact Hnone.
Qed.

End ArrayCompareProperties.

(** *** sorting *)

Lemma swap_apart {A : Type} (l1 l2 l3 : list A) (a b : A) :
  <[(length l1 + S (length l2))%nat := a]>
    (<[length l1 := b]> (l1 ++ a :: l2 ++ b :: l3))
  = l1 ++ b :: l2 ++ a :: l3.
Proof.
  replace (length l1) with (length l1 + 0)%nat at 2 by lia.
  rewrite (insert_app_r l1 (a :: l2 ++ b :: l3) 0 b).
  rewrite (insert_app_r l1 _ (S (length l2)) a).
  f_equal. change (<[0%nat := b]> (a :: l2 ++ b :: l3)) with (b :: l2 ++ b :: l3).
  rewrite insert_cons_S. f_equal.
  replace (length l2) with (length l2 + 0)%nat by lia.
  by rewrite (insert_app_r l2 (b :: l3) 0 a).
Qed.

Lemma swap_apart_rev {A : Type} (l1 l2 l3 : list A) (a b : A) :
  <[length l1 := b]>
    (<[(length l1 + S (length l2))%nat := a]> (l1 ++ a :: l2 ++ b :: l3))
  = l1 ++ b :: l2 ++ a :: l3.
Proof.
  rewrite list_insert_insert_ne by lia. apply swap_apart.
Qed.

(** Exchanging two elements of a list permutes it. *)
Lemma swap_Permutation {A : Type} (l : list A) (i j : nat) (a b : A) :
  l !! i = Some a -> l !! j = Some b ->
  <[j := a]> (<[i := b]> l) ≡ₚ l.
Proof.
  assert (forall (l : list A) i j a b, (i < j)%nat ->
            l !! i = Some a -> l !! j = Some b ->
            exists l1 l2 l3, l = l1 ++ a :: l2 ++ b :: l3
              /\ i = length l1 /\ j = (length l1 + S (length l2))%nat) as Hsplit.
  { clear. intros l i j a b Hij Ha Hb.
    exists (take i l), (take (j - S i) (drop (S i) l)), (drop (S j) l).
    assert (length (take i l) = i) as Hlen1
      by (rewrite length_take; apply lookup_lt_Some in Ha; lia).
    assert (length (take (j - S i) (drop (S i) l)) = (j - S i)%nat) as Hlen2.
    { rewrite length_take, length_drop. apply lookup_lt_Some in Hb. lia. }
    split; [|lia].
    rewrite <- (take_drop_middle l i a Ha) at 1. f_equal. f_equal.
    rewrite <- (take_drop (j - S i) (drop (S i) l)) at 1. f_equal.
    rewrite drop_drop. replace (S i + (j - S i))%nat with j by lia.
    by apply drop_S. }
  intros Ha Hb.
  destruct (Nat.lt_total i j) as [Hij|[->|Hji]].
  - destruct (Hsplit l i j a b Hij Ha Hb) as (l1 & l2 & l3 & -> & -> & ->).
    rewrite swap_apart.
    apply Permutation_app_head. rewrite !Permutation_middle.
    rewrite (Permutation_swap a b). done.
  - rewrite Ha in Hb. injection Hb as ->.
    rewrite list_insert_insert_eq. by rewrite list_insert_id.
  - destruct (Hsplit l j i b a Hji Hb Ha) as (l1 & l2 & l3 & -> & -> & ->).
    rewrite swap_apart_rev.
    apply Permutation_app_head. rewrite !Permutation_middle.
    rewrite (Permutation_swap a b). done.
Qed.

(** Exchanging two elements inside the middle part of a list. *)
Lemma swap_middle {A : Type} (pre mid post : list A) (i j : nat) (a b : A) :
  mid !! i = Some a -> mid !! j = Some b ->
  <[(length pre + j)%nat := a]>
    (<[(length pre + i)%nat := b]> (pre ++ mid ++ post))
  = pre ++ <[j := a]> (<[i := b]> mid) ++ post.
Proof.
  intros Ha Hb.
  rewrite (insert_app_r pre (mid ++ post) i b).
  rewrite (insert_app_r pre _ j a). f_equal.
  rewrite (insert_app_l mid post i b) by by eapply lookup_lt_Some.
  rewrite insert_app_l; [done|].
  rewrite length_insert. by eapply lookup_lt_Some.
Qed.

Section SortProperties.

Context {var_compare_impl : var_compare_t}.

Implicit Types es pre mid post front his rest : list surgescript_var_t.
Implicit Types free : nat.

Lemma next_address (j : nat) :
  Z.of_nat (S j) <= INT_MAX -> uint32 (Z.of_nat (S j) + 1) = Z.of_nat (S (S j)).
Proof. unfold INT_MAX. intros Hj. rewrite uint32_small by lia. lia. Qed.

Lemma previous_address (j : nat) :
  Z.of_nat j <= INT_MAX -> uint32 (Z.of_nat (S j) - 1) = Z.of_nat j.
Proof. unfold INT_MAX. intros Hj. rewrite uint32_small by lia. lia. Qed.

(** [med3] returns one of the three pointers it was given and leaves the heap
    as it is. *)
Lemma med3_returns n es free (ia ib ic : nat) va vb vc :
  es !! ia = Some va -> es !! ib = Some vb -> es !! ic = Some vc ->
  exists m : nat,
    med3 (Z.of_nat (S ia)) (Z.of_nat (S ib)) (Z.of_nat (S ic))
      (array_cells n es free)
    = (array_cells n es free, Returned (Z.of_nat (S m)))
    /\ (m = ia \/ m = ib \/ m = ic).
Proof.
  intros Ha Hb Hc. unfold med3.
  rewrite (heap_bind_returned _ _ _ _ _ (heap_read_element n es free ia va Ha)).
  rewrite (heap_bind_returned _ _ _ _ _ (heap_read_element n es free ib vb Hb)).
  rewrite (heap_bind_returned _ _ _ _ _ (heap_read_element n es free ic vc Hc)).
  unfold heap_ret.
  repeat match goal with |- context [if ?c then _ else _] => destruct c end;
    eauto.
Qed.

(** The loop of [partition]: the elements before the one at [p] do not come
    after the pivot, those from [p] up to the one at [i] do. *)
Lemma partition_loop_spec n free pv post rest :
  forall front his (fuel ip pp ee : nat) es,
  es = front ++ his ++ rest ++ pv :: post ->
  pp = length front -> ip = (pp + length his)%nat ->
  ee = (ip + length rest)%nat ->
  (length rest <= fuel)%nat ->
  Z.of_nat (length es) <= INT_MAX ->
  Forall (fun x => 0 < surgescript_var_compare x pv) his ->
  exists added his',
    partition_loop fuel (Z.of_nat (S ip)) (Z.of_nat (S pp)) (Z.of_nat (S ee))
      (Z.of_nat (S ee)) (array_cells n es free)
    = (array_cells n ((front ++ added) ++ his' ++ pv :: post) free,
       Returned (Some (Z.of_nat (S (length (front ++ added))))))
    /\ Forall (fun x => var_le x pv) added
    /\ Forall (fun x => 0 < surgescript_var_compare x pv) his'
    /\ added ++ his' ≡ₚ his ++ rest.
Proof.
  induction rest as [|x rest IH];
    intros front his fuel ip pp ee es Hes Hpp Hip Hee Hfuel Hmax Hhis.
  - exists [], his. cbn [length] in Hee.
    assert ((Z.of_nat (S ip) <=? uint32 (Z.of_nat (S ee) - 1)) = false) as Hcond.
    { apply Z.leb_gt. rewrite previous_address; [lia|].
      rewrite Hes, !length_app in Hmax. cbn [length] in Hmax. lia. }
    rewrite app_nil_r.
    split; [|split; [done|split; [done|by rewrite !app_nil_r]]].
    subst es pp. destruct fuel; cbn [partition_loop]; by rewrite Hcond.
  - cbn [length] in Hee, Hfuel.
    assert (length es = (length front + length his + S (length rest)
                         + S (length post))%nat) as Hlen.
    { rewrite Hes, !length_app. cbn [length]. lia. }
    destruct fuel as [|fuel]; [lia|].
    cbn [partition_loop].
    assert ((Z.of_nat (S ip) <=? uint32 (Z.of_nat (S ee) - 1)) = true) as ->.
    { apply Z.leb_le. rewrite previous_address; lia. }
    assert (es !! ip = Some x) as Hx.
    { rewrite Hes, !app_assoc, <- (app_assoc _ his).
      rewrite <- !app_assoc. rewrite (app_assoc front his).
      apply list_lookup_middle. rewrite length_app. lia. }
    assert (es !! ee = Some pv) as Hpv.
    { rewrite Hes. rewrite (app_assoc his), (app_assoc front).
      apply list_lookup_middle. rewrite !length_app. cbn [length]. lia. }
    rewrite (heap_bind_returned _ _ _ _ _ (heap_read_element n es free ip x Hx)).
    rewrite (heap_bind_returned _ _ _ _ _ (heap_read_element n es free ee pv Hpv)).
    rewrite !next_address by lia.
    destruct (Z.leb_spec (surgescript_var_compare x pv) 0) as [Hle|Hgt].
    + destruct his as [|h hs].
      * (* the element is exchanged with itself *)
        cbn [length] in Hip. assert (ip = pp) as -> by lia.
        rewrite (heap_bind_returned _ _ _ _ _
                   (heap_swap_elements n es free pp pp x x Hx Hx)).
        rewrite list_insert_insert_eq, (list_insert_id es pp x Hx).
        destruct (IH (front ++ [x]) [] fuel (S pp) (S pp) ee es)
          as (added & his' & Hrun & Hadded & Hhis' & Hperm);
          [ by rewrite Hes, <- !app_assoc
          | rewrite length_app; cbn [length]; lia
          | cbn [length]; lia | lia | lia | done | done |].
        exists (x :: added), his'.
        rewrite Hrun. rewrite <- !app_assoc. cbn [app].
        split; [done|]. split; [by constructor|]. split; [done|].
        cbn [app] in *. by rewrite Hperm.
      * (* the element is exchanged with the first of those after the pivot *)
        cbn [length] in Hip.
        assert (es !! pp = Some h) as Hh.
        { rewrite Hes, Hpp. by apply list_lookup_middle. }
        rewrite (heap_bind_returned _ _ _ _ _
                   (heap_swap_elements n es free ip pp x h Hx Hh)).
        assert (<[pp := x]> (<[ip := h]> es)
                = (front ++ [x]) ++ (hs ++ [h]) ++ rest ++ pv :: post) as Hswap.
        { rewrite Hes, Hip, Hpp. cbn [app].
          rewrite (swap_apart_rev front hs (rest ++ pv :: post) h x).
          by rewrite <- !app_assoc. }
        rewrite Hswap.
        apply Forall_cons in Hhis as [Hh0 Hhs].
        destruct (IH (front ++ [x]) (hs ++ [h]) fuel (S ip) (S pp) ee
                    ((front ++ [x]) ++ (hs ++ [h]) ++ rest ++ pv :: post))
          as (added & his' & Hrun & Hadded & Hhis' & Hperm);
          [ done
          | rewrite length_app; cbn [length]; lia
          | rewrite length_app; cbn [length]; lia | lia | lia
          | by rewrite <- Hswap, !length_insert
          | apply Forall_app; split; [done|by constructor] |].
        exists (x :: added), his'.
        rewrite Hrun. rewrite <- !app_assoc. cbn [app].
        split; [done|]. split; [by constructor|]. split; [done|].
        rewrite Hperm. rewrite <- !app_assoc. cbn [app].
        rewrite <- !Permutation_middle. apply perm_swap.
    + destruct (IH front (his ++ [x]) fuel (S ip) pp ee es)
        as (added & his' & Hrun & Hadded & Hhis' & Hperm);
        [ by rewrite Hes, <- !app_assoc
        | done | rewrite length_app; cbn [length]; lia | lia | lia | done
        | apply Forall_app; split; [done|by constructor] |].
      exists added, his'. rewrite Hrun.
      split; [done|]. split; [done|]. split; [done|].
      by rewrite Hperm, <- app_assoc.
Qed.

(** [partition] on the part [mid] of the array: it comes back as some
    [lo ++ pv :: hi], the pivot [pv] at the index returned, no element of [lo]
    after it and every element of [hi] after it. *)
Lemma partition_spec n free pre mid post (fuel : nat) :
  mid <> [] ->
  (length mid <= S fuel)%nat ->
  Z.of_nat (length (pre ++ mid ++ post)) <= INT_MAX ->
  exists lo pv hi,
    partition fuel (Z.of_nat (S (length pre)))
      (Z.of_nat (length pre + length mid)) (array_cells n (pre ++ mid ++ post) free)
    = (array_cells n (pre ++ lo ++ pv :: hi ++ post) free,
       Returned (Some (Z.of_nat (S (length pre + length lo)))))
    /\ Forall (fun x => var_le x pv) lo
    /\ Forall (fun x => 0 < surgescript_var_compare x pv) hi
    /\ lo ++ pv :: hi ≡ₚ mid.
Proof.
  intros Hmid Hfuel Hmax.
  assert (exists e0, length mid = S e0) as [e0 He0].
  { destruct mid; [done|]. cbn [length]. eauto. }
  rewrite !length_app in Hmax.
  replace (length pre + length mid)%nat with (S (length pre + e0)) by lia.
  unfold partition.
  (* the three candidates for the pivot *)
  assert (uint32 (Z.of_nat (S (length pre))
                  + Z.quot (uint32 (Z.of_nat (S (length pre + e0)) - Z.of_nat (S (length pre)))) 2)
          = Z.of_nat (S (length pre + e0 / 2))) as ->.
  { unfold INT_MAX in Hmax.
    replace (Z.of_nat (S (length pre + e0)) - Z.of_nat (S (length pre))) with (Z.of_nat e0) by lia.
    rewrite (uint32_small (Z.of_nat e0)) by lia.
    rewrite Z.quot_div_nonneg by lia.
    change 2 with (Z.of_nat 2). rewrite <- (Nat2Z.inj_div e0 2).
    pose proof (Nat.Div0.div_le_upper_bound e0 2 e0 ltac:(lia)).
    rewrite uint32_small by lia. lia. }
  assert (forall t, (t <= e0)%nat ->
            exists v, mid !! t = Some v
                      /\ (pre ++ mid ++ post) !! (length pre + t)%nat = Some v) as Hin.
  { intros t Ht. destruct (lookup_lt_is_Some_2 mid t ltac:(lia)) as [v Hv].
    exists v. split; [done|].
    rewrite lookup_app_r by lia.
    replace (length pre + t - length pre)%nat with t by lia.
    by rewrite lookup_app_l by lia. }
  destruct (Hin 0%nat ltac:(lia)) as (va & _ & Hva).
  destruct (Hin (e0 / 2)%nat) as (vb & _ & Hvb).
  { apply Nat.Div0.div_le_upper_bound; lia. }
  destruct (Hin e0 ltac:(lia)) as (vc & Hmc & Hvc).
  rewrite Nat.add_0_r in Hva.
  destruct (med3_returns n (pre ++ mid ++ post) free (length pre) (length pre + e0 / 2) (length pre + e0)
              va vb vc Hva Hvb Hvc) as (m & Hmed & Hm).
  rewrite (heap_bind_returned _ _ _ _ _ Hmed).
  assert (exists m0, m = (length pre + m0)%nat /\ (m0 <= e0)%nat) as (m0 & -> & Hm0).
  { pose proof (Nat.Div0.div_le_upper_bound e0 2 e0 ltac:(lia)).
    destruct Hm as [-> | [-> | ->]];
      [exists 0%nat|exists (e0 / 2)%nat|exists e0]; split; lia. }
  destruct (Hin m0 Hm0) as (vm & Hmm & Hvm).
  rewrite (heap_bind_returned _ _ _ _ _
             (heap_swap_elements n _ free (length pre + e0) (length pre + m0) vc vm Hvc Hvm)).
  rewrite (swap_middle pre mid post e0 m0 vc vm Hmc Hmm).
  pose proof (swap_Permutation mid e0 m0 vc vm Hmc Hmm) as Hperm0.
  set (mid' := <[m0 := vc]> (<[e0 := vm]> mid)) in *.
  assert (length mid' = S e0) as Hlen' by (by rewrite (Permutation_length Hperm0)).
  destruct (exists_last (l := mid')) as (mid1 & pv & Hmid').
  { intros Hnil. by rewrite Hnil in Hlen'. }
  rewrite Hmid' in *. clearbody mid'. clear Hmid'.
  rewrite length_app in Hlen'. cbn [length] in Hlen'.
  (* the loop *)
  destruct (partition_loop_spec n free pv post mid1 pre [] fuel (length pre) (length pre) (length pre + e0)
              (pre ++ (mid1 ++ [pv]) ++ post))
    as (added & his' & Hrun & Hadded & Hhis' & Hperm);
    [ by rewrite <- !app_assoc | done | cbn [length]; lia | lia | lia
    | rewrite !length_app; cbn [length]; lia | done |].
  rewrite (heap_bind_returned _ _ _ _ _ Hrun).
  cbn [app] in Hperm.
  assert (length (added ++ his') = length mid1) as Hcount
    by (by rewrite (Permutation_length Hperm)).
  rewrite length_app in Hcount.
  (* the pivot goes to its place *)
  assert (((pre ++ added) ++ his' ++ pv :: post) !! (length pre + e0)%nat = Some pv)
    as Hpivot.
  { rewrite (app_assoc (pre ++ added)).
    apply list_lookup_middle. rewrite !length_app. lia. }
  destruct his' as [|h hs].
  - exists added, pv, [].
    assert (length (pre ++ added) = (length pre + e0)%nat) as Hp
      by (rewrite length_app; cbn [length] in Hcount; lia).
    rewrite Hp.
    rewrite (heap_bind_returned _ _ _ _ _
               (heap_swap_elements n _ free (length pre + e0) (length pre + e0) pv pv
                  Hpivot Hpivot)).
    rewrite list_insert_insert_eq, (list_insert_id _ _ _ Hpivot).
    unfold heap_ret. cbn [app]. rewrite <- !app_assoc.
    replace (length pre + length added)%nat with (length pre + e0)%nat
      by (cbn [length] in Hcount; lia).
    split; [done|]. split; [done|]. split; [done|].
    rewrite <- Hperm0, <- Hperm. by rewrite app_nil_r.
  - exists added, pv, (hs ++ [h]).
    assert (((pre ++ added) ++ (h :: hs) ++ pv :: post)
              !! length (pre ++ added) = Some h) as Hh
      by (by apply list_lookup_middle).
    rewrite (heap_bind_returned _ _ _ _ _
               (heap_swap_elements n _ free (length (pre ++ added)) (length pre + e0)
                  h pv Hh Hpivot)).
    cbn [length] in Hcount.
    replace (length pre + e0)%nat with (length (pre ++ added) + S (length hs))%nat
      by (rewrite length_app; lia).
    cbn [app]. rewrite (swap_apart (pre ++ added) hs post h pv).
    unfold heap_ret. rewrite length_app.
    rewrite <- !app_assoc. cbn [app].
    split; [done|]. split; [done|]. split.
    + apply Forall_cons in Hhis' as [Hh0 Hhs].
      apply Forall_app. split; [done|by constructor].
    + rewrite <- Hperm0, <- Hperm.
      rewrite <- app_assoc. apply Permutation_app_head. cbn [app].
      rewrite <- !Permutation_middle. apply perm_swap.
Qed.

(** [quicksort] on the part [mid] of the array sorts it in place. *)
Lemma quicksort_spec n free (fuel depth : nat) :
  compare_antisymmetric -> compare_transitive ->
  forall pre mid post,
    (length mid <= S depth)%nat ->
    (length mid <= S fuel)%nat ->
    Z.of_nat (length (pre ++ mid ++ post)) <= INT_MAX ->
    exists mid',
      quicksort depth fuel (Z.of_nat (S (length pre)))
        (Z.of_nat (length pre + length mid))
        (array_cells n (pre ++ mid ++ post) free)
      = (array_cells n (pre ++ mid' ++ post) free, Returned (Some tt))
      /\ mid' ≡ₚ mid /\ StronglySorted var_le mid'.
Proof.
  intros Hanti Htrans.
  assert (forall mid, (length mid <= 1)%nat -> StronglySorted var_le mid)
    as Hshort.
  { intros [|x [|y l]] Hl; cbn [length] in Hl; try lia; repeat constructor. }
  induction depth as [|depth IH]; intros pre mid post Hdepth Hfuel Hmax.
  - exists mid. cbn [quicksort].
    destruct (Z.ltb_spec (Z.of_nat (S (length pre)))
                (Z.of_nat (length pre + length mid))) as [Hlt|_]; [lia|].
    split; [done|]. split; [done|]. by apply Hshort.
  - cbn [quicksort].
    destruct (Z.ltb_spec (Z.of_nat (S (length pre)))
                (Z.of_nat (length pre + length mid))) as [Hlt|Hge].
    2: { exists mid. split; [done|]. split; [done|]. apply Hshort. lia. }
    destruct (partition_spec n free pre mid post fuel)
      as (lo & pv & hi & Hpart & Hlo & Hhi & Hperm); [|done|done|].
    { intros ->. cbn [length] in Hlt. lia. }
    rewrite (heap_bind_returned _ _ _ _ _ Hpart). cbn beta iota.
    pose proof (Permutation_length Hperm) as Hlen.
    rewrite length_app in Hlen. cbn [length] in Hlen.
    rewrite !length_app in Hmax. unfold INT_MAX in Hmax.
    replace (uint32 (Z.of_nat (S (length pre + length lo)) - 1))
      with (Z.of_nat (length pre + length lo))
      by (rewrite uint32_small; lia).
    (* heap[begin .. p-1] *)
    destruct (IH pre lo (pv :: hi ++ post))
      as (lo' & Hleft & Hpl & Hsl); [lia|lia| |].
    { rewrite !length_app. cbn [length]. rewrite length_app.
      unfold INT_MAX. lia. }
    rewrite (heap_bind_returned _ _ _ _ _ Hleft). cbn beta iota.
    pose proof (Permutation_length Hpl) as Hlenl.
    (* heap[p+1 .. end] *)
    replace (uint32 (Z.of_nat (S (length pre + length lo)) + 1))
      with (Z.of_nat (S (length (pre ++ lo' ++ [pv]))))
      by (rewrite uint32_small, !length_app; cbn [length]; lia).
    replace (Z.of_nat (length pre + length mid))
      with (Z.of_nat (length (pre ++ lo' ++ [pv]) + length hi))
      by (rewrite !length_app; cbn [length]; lia).
    replace (pre ++ lo' ++ pv :: hi ++ post)
      with ((pre ++ lo' ++ [pv]) ++ hi ++ post)
      by (by rewrite <- !app_assoc).
    destruct (IH (pre ++ lo' ++ [pv]) hi post)
      as (hi' & Hright & Hph & Hsh); [lia|lia| |].
    { rewrite !length_app. cbn [length]. unfold INT_MAX. lia. }
    rewrite Hright.
    exists (lo' ++ pv :: hi'). split; [by rewrite <- !app_assoc|].
    split; [by rewrite Hpl, Hph|].
    assert (Forall (fun x => var_le x pv) lo') as Hlo' by (by rewrite Hpl).
    assert (Forall (var_le pv) hi') as Hhi'.
    { rewrite Hph. eapply Forall_impl; [exact Hhi|].
      intros x Hx. cbn beta in Hx. apply Hanti. lia. }
    apply StronglySorted_app_2; [|done|].
    + intros x1 x2 Hx1 Hx2.
      pose proof (proj1 (Forall_forall _ _) Hlo' x1 Hx1) as H1.
      apply elem_of_cons in Hx2 as [->|Hx2]; [done|].
      apply (Htrans x1 pv x2 H1).
      exact (proj1 (Forall_forall _ _) Hhi' x2 Hx2).
    + by apply SSorted_cons.
Qed.

(** X12.  [med3] returns, of the three cells it is given, one that holds a
    median of the three values: one of the other two does not come after it
    and the last does not come before it.  The heap is left as it was. *)
Theorem med3_median n es free (ia ib ic : nat) va vb vc :
  compare_antisymmetric ->
  es !! ia = Some va -> es !! ib = Some vb -> es !! ic = Some vc ->
  exists (m x y : nat) vm vx vy,
    med3 (Z.of_nat (S ia)) (Z.of_nat (S ib)) (Z.of_nat (S ic))
      (array_cells n es free)
    = (array_cells n es free, Returned (Z.of_nat (S m)))
    /\ [(m, vm); (x, vx); (y, vy)] ≡ₚ [(ia, va); (ib, vb); (ic, vc)]
    /\ var_le vx vm /\ var_le vm vy.
Proof.
  intros Hanti Ha Hb Hc. unfold med3.
  rewrite (heap_bind_returned _ _ _ _ _ (heap_read_element n es free ia va Ha)).
  rewrite (heap_bind_returned _ _ _ _ _ (heap_read_element n es free ib vb Hb)).
  rewrite (heap_bind_returned _ _ _ _ _ (heap_read_element n es free ic vc Hc)).
  unfold heap_ret. cbn zeta.
  pose proof (Hanti va vb) as Hab. pose proof (Hanti vb va) as Hba.
  pose proof (Hanti vb vc) as Hbc. pose proof (Hanti vc vb) as Hcb.
  pose proof (Hanti va vc) as Hac. pose proof (Hanti vc va) as Hca.
  unfold var_le in *. rewrite !Z.geb_leb.
  destruct (Z.leb_spec 0 (surgescript_var_compare va vb)) as [Hab'|Hab'];
    destruct (Z.leb_spec 0 (surgescript_var_compare va vc)) as [Hac'|Hac'];
    destruct (Z.leb_spec 0 (surgescript_var_compare vb vc)) as [Hbc'|Hbc'];
    destruct (Z.leb_spec (surgescript_var_compare va vb) 0) as [Hab2|Hab2];
    cbn [andb];
    try lia;
    first
      [ exists ia, ib, ic, va, vb, vc;
        split; [reflexivity|split; [reflexivity|lia]]
      | exists ia, ic, ib, va, vc, vb;
        split; [reflexivity|split; [apply perm_skip, perm_swap|lia]]
      | exists ib, ia, ic, vb, va, vc;
        split; [reflexivity|split; [apply perm_swap|lia]]
      | exists ib, ic, ia, vb, vc, va;
        split; [reflexivity
               |split; [apply (Permutation_app_comm [(ib, vb); (ic, vc)] [(ia, va)])|lia]]
      | exists ic, ia, ib, vc, va, vb;
        split; [reflexivity
               |split; [apply (Permutation_app_comm [(ic, vc)] [(ia, va); (ib, vb)])|lia]]
      | exists ic, ib, ia, vc, vb, va;
        split; [reflexivity
               |split; [symmetry; apply (Permutation_rev [(ia, va); (ib, vb); (ic, vc)])|lia]] ].
Qed.

(** X13.  [partition] on the elements [mid] of an array (from address [begin]
    to address [end], both included): the address [ptr] returned is in
    [begin .. end], the elements are rearranged and nothing else changes, no
    element of [heap[begin .. ptr-1]] comes after [heap[ptr]] and every
    element of [heap[ptr+1 .. end]] does. *)
Theorem partition_places_pivot n free pre mid post (fuel : nat) :
  mid <> [] ->
  (length mid <= S fuel)%nat ->
  Z.of_nat (length (pre ++ mid ++ post)) <= INT_MAX ->
  exists lo pv hi,
    partition fuel (Z.of_nat (S (length pre)))
      (Z.of_nat (length pre + length mid))
      (array_cells n (pre ++ mid ++ post) free)
    = (array_cells n (pre ++ lo ++ pv :: hi ++ post) free,
       Returned (Some (Z.of_nat (S (length pre + length lo)))))
    /\ Forall (fun x => var_le x pv) lo
    /\ Forall (fun x => 0 < surgescript_var_compare x pv) hi
    /\ lo ++ pv :: hi ≡ₚ mid.
Proof. apply partition_spec. Qed.

(** X14.  [sort()] on an Array object whose comparison is a total preorder:
    the elements are rearranged into ascending order (each one is not after
    any later one), the stored length and the rest of the heap are left as
    they were.  A loop bound of the number of elements less one suffices. *)
Theorem sort_sorted_permutation es free (fuel : nat) :
  compare_antisymmetric -> compare_transitive ->
  Z.of_nat (length es) <= INT_MAX ->
  (length es <= S fuel)%nat ->
  exists es',
    fun_sort fuel (array_heap es free) = (array_heap es' free, Returned (Some tt))
    /\ es' ≡ₚ es /\ StronglySorted var_le es'.
Proof.
  intros Hanti Htrans Hmax Hfuel. unfold fun_sort, array_heap.
  rewrite (heap_bind_returned _ _ _ _ _ (array_length_read _ _ _)).
  rewrite int_wrap_small by (unfold INT_MAX in *; lia).
  destruct (quicksort_spec (Z.of_nat (length es)) free fuel fuel Hanti Htrans
              [] es []) as (es' & Hrun & Hperm & Hsorted); [done|done| |].
  { by rewrite app_nil_r. }
  rewrite !app_nil_r in Hrun. cbn [app length Nat.add] in Hrun.
  replace (uint32 (BASE_ADDR + Z.of_nat (length es) - 1))
    with (Z.of_nat (length es))
    by (unfold BASE_ADDR, INT_MAX in *; rewrite uint32_small; lia).
  change BASE_ADDR with (Z.of_nat 1). rewrite Hrun.
  exists es'. by rewrite (Permutation_length Hperm).
Qed.

End SortProperties.

(** The comparison of the closed instances is a total preorder. *)
Lemma number_compare_antisymmetric : @compare_antisymmetric number_compare.
Proof.
  intros a b. unfold var_le, surgescript_var_compare, number_compare.
  destruct (Z.compare_spec (surgescript_var_get_number a)
              (surgescript_var_get_number b));
    destruct (Z.compare_spec (surgescript_var_get_number b)
                (surgescript_var_get_number a)); lia.
Qed.

Lemma number_compare_transitive : @compare_transitive number_compare.
Proof.
  intros a b c. unfold var_le, surgescript_var_compare, number_compare.
  destruct (Z.compare_spec (surgescript_var_get_number a)
              (surgescript_var_get_number b));
    destruct (Z.compare_spec (surgescript_var_get_number b)
                (surgescript_var_get_number c));
    destruct (Z.compare_spec (surgescript_var_get_number a)
                (surgescript_var_get_number c)); lia.
Qed.


(** ** Native functions *)

Section NativeFunctionProperties.

Context {stack_t program objectmanager_t cfunction : Type}.
Context {hashlittle2_impl : hashlittle2_t}.
Context {cprogram_impl : cprogram_create_t program cfunction}.

Implicit Types vm : surgescript_vm_t stack_t program objectmanager_t.
Implicit Types methods : list (string * cfunction * Z).
Implicit Types c n : string.

Lemma vm_seq_ext {A B : Type} (m : vmM A) (k k' : vmM B) vm :
  (forall vm1, k vm1 = k' vm1) -> vm_seq m k vm = vm_seq m k' vm.
Proof.
  intros Hk. unfold vm_seq. destruct (m vm) as [vm1 [a|e]]; [apply Hk|done].
Qed.

Lemma vm_seq_ret (m : vmM unit) vm : vm_seq m (vm_ret tt) vm = m vm.
Proof. unfold vm_seq, vm_ret. by destruct (m vm) as [vm1 [[]|e]]. Qed.

(** What a call of [surgescript_vm_bind] that returns has done. *)
Lemma vm_bind_returned c n (cfun : cfunction) arity vm vm1 u :
  surgescript_vm_bind c n cfun arity vm = (vm1, Returned u) ->
  surgescript_programpool_put (vm_program_pool vm) c n
    (surgescript_cprogram_create arity cfun)
  = (vm_program_pool vm1, Returned true)
  /\ vm_stack vm1 = vm_stack vm
  /\ vm_object_manager vm1 = vm_object_manager vm.
Proof.
  unfold surgescript_vm_bind.
  destruct (surgescript_programpool_put (vm_program_pool vm) c n
              (surgescript_cprogram_create arity cfun))
    as [pool1 [b|e]] eqn:Hput; [|done].
  intros [= <- _]. simpl.
  by destruct (put_returned _ _ _ _ _ _ Hput) as (_ & -> & _).
Qed.

Lemma vm_bind_free c n (cfun : cfunction) arity vm :
  hash (vm_program_pool vm) !! generate_signature c n = None ->
  exists vm1, surgescript_vm_bind c n cfun arity vm = (vm1, Returned tt).
Proof.
  intros Hfree. unfold surgescript_vm_bind.
  destruct (put_free (vm_program_pool vm) c n
              (surgescript_cprogram_create arity cfun) Hfree) as [pool1 ->].
  eauto.
Qed.

Lemma vm_bind_duplicate c n (cfun : cfunction) arity vm :
  is_Some (hash (vm_program_pool vm) !! generate_signature c n) ->
  surgescript_vm_bind c n cfun arity vm = (vm, Fatal (DuplicateFunction n c)).
Proof.
  intros Hs%shallowcheck_true.
  unfold surgescript_vm_bind, surgescript_programpool_put. by rewrite Hs.
Qed.

(** A run of bindings whose signatures are free and pairwise different. *)
Lemma bind_all_spec c methods : forall vm,
  NoDup (method_signature c <$> methods) ->
  Forall (fun m => hash (vm_program_pool vm) !! method_signature c m = None)
    methods ->
  exists vm1,
    bind_all c methods vm = (vm1, Returned tt)
    /\ vm_stack vm1 = vm_stack vm
    /\ vm_object_manager vm1 = vm_object_manager vm
    /\ (forall m, m ∈ methods ->
          hash (vm_program_pool vm1) !! method_signature c m
          = Some (surgescript_cprogram_create m.2 m.1.2))
    /\ (forall k, k ∉ method_signature c <$> methods ->
          hash (vm_program_pool vm1) !! k = hash (vm_program_pool vm) !! k)
    /\ (forall c', program_names (vm_program_pool vm1) c'
          = if decide (c' = c)
            then program_names (vm_program_pool vm) c ++ methods.*1.*1
            else program_names (vm_program_pool vm) c').
Proof.
  induction methods as [|m methods IH]; intros vm Hdistinct Hfree.
  - exists vm. repeat split; try done.
    + by intros m Hm%elem_of_nil.
    + intros c'. case_decide; subst; [by rewrite app_nil_r | done].
  - rewrite fmap_cons in Hdistinct.
    apply NoDup_cons in Hdistinct as [Hm Hdistinct].
    apply Forall_cons in Hfree as [Hfm Hfree].
    destruct (vm_bind_free c m.1.1 m.1.2 m.2 vm Hfm) as [vm' Hbind].
    destruct (vm_bind_returned _ _ _ _ _ _ _ Hbind) as (Hput & Hst & Hom).
    apply put_returned in Hput as (_ & _ & Hhash & Hnames).
    destruct (IH vm' Hdistinct)
      as (vm1 & Hrun & Hst1 & Hom1 & Hin & Hout & Hnames1).
    { apply Forall_forall. intros m' Hm'.
      pose proof (proj1 (Forall_forall _ _) Hfree m' Hm') as Hnone.
      cbn beta in Hnone. rewrite Hhash.
      rewrite lookup_insert_ne; [done|].
      intros Heq. apply Hm. fold (method_signature c m) in Heq.
      rewrite Heq. by apply list_elem_of_fmap_2. }
    exists vm1. cbn [bind_all foldr]. unfold vm_seq at 1. rewrite Hbind.
    split; [exact Hrun|]. split; [congruence|]. split; [congruence|].
    split; [|split].
    + intros m0 [->|Hm0]%elem_of_cons; [|by apply Hin].
      rewrite (Hout _ Hm), Hhash. apply lookup_insert_eq.
    + intros k Hk. rewrite fmap_cons in Hk.
      apply not_elem_of_cons in Hk as [Hk1 Hk2].
      rewrite (Hout _ Hk2), Hhash. by rewrite lookup_insert_ne.
    + intros c'. rewrite Hnames1.
      case_decide as Hc; subst.
      * rewrite Hnames, decide_True by done.
        by rewrite !fmap_cons, <- app_assoc.
      * by rewrite Hnames, decide_False by done.
Qed.

(** A run of bindings that returns leaves every one of its signatures
    taken, and frees none. *)
Lemma bind_all_returned c methods : forall vm vm1 u,
  bind_all c methods vm = (vm1, Returned u) ->
  (forall k, is_Some (hash (vm_program_pool vm) !! k) ->
     is_Some (hash (vm_program_pool vm1) !! k))
  /\ (forall m, m ∈ methods ->
        is_Some (hash (vm_program_pool vm1) !! method_signature c m)).
Proof.
  induction methods as [|m methods IH]; intros vm vm1 u.
  - intros [= <- _]. split; [done|]. by intros m Hm%elem_of_nil.
  - cbn [bind_all foldr]. unfold vm_seq at 1.
    destruct (surgescript_vm_bind c m.1.1 m.1.2 m.2 vm)
      as [vm' [u'|e]] eqn:Hbind; [|done].
    intros Hrun. destruct (IH _ _ _ Hrun) as [Hmono Hin].
    destruct (vm_bind_returned _ _ _ _ _ _ _ Hbind) as (Hput & _ & _).
    apply put_returned in Hput as (_ & _ & Hhash & _).
    split.
    + intros k Hk. apply Hmono. rewrite Hhash.
      destruct (decide (k = generate_signature c m.1.1)) as [->|Hne].
      * rewrite lookup_insert_eq. eauto.
      * by rewrite lookup_insert_ne.
    + intros m0 [->|Hm0]%elem_of_cons; [|by apply Hin].
      apply Hmono. rewrite Hhash. unfold method_signature.
      rewrite lookup_insert_eq. eauto.
Qed.

End NativeFunctionProperties.

Section RegisterArrayProperties.

Context {stack_t program objectmanager_t : Type}.
Context {hashlittle2_impl : hashlittle2_t}.
Context {cprogram_impl : cprogram_create_t program array_cfunction}.

Implicit Types vm : surgescript_vm_t stack_t program objectmanager_t.

Lemma register_array_bind_all vm :
  surgescript_sslib_register_array vm = bind_all "Array" array_methods vm.
Proof.
  unfold surgescript_sslib_register_array, array_methods.
  cbn [bind_all foldr fst snd].
  do 12 (apply vm_seq_ext; intros ?).
  symmetry. apply vm_seq_ret.
Qed.

(** X15.  [surgescript_sslib_register_array] on a machine whose pool holds
    none of the signatures of the thirteen Array methods, these signatures
    being pairwise different: every binding succeeds; afterwards [get] finds,
    for each method, the native program made of its function and number of
    parameters; [foreach] on "Array" visits the methods in the order they
    were bound, after the names that were there; the entries under other
    signatures, the stack and the object manager are as before. *)
Theorem register_array_binds vm :
  NoDup (method_signature "Array" <$> array_methods) ->
  Forall (fun m =>
            surgescript_programpool_shallowcheck (vm_program_pool vm)
              "Array" m.1.1 = false) array_methods ->
  exists vm1,
    surgescript_sslib_register_array vm = (vm1, Returned tt)
    /\ vm_stack vm1 = vm_stack vm
    /\ vm_object_manager vm1 = vm_object_manager vm
    /\ (forall fun_name cfun num_params,
          (fun_name, cfun, num_params) ∈ array_methods ->
          surgescript_programpool_get (vm_program_pool vm1) "Array" fun_name
          = Some (surgescript_cprogram_create num_params cfun))
    /\ visited_names (vm_program_pool vm1) "Array"
       = visited_names (vm_program_pool vm) "Array" ++ array_methods.*1.*1
    /\ (forall k, k ∉ method_signature "Array" <$> array_methods ->
          find_item_by_signature (vm_program_pool vm1) k
          = find_item_by_signature (vm_program_pool vm) k).
Proof.
  intros Hdistinct Hfree.
  destruct (bind_all_spec "Array" array_methods vm Hdistinct)
    as (vm1 & Hrun & Hst & Hom & Hin & Hout & Hnames).
  { eapply Forall_impl; [exact Hfree|].
    intros m Hm. by apply shallowcheck_false in Hm. }
  exists vm1. rewrite register_array_bind_all.
  split; [done|]. split; [done|]. split; [done|]. split; [|split].
  - intros fun_name cfun num_params Hm.
    rewrite get_unfold.
    change (generate_signature "Array" fun_name)
      with (method_signature "Array" (fun_name, cfun, num_params)).
    by rewrite (Hin (fun_name, cfun, num_params) Hm).
  - rewrite !visited_program_names, Hnames. by rewrite decide_True.
  - exact Hout.
Qed.

(** X16.  Registering the Array methods a second time stops the process:
    after a call of [surgescript_sslib_register_array] that returned, another
    call on the machine it left is fatal at its first binding, with
    duplicate function "__constructor" in object "Array", and binds
    nothing. *)
Theorem register_array_twice_fatal vm vm1 :
  surgescript_sslib_register_array vm = (vm1, Returned tt) ->
  surgescript_sslib_register_array vm1
  = (vm1, Fatal (DuplicateFunction "__constructor" "Array")).
Proof.
  rewrite register_array_bind_all. intros Hrun.
  destruct (bind_all_returned _ _ _ _ _ Hrun) as [_ Hin].
  specialize (Hin ("__constructor", cfun_constructor, 0)).
  unfold surgescript_sslib_register_array, vm_seq at 1.
  rewrite vm_bind_duplicate; [done|].
  apply Hin. unfold array_methods. apply elem_of_cons. by left.
Qed.

End RegisterArrayProperties.

(** ** More of the program pool *)

Section PoolFrameProperties.

Context {program : Type}.
Context {hashlittle2_impl : hashlittle2_t}.

Implicit Types pool : surgescript_programpool_t program.
Implicit Types c n : string.

Lemma find_program_name_last names n i0 :
  n ∉ names ->
  find_program_name (names ++ [n]) n i0 = Some (i0 + length names)%nat.
Proof.
  revert i0. induction names as [|x names IH]; intros i0 Hn; simpl.
  - rewrite decide_True by done. f_equal. lia.
  - apply not_elem_of_cons in Hn as [Hx Hrest].
    rewrite decide_False by done. rewrite IH by done. f_equal. lia.
Qed.

Lemma is_compiled_names pool c :
  surgescript_programpool_is_compiled pool c
  = bool_decide (0 < length (program_names pool c))%nat.
Proof.
  unfold surgescript_programpool_is_compiled, program_names.
  destruct (meta pool !! c); [done|].
  symmetry. apply bool_decide_eq_false. simpl. lia.
Qed.

Lemma get_hash pool pool' :
  hash pool' = hash pool ->
  forall c n, surgescript_programpool_get pool' c n
              = surgescript_programpool_get pool c n.
Proof. intros Hh c n. by rewrite !get_unfold, Hh. Qed.

Lemma purge_meta pool c :
  meta (surgescript_programpool_purge pool c) = delete c (meta pool).
Proof.
  unfold surgescript_programpool_purge, surgescript_programpool_foreach_ex,
    traverse_metadata, remove_object_metadata.
  destruct (meta pool !! c) as [m|] eqn:Hm.
  - destruct (delete_programs_spec c m pool) as [Hmeta _].
    cbn zeta in Hmeta.
    change (foldl _ pool m)
      with (foldl (fun s program_name => delete_program c program_name s)
              pool m).
    by rewrite Hmeta, Hm.
  - rewrite Hm. symmetry. by apply delete_id.
Qed.

(** X17.  [purge(c)] touches nothing but the class [c]: the names and
    [is_compiled] of every other class are as before, and so is the entry
    under every signature that is not the signature of a name the class
    index lists for [c]; on a class the pool has no index for, [purge]
    changes nothing. *)
Theorem purge_frame pool c :
  (forall c', c' <> c ->
     program_names (surgescript_programpool_purge pool c) c'
     = program_names pool c'
     /\ surgescript_programpool_is_compiled
          (surgescript_programpool_purge pool c) c'
        = surgescript_programpool_is_compiled pool c')
  /\ (forall k, k ∉ generate_signature c <$> program_names pool c ->
        find_item_by_signature (surgescript_programpool_purge pool c) k
        = find_item_by_signature pool k)
  /\ (meta pool !! c = None -> surgescript_programpool_purge pool c = pool).
Proof.
  split; [|split].
  - intros c' Hc.
    assert (program_names (surgescript_programpool_purge pool c) c'
            = program_names pool c') as Hnames.
    { unfold program_names. by rewrite purge_meta, lookup_delete_ne. }
    split; [done|]. by rewrite !is_compiled_names, Hnames.
  - intros k Hk. unfold find_item_by_signature.
    rewrite purge_lookup. by rewrite decide_False.
  - intros Hm.
    unfold surgescript_programpool_purge, surgescript_programpool_foreach_ex,
      traverse_metadata, remove_object_metadata.
    by rewrite Hm, Hm.
Qed.

(** X18.  A [put(c, n, p)] that succeeds, followed by [delete(c, n)], leaves
    the pool as it was for every observer, [n] not being listed for [c]
    before: the registry is the same (so [get] and [shallowcheck] answer as
    before), and so are the names and [is_compiled] of every class. *)
Theorem put_delete_roundtrip pool c n p pool' b :
  surgescript_programpool_put pool c n p = (pool', Returned b) ->
  n ∉ program_names pool c ->
  hash (surgescript_programpool_delete pool' c n) = hash pool
  /\ (forall c' n',
        surgescript_programpool_get (surgescript_programpool_delete pool' c n)
          c' n'
        = surgescript_programpool_get pool c' n')
  /\ (forall c',
        program_names (surgescript_programpool_delete pool' c n) c'
        = program_names pool c')
  /\ (forall c',
        surgescript_programpool_is_compiled
          (surgescript_programpool_delete pool' c n) c'
        = surgescript_programpool_is_compiled pool c').
Proof.
  intros (Hfree & _ & Hhash & Hnames)%put_returned Hn.
  assert (hash (surgescript_programpool_delete pool' c n) = hash pool)
    as Hh.
  { rewrite delete_hash, Hhash. by apply delete_insert_id. }
  assert (forall c',
            program_names (surgescript_programpool_delete pool' c n) c'
            = program_names pool c') as Hsame.
  { intros c'. specialize (Hnames c) as Hc.
    rewrite decide_True in Hc by done.
    unfold surgescript_programpool_delete, find_item_by_signature.
    rewrite Hhash, lookup_insert_eq.
    unfold remove_metadata. cbn [meta].
    unfold program_names in Hc |- *.
    destruct (meta pool' !! c) as [m|] eqn:Hm; simpl in Hc.
    2: { by destruct (default [] (meta pool !! c)). }
    rewrite Hc, find_program_name_last by exact Hn.
    cbn [meta]. destruct (decide (c' = c)) as [->|Hne].
    - rewrite lookup_insert_eq. simpl. unfold ssarray_remove.
      rewrite take_app_length.
      rewrite drop_ge by (rewrite length_app; cbn [length]; lia).
      apply app_nil_r.
    - rewrite lookup_insert_ne by done.
      specialize (Hnames c'). rewrite decide_False in Hnames by done.
      exact Hnames. }
  split; [done|]. split; [by apply get_hash|]. split; [done|].
  intros c'. by rewrite !is_compiled_names, Hsame.
Qed.

(** X19.  The registry is keyed by the signature alone, and nothing in the
    pool checks that two pairs have different signatures: whatever
    [hashlittle2] is, there are two different names [a] and [b] such that,
    once [put(a, b, p)] has succeeded on the empty pool, [put(b, a, q)] is
    fatal (duplicate function [a] in object [b]), and [get(b, a)] returns
    [p]. *)
Theorem aliased_put_rejected (p q : program) :
  exists a b : string,
    a <> b
    /\ exists pool1,
         surgescript_programpool_put surgescript_programpool_create a b p
         = (pool1, Returned true)
         /\ surgescript_programpool_put pool1 b a q
            = (pool1, Fatal (DuplicateFunction a b))
         /\ surgescript_programpool_get pool1 b a = Some p
         /\ surgescript_programpool_shallowcheck pool1 b a = true.
Proof.
  destruct (@swapped_signatures_collide hashlittle2_impl)
    as (a & b & Hne & _ & _ & Heq).
  exists a, b. split; [done|].
  destruct (put_free surgescript_programpool_create a b p) as [pool1 Hput];
    [done|].
  exists pool1. split; [done|].
  apply put_returned in Hput as (_ & _ & Hhash & _).
  assert (hash pool1 !! generate_signature b a = Some p) as Hs
    by (by rewrite <- Heq, Hhash, lookup_insert_eq).
  assert (surgescript_programpool_shallowcheck pool1 b a = true) as Hcheck
    by (apply shallowcheck_true; eauto).
  split; [|split; [|done]].
  - unfold surgescript_programpool_put. by rewrite Hcheck.
  - by rewrite get_unfold, Hs.
Qed.

End PoolFrameProperties.

(** ** The pool against the registry of the spec *)

Section RegistryProperties.

Context {program : Type}.

Implicit Types reg : list (string * string * program).
Implicit Types c n : string.

Lemma registered_None reg c n :
  registered reg c n = None <-> (c, n) ∉ reg.*1.
Proof.
  induction reg as [|e reg IH]; cbn [registered].
  - split; [intros _; apply not_elem_of_nil | done].
  - rewrite fmap_cons, not_elem_of_cons.
    destruct (decide (e.1 = (c, n))) as [He|He].
    + split; [done|]. intros [Hne _]. by destruct Hne.
    + rewrite IH. split; [intros ?; split; [congruence|done] | by intros [_ ?]].
Qed.

Lemma registered_is_Some reg c n :
  is_Some (registered reg c n) <-> (c, n) ∈ reg.*1.
Proof.
  split.
  - intros [p Hp]. destruct (decide ((c, n) ∈ reg.*1)) as [|Hn]; [done|].
    apply registered_None in Hn. congruence.
  - intros Hin. destruct (registered reg c n) eqn:Hr; [eauto|].
    by apply registered_None in Hr.
Qed.

Lemma registered_app reg e c n :
  registered (reg ++ [e]) c n
  = match registered reg c n with
    | Some p => Some p
    | None => if decide (e.1 = (c, n)) then Some e.2 else None
    end.
Proof.
  induction reg as [|e' reg IH]; simpl; [done|].
  by destruct (decide (e'.1 = (c, n))).
Qed.

Lemma registered_update_eq reg c n p q :
  registered reg c n = Some q ->
  registered ((fun e => if decide (e.1 = (c, n)) then ((c, n), p) else e)
                <$> reg) c n = Some p.
Proof.
  induction reg as [|e reg IH]; [done|]. cbn [registered fmap list_fmap].
  destruct (decide (e.1 = (c, n))) as [He|He]; simpl.
  - by rewrite decide_True.
  - rewrite decide_False by done. exact IH.
Qed.

Lemma registered_update_ne reg c n p c' n' :
  (c', n') <> (c, n) ->
  registered ((fun e => if decide (e.1 = (c, n)) then ((c, n), p) else e)
                <$> reg) c' n' = registered reg c' n'.
Proof.
  intros Hne. induction reg as [|e reg IH]; [done|].
  cbn [registered fmap list_fmap].
  destruct (decide (e.1 = (c, n))) as [He|He]; simpl.
  - rewrite decide_False by congruence.
    rewrite decide_False by congruence. exact IH.
  - by rewrite IH.
Qed.

Lemma update_keys reg c n p :
  ((fun e => if decide (e.1 = (c, n)) then ((c, n), p) else e) <$> reg).*1
  = reg.*1.
Proof.
  induction reg as [|e reg IH]; [done|]. rewrite !fmap_cons, IH. f_equal.
  by destruct (decide (e.1 = (c, n))).
Qed.

Lemma registered_delete_eq reg c n :
  registered (spec_delete reg c n) c n = None.
Proof.
  apply registered_None. unfold spec_delete.
  intros (e & He & [Hne _]%list_elem_of_filter)%list_elem_of_fmap.
  by apply Hne.
Qed.

Lemma registered_delete_ne reg c n c' n' :
  (c', n') <> (c, n) ->
  registered (spec_delete reg c n) c' n' = registered reg c' n'.
Proof.
  intros Hne. unfold spec_delete.
  induction reg as [|e reg IH]; [done|].
  rewrite filter_cons. cbn [registered].
  destruct (decide (e.1 <> (c, n))) as [He|He]; cbn [registered].
  - by rewrite IH.
  - rewrite decide_False; [done|]. intros Heq. apply He. by rewrite Heq.
Qed.

Lemma registered_purge_eq reg c n :
  registered (spec_purge reg c) c n = None.
Proof.
  apply registered_None. unfold spec_purge.
  intros (e & He & [Hne _]%list_elem_of_filter)%list_elem_of_fmap.
  apply Hne. by rewrite <- He.
Qed.

Lemma registered_purge_ne reg c c' n' :
  c' <> c ->
  registered (spec_purge reg c) c' n' = registered reg c' n'.
Proof.
  intros Hne. unfold spec_purge.
  induction reg as [|e reg IH]; [done|].
  rewrite filter_cons. cbn [registered].
  destruct (decide (e.1.1 <> c)) as [He|He]; cbn [registered].
  - by rewrite IH.
  - rewrite decide_False; [done|]. intros Heq. apply He. rewrite Heq.
    by simpl.
Qed.

Lemma elem_of_spec_names reg c n :
  n ∈ spec_names reg c <-> (c, n) ∈ reg.*1.
Proof.
  unfold spec_names. rewrite !list_elem_of_fmap. split.
  - intros (e & -> & [Hc Hin]%list_elem_of_filter). exists e. split; [|done].
    destruct e as [[c0 n0] p]. simpl in *. by subst.
  - intros (e & He & Hin). exists e. rewrite list_elem_of_filter.
    destruct e as [[c0 n0] p]. simpl in *. by injection He as -> ->.
Qed.

Lemma spec_names_app reg e c :
  spec_names (reg ++ [e]) c
  = spec_names reg c ++ (if decide (e.1.1 = c) then [e.1.2] else []).
Proof.
  unfold spec_names. rewrite filter_app, fmap_app. f_equal.
  rewrite filter_cons, filter_nil. by destruct (decide (e.1.1 = c)).
Qed.

Lemma spec_names_update reg c n p c' :
  spec_names ((fun e => if decide (e.1 = (c, n)) then ((c, n), p) else e)
                <$> reg) c' = spec_names reg c'.
Proof.
  unfold spec_names. induction reg as [|e reg IH]; [done|].
  rewrite fmap_cons, !filter_cons.
  destruct e as [[c0 n0] p0]. cbn [fst].
  destruct (decide ((c0, n0) = (c, n))) as [[= -> ->]|He]; cbn [fst snd].
  - destruct (decide (c = c')); by rewrite ?fmap_cons, IH.
  - destruct (decide (c0 = c')); by rewrite ?fmap_cons, IH.
Qed.

Lemma filter_ne_id (names : list string) n :
  n ∉ names -> filter (fun x => x <> n) names = names.
Proof.
  induction names as [|x names IH]; [done|].
  intros [Hx Hn]%not_elem_of_cons.
  rewrite filter_cons, decide_True by done. by rewrite IH.
Qed.

Lemma spec_names_delete_eq reg c n :
  spec_names (spec_delete reg c n) c
  = filter (fun x => x <> n) (spec_names reg c).
Proof.
  unfold spec_names, spec_delete. induction reg as [|e reg IH]; [done|].
  destruct e as [[c0 n0] p0]. rewrite !filter_cons. cbn [fst snd].
  destruct (decide ((c0, n0) <> (c, n))) as [He|He];
    destruct (decide (c0 = c)) as [->|Hc].
  - rewrite filter_cons, decide_True by done.
    rewrite !fmap_cons, filter_cons. cbn [fst snd].
    rewrite decide_True by (by intros ->). by rewrite IH.
  - rewrite filter_cons, decide_False by done. exact IH.
  - rewrite fmap_cons, filter_cons. cbn [fst snd].
    rewrite decide_False; [exact IH|].
    intros Hn. apply He. intros [= ->]. done.
  - exact IH.
Qed.

Lemma spec_names_delete_ne reg c n c' :
  c' <> c -> spec_names (spec_delete reg c n) c' = spec_names reg c'.
Proof.
  intros Hne. unfold spec_names, spec_delete.
  induction reg as [|e reg IH]; [done|].
  destruct e as [[c0 n0] p0]. rewrite !filter_cons. cbn [fst snd].
  destruct (decide ((c0, n0) <> (c, n))) as [He|He];
    destruct (decide (c0 = c')) as [->|Hc].
  - rewrite filter_cons, decide_True by done. by rewrite !fmap_cons, IH.
  - rewrite filter_cons, decide_False by done. exact IH.
  - exfalso. apply He. by intros [= -> _].
  - exact IH.
Qed.

Lemma spec_names_purge_eq reg c : spec_names (spec_purge reg c) c = [].
Proof.
  unfold spec_names, spec_purge. induction reg as [|e reg IH]; [done|].
  rewrite filter_cons. destruct (decide (e.1.1 <> c)) as [He|He]; [|done].
  by rewrite filter_cons, decide_False.
Qed.

Lemma spec_names_purge_ne reg c c' :
  c' <> c -> spec_names (spec_purge reg c) c' = spec_names reg c'.
Proof.
  intros Hne. unfold spec_names, spec_purge.
  induction reg as [|e reg IH]; [done|].
  rewrite !filter_cons.
  destruct (decide (e.1.1 <> c)) as [He|He];
    destruct (decide (e.1.1 = c')) as [Hc|Hc].
  - rewrite filter_cons, decide_True by done. by rewrite !fmap_cons, IH.
  - rewrite filter_cons, decide_False by done. exact IH.
  - exfalso. apply He. by rewrite Hc.
  - exact IH.
Qed.

Lemma NoDup_spec_names reg c : NoDup reg.*1 -> NoDup (spec_names reg c).
Proof.
  induction reg as [|e reg IH]; [intros _; apply NoDup_nil_2|].
  rewrite fmap_cons. intros [He Hnd]%NoDup_cons.
  unfold spec_names. rewrite filter_cons.
  destruct (decide (e.1.1 = c)) as [Hc|Hc]; [|by apply IH].
  rewrite fmap_cons. apply NoDup_cons. split; [|by apply IH].
  intros Hin%elem_of_spec_names. apply He.
  destruct e as [[c0 n0] p0]. simpl in *. by subst.
Qed.

Lemma NoDup_filter_keys (P : string * string * program -> Prop)
    `{!forall e, Decision (P e)} reg :
  NoDup reg.*1 -> NoDup (filter P reg).*1.
Proof.
  intros Hnd. apply (sublist_NoDup _ _ Hnd).
  apply fmap_sublist, sublist_filter.
Qed.

End RegistryProperties.

Section PoolRefinement.

Context {program : Type}.
Context {hashlittle2_impl : hashlittle2_t}.

Implicit Types pool : surgescript_programpool_t program.
Implicit Types reg : list (string * string * program).
Implicit Types c n : string.
Implicit Types keys : list (string * string).

(** The loop of [remove_metadata] stops at the first occurrence of the
    name; in a sequence that holds no name twice, removing it there removes
    the name. *)
Lemma find_program_name_remove (names : list string) n : forall i0,
  NoDup names ->
  match find_program_name names n i0 with
  | Some i =>
      (i0 <= i)%nat
      /\ ssarray_remove names (i - i0) = filter (fun x => x <> n) names
  | None => names = filter (fun x => x <> n) names
  end.
Proof.
  induction names as [|x names IH]; intros i0 Hnd; cbn [find_program_name].
  - done.
  - apply NoDup_cons in Hnd as [Hx Hnd]. rewrite filter_cons.
    destruct (decide (x = n)) as [->|Hne].
    + rewrite decide_False by (by intros ?). split; [lia|].
      rewrite Nat.sub_diag. unfold ssarray_remove. cbn [take drop app].
      by rewrite filter_ne_id.
    + rewrite decide_True by done.
      specialize (IH (S i0) Hnd).
      destruct (find_program_name names n (S i0)) as [i|].
      * destruct IH as [Hle Hrm]. split; [lia|].
        replace (i - i0)%nat with (S (i - S i0)) by lia.
        unfold ssarray_remove in *. cbn [take drop app]. by rewrite Hrm.
      * by rewrite <- IH.
Qed.

Lemma delete_names pool c n c' :
  NoDup (program_names pool c) ->
  program_names (surgescript_programpool_delete pool c n) c'
  = if decide (c' = c) then filter (fun x => x <> n) (program_names pool c)
    else program_names pool c'.
Proof.
  intros Hnd. unfold surgescript_programpool_delete.
  set (pool1 := match find_item_by_signature pool (generate_signature c n) with
                | Some _ => _
                | None => pool
                end).
  assert (meta pool1 = meta pool) as Hmeta
    by (unfold pool1; by destruct (find_item_by_signature _ _)).
  unfold remove_metadata, program_names in *. rewrite Hmeta.
  destruct (meta pool !! c) as [m|] eqn:Hm; cbn [default from_option id] in *.
  - pose proof (find_program_name_remove m n 0 Hnd) as Hrm.
    destruct (find_program_name m n 0) as [i|].
    + destruct Hrm as [_ Hrm]. rewrite Nat.sub_0_r in Hrm. cbn [meta].
      case_decide as Hc; subst.
      * by rewrite lookup_insert_eq, Hrm.
      * by rewrite ?Hmeta, lookup_insert_ne.
    + rewrite ?Hmeta. case_decide as Hc; subst; [|done].
      by rewrite Hm, <- Hrm.
  - rewrite ?Hmeta. case_decide as Hc; subst; [|done]. by rewrite Hm.
Qed.

Lemma purge_names pool c c' :
  program_names (surgescript_programpool_purge pool c) c'
  = if decide (c' = c) then [] else program_names pool c'.
Proof.
  unfold program_names. rewrite purge_meta.
  case_decide as Hc; subst.
  - by rewrite lookup_delete_eq.
  - by rewrite lookup_delete_ne.
Qed.

Lemma ops_keys_cons (op : @pool_op program) ops :
  ops_keys (op :: ops) = op_keys op ++ ops_keys ops.
Proof. reflexivity. Qed.

(** The new pool holds the empty registry. *)
Lemma refines_create keys :
  refines keys (@surgescript_programpool_create program) [].
Proof.
  repeat split.
  - intros e He. by apply elem_of_nil in He.
  - apply NoDup_nil_2.
Qed.

Lemma refines_put keys pool reg c n p :
  signatures_distinct keys -> (c, n) ∈ keys -> refines keys pool reg ->
  exists pool',
    run_op pool (OpPut c n p) = (pool', (spec_put reg c n p).2)
    /\ refines keys pool' (spec_put reg c n p).1.
Proof.
  intros Hd Hkey (Hhash & Hnames & Hin & Hnd).
  unfold spec_put. cbn [run_op].
  pose proof (Hhash c n Hkey) as Hcn.
  destruct (registered reg c n) as [old|] eqn:Hreg.
  - exists pool. split; [|done].
    unfold surgescript_programpool_put.
    rewrite (proj2 (shallowcheck_true pool c n)) by (rewrite Hcn; eauto).
    done.
  - destruct (put_free pool c n p Hcn) as [pool' Hput]. rewrite Hput.
    exists pool'. split; [done|]. cbn [fst].
    apply put_returned in Hput as (_ & _ & Hh & Hn).
    split; [|split; [|split]].
    + intros c' n' Hkey'. rewrite Hh, registered_app.
      destruct (decide (generate_signature c' n' = generate_signature c n))
        as [Heq|Hne].
      * apply (signatures_distinct_inj keys _ _ _ _ Hd Hkey' Hkey) in Heq.
        injection Heq as -> ->.
        by rewrite lookup_insert_eq, Hreg, decide_True.
      * rewrite lookup_insert_ne by done. rewrite Hhash by done.
        destruct (registered reg c' n'); [done|].
        rewrite decide_False; [done|]. cbn [fst]. by intros [= -> ->].
    + intros c'. rewrite Hn, spec_names_app. cbn [fst snd].
      rewrite !Hnames.
      destruct (decide (c' = c)) as [->|Hne].
      * by rewrite decide_True.
      * rewrite decide_False by done. by rewrite app_nil_r.
    + intros e [He| ->%list_elem_of_singleton]%elem_of_app; [by apply Hin|done].
    + rewrite fmap_app. apply NoDup_app. split; [done|]. split.
      * intros k Hk [= ->]%list_elem_of_singleton.
        by apply registered_None in Hreg.
      * apply NoDup_singleton.
Qed.

Lemma refines_replace keys pool reg c n p :
  signatures_distinct keys -> (c, n) ∈ keys -> refines keys pool reg ->
  exists pool',
    run_op pool (OpReplace c n p) = (pool', Returned tt)
    /\ refines keys pool' (spec_replace reg c n p).
Proof.
  intros Hd Hkey Href.
  pose proof Href as (Hhash & Hnames & Hin & Hnd).
  unfold spec_replace. cbn [run_op]. rewrite replace_unfold.
  pose proof (Hhash c n Hkey) as Hcn.
  destruct (registered reg c n) as [old|] eqn:Hreg.
  - rewrite Hcn. eexists. split; [reflexivity|].
    split; [|split; [|split]].
    + intros c' n' Hkey'. cbn [hash].
      destruct (decide (generate_signature c' n' = generate_signature c n))
        as [Heq|Hne].
      * apply (signatures_distinct_inj keys _ _ _ _ Hd Hkey' Hkey) in Heq.
        injection Heq as -> ->.
        rewrite lookup_insert_eq. symmetry.
        by apply (registered_update_eq reg c n p old).
      * rewrite lookup_insert_ne by done. rewrite Hhash by done.
        symmetry. apply registered_update_ne. by intros [= -> ->].
    + intros c'. rewrite spec_names_update. apply Hnames.
    + intros e (e0 & -> & He0)%list_elem_of_fmap.
      destruct (decide (e0.1 = (c, n))); [done|by apply Hin].
    + by rewrite update_keys.
  - rewrite Hcn.
    destruct (refines_put keys pool reg c n p Hd Hkey Href)
      as (pool' & Hrun & Href').
    unfold spec_put in Hrun, Href'. rewrite Hreg in Hrun, Href'.
    cbn [run_op fst snd] in Hrun, Href'.
    exists pool'. split; [|done].
    destruct (surgescript_programpool_put pool c n p) as [pool1 [b|e]];
      by injection Hrun as ->.
Qed.

Lemma refines_delete keys pool reg c n :
  signatures_distinct keys -> (c, n) ∈ keys -> refines keys pool reg ->
  refines keys (surgescript_programpool_delete pool c n) (spec_delete reg c n).
Proof.
  intros Hd Hkey (Hhash & Hnames & Hin & Hnd).
  split; [|split; [|split]].
  - intros c' n' Hkey'. rewrite delete_hash.
    destruct (decide (generate_signature c' n' = generate_signature c n))
      as [Heq|Hne].
    + apply (signatures_distinct_inj keys _ _ _ _ Hd Hkey' Hkey) in Heq.
      injection Heq as -> ->.
      by rewrite lookup_delete_eq, registered_delete_eq.
    + rewrite lookup_delete_ne by done. rewrite Hhash by done.
      symmetry. apply registered_delete_ne. by intros [= -> ->].
  - intros c'. rewrite delete_names
      by (rewrite Hnames; by apply NoDup_spec_names).
    case_decide as Hc; subst.
    + by rewrite Hnames, spec_names_delete_eq.
    + by rewrite Hnames, spec_names_delete_ne.
  - intros e [_ He]%list_elem_of_filter. by apply Hin.
  - by apply NoDup_filter_keys.
Qed.

Lemma refines_purge keys pool reg c :
  signatures_distinct keys -> refines keys pool reg ->
  refines keys (surgescript_programpool_purge pool c) (spec_purge reg c).
Proof.
  intros Hd (Hhash & Hnames & Hin & Hnd).
  split; [|split; [|split]].
  - intros c' n' Hkey'. rewrite purge_lookup.
    destruct (decide (generate_signature c' n'
                        ∈ generate_signature c <$> program_names pool c))
      as [Hk|Hk].
    + apply list_elem_of_fmap in Hk as (n0 & Heq & Hn0).
      rewrite Hnames in Hn0. apply elem_of_spec_names in Hn0.
      apply list_elem_of_fmap in Hn0 as (e & He & Hein).
      assert ((c, n0) ∈ keys) as Hkey0 by (rewrite He; by apply Hin).
      apply (signatures_distinct_inj keys _ _ _ _ Hd Hkey' Hkey0) in Heq.
      injection Heq as -> ->. by rewrite registered_purge_eq.
    + rewrite Hhash by done.
      destruct (decide (c' = c)) as [->|Hne].
      * rewrite registered_purge_eq.
        destruct (registered reg c n') as [p|] eqn:Hreg; [|done].
        exfalso. apply Hk. apply list_elem_of_fmap_2.
        rewrite Hnames. apply elem_of_spec_names, registered_is_Some. eauto.
      * by rewrite registered_purge_ne.
  - intros c'. rewrite purge_names.
    case_decide as Hc; subst.
    + by rewrite spec_names_purge_eq.
    + by rewrite Hnames, spec_names_purge_ne.
  - intros e [_ He]%list_elem_of_filter. by apply Hin.
  - by apply NoDup_filter_keys.
Qed.

(** One call: the pool and the registry of the spec agree on whether the
    call returns, and the pool it leaves holds the registry it leaves. *)
Lemma refines_op keys pool reg (op : pool_op) :
  signatures_distinct keys ->
  (forall k, k ∈ op_keys op -> k ∈ keys) ->
  refines keys pool reg ->
  exists pool',
    run_op pool op = (pool', (spec_op reg op).2)
    /\ refines keys pool' (spec_op reg op).1.
Proof.
  intros Hd Hkeys Href.
  destruct op as [c n p|c n p|c n|c]; cbn [spec_op].
  - apply refines_put; [done| |done]. apply Hkeys, list_elem_of_here.
  - apply refines_replace; [done| |done]. apply Hkeys, list_elem_of_here.
  - eexists. split; [reflexivity|].
    apply refines_delete; [done| |done]. apply Hkeys, list_elem_of_here.
  - eexists. split; [reflexivity|]. by apply refines_purge.
Qed.

Lemma refines_ops keys (ops : list pool_op) : forall pool reg,
  signatures_distinct keys ->
  (forall k, k ∈ ops_keys ops -> k ∈ keys) ->
  refines keys pool reg ->
  exists pool',
    run_ops pool ops = (pool', (spec_ops reg ops).2)
    /\ ((spec_ops reg ops).2 = Returned tt ->
        refines keys pool' (spec_ops reg ops).1).
Proof.
  induction ops as [|op ops IH]; intros pool reg Hd Hkeys Href.
  - exists pool. by split.
  - cbn [run_ops spec_ops].
    destruct (refines_op keys pool reg op Hd) as (pool1 & Hrun & Href1);
      [|done|].
    { intros k Hk. apply Hkeys. rewrite ops_keys_cons.
      apply elem_of_app. by left. }
    rewrite Hrun.
    destruct (spec_op reg op) as [reg1 [[]|e]]; cbn [fst snd] in *.
    + apply IH; [done| |done].
      intros k Hk. apply Hkeys. rewrite ops_keys_cons.
      apply elem_of_app. by right.
    + exists pool1. split; [done|]. intros [=].
Qed.

(** A run from the new pool that returns: the pool holds the registry the
    spec describes. *)
Lemma run_ops_refines keys (ops : list pool_op) pool :
  signatures_distinct keys ->
  (forall k, k ∈ ops_keys ops -> k ∈ keys) ->
  run_ops surgescript_programpool_create ops = (pool, Returned tt) ->
  (spec_ops [] ops).2 = Returned tt
  /\ refines keys pool (spec_registry ops).
Proof.
  intros Hd Hkeys Hrun.
  destruct (refines_ops keys ops surgescript_programpool_create [] Hd Hkeys
              (refines_create keys)) as (pool' & Hrun' & Href).
  rewrite Hrun in Hrun'. injection Hrun' as <- Hout.
  split; [done|]. by apply Href.
Qed.

Lemma refines_get keys pool reg c n :
  refines keys pool reg -> (c, n) ∈ keys -> ("Object", n) ∈ keys ->
  surgescript_programpool_get pool c n = spec_get reg c n.
Proof.
  intros (Hhash & _) Hc Ho. rewrite get_unfold. unfold spec_get.
  by rewrite !Hhash.
Qed.

End PoolRefinement.

Section PoolAgainstRegistry.

Context {program : Type}.
Context {hashlittle2_impl : hashlittle2_t}.

Implicit Types pool : surgescript_programpool_t program.
Implicit Types reg : list (string * string * program).
Implicit Types ops : list (@pool_op program).
Implicit Types c n : string.

Lemma filter_Forall_id {A : Type} (P : A -> Prop) `{!forall x, Decision (P x)}
    (l : list A) :
  Forall P l -> filter P l = l.
Proof.
  induction 1 as [|x l Hx _ IH]; [done|].
  by rewrite filter_cons, decide_True, IH.
Qed.

(** Without a delete or a purge, the registered names of a class are in the
    order of their first puts. *)
Lemma spec_names_first_puts c ops : forall reg,
  Forall (fun op => removes op = false) ops ->
  (spec_ops reg ops).2 = Returned tt ->
  spec_names (spec_ops reg ops).1 c
  = foldl (note_first_put c) (spec_names reg c) ops.
Proof.
  induction ops as [|op ops IH]; intros reg Hops Hret; [done|].
  apply Forall_cons in Hops as [Hop Hops].
  cbn [spec_ops foldl] in *.
  assert (forall c' n p,
            registered reg c' n = None ->
            spec_names (reg ++ [((c', n), p)]) c
            = note_first_put c (spec_names reg c) (OpPut c' n p)) as Hnew.
  { intros c' n p Hreg. rewrite spec_names_app. cbn [note_first_put fst snd].
    destruct (decide (c' = c)) as [->|Hne]; [|apply app_nil_r].
    rewrite decide_False; [done|].
    rewrite elem_of_spec_names. by apply registered_None. }
  destruct op as [c' n p|c' n p| |]; try discriminate Hop;
    cbn [spec_op] in *.
  - unfold spec_put in *.
    destruct (registered reg c' n) as [old|] eqn:Hreg; [discriminate Hret|].
    rewrite (IH _ Hops Hret). by rewrite Hnew.
  - unfold spec_replace in *.
    destruct (registered reg c' n) as [old|] eqn:Hreg.
    + rewrite (IH _ Hops Hret), spec_names_update. f_equal.
      cbn [note_first_put].
      destruct (decide (c' = c)) as [->|Hne]; [|done].
      rewrite decide_True; [done|].
      rewrite elem_of_spec_names. apply registered_is_Some. eauto.
    + rewrite (IH _ Hops Hret). by rewrite Hnew.
Qed.

(** C1.  For the pool that a run of [put], [replace], [delete] and [purge]
    calls makes of a new pool, [get(c, n)] resolves with a single level of
    fallback over the pairs of the spec: it returns the program registered
    under (c, n) if there is one, else the one registered under
    ("Object", n), else nothing, provided that the pairs the calls name,
    (c, n) and ("Object", n) have pairwise distinct signatures.  For every
    pool and every [hashlittle2]: after [put("Object","toString",A)] and
    [put("Array","toString",B)] have succeeded, [get("Array","toString")] is
    [B], and after [delete("Array","toString")] it is [A]. *)
Theorem get_fallback_over_pairs :
  (forall ops pool c n,
     signatures_distinct (ops_keys ops ++ [(c, n); ("Object", n)]) ->
     run_ops surgescript_programpool_create ops = (pool, Returned tt) ->
     surgescript_programpool_get pool c n = spec_get (spec_registry ops) c n
     /\ (surgescript_programpool_shallowcheck pool c n = true
         <-> is_Some (registered (spec_registry ops) c n)))
  /\ (forall pool A B pool1 pool2,
        surgescript_programpool_put pool "Object" "toString" A
          = (pool1, Returned true) ->
        surgescript_programpool_put pool1 "Array" "toString" B
          = (pool2, Returned true) ->
        surgescript_programpool_get pool2 "Array" "toString" = Some B
        /\ surgescript_programpool_get
             (surgescript_programpool_delete pool2 "Array" "toString")
             "Array" "toString" = Some A).
Proof.
  split.
  - intros ops pool c n Hd Hrun.
    destruct (run_ops_refines _ ops pool Hd) as [_ Href]; [|done|].
    { intros k Hk. apply elem_of_app. by left. }
    assert ((c, n) ∈ ops_keys ops ++ [(c, n); ("Object", n)]) as Hc.
    { apply elem_of_app. right. apply list_elem_of_here. }
    split.
    + apply (refines_get _ _ _ _ _ Href Hc).
      apply elem_of_app. right. apply list_elem_of_further, list_elem_of_here.
    + rewrite shallowcheck_true. destruct Href as (Hhash & _).
      by rewrite (Hhash c n Hc).
  - intros pool A B pool1 pool2 H1 H2.
    apply put_returned in H1 as (_ & _ & Hh1 & _).
    apply put_returned in H2 as (Hfree & _ & Hh2 & _).
    assert (generate_signature "Object" "toString"
            ≠ generate_signature "Array" "toString") as Hne.
    { intros Heq. rewrite Hh1, Heq, lookup_insert_eq in Hfree. done. }
    split.
    + by rewrite get_unfold, Hh2, lookup_insert_eq.
    + rewrite get_unfold, delete_hash, lookup_delete_eq.
      rewrite lookup_delete_ne by done.
      rewrite Hh2, lookup_insert_ne by done.
      by rewrite Hh1, lookup_insert_eq.
Qed.

(** C4.  After [purge(c)], [is_compiled(c)] is false, on every pool.  For
    the pool that a run of calls makes of a new pool, and every name [n]
    registered under [c] before the purge: [get(c, n)] then returns what is
    registered under ("Object", n), nothing if there is no such program (and
    nothing when [c] is "Object" itself), provided that the pairs the calls
    name and ("Object", n) have pairwise distinct signatures. *)
Theorem purge_clears_registered :
  (forall pool c,
     surgescript_programpool_is_compiled
       (surgescript_programpool_purge pool c) c = false)
  /\ (forall ops pool c n,
        signatures_distinct (ops_keys ops ++ [("Object", n)]) ->
        run_ops surgescript_programpool_create ops = (pool, Returned tt) ->
        is_Some (registered (spec_registry ops) c n) ->
        surgescript_programpool_shallowcheck
          (surgescript_programpool_purge pool c) c n = false
        /\ surgescript_programpool_get
             (surgescript_programpool_purge pool c) c n
           = registered (spec_purge (spec_registry ops) c) "Object" n
        /\ (c <> "Object" ->
            surgescript_programpool_get
              (surgescript_programpool_purge pool c) c n
            = registered (spec_registry ops) "Object" n)
        /\ (c = "Object" ->
            surgescript_programpool_get
              (surgescript_programpool_purge pool c) c n = None)).
Proof.
  split.
  { intros pool c. unfold surgescript_programpool_is_compiled.
    by rewrite purge_meta_lookup. }
  intros ops pool c n Hd Hrun Hreg.
  destruct (run_ops_refines _ ops pool Hd) as [_ Href]; [|done|].
  { intros k Hk. apply elem_of_app. by left. }
  assert ((c, n) ∈ ops_keys ops ++ [("Object", n)]) as Hc.
  { destruct Href as (_ & _ & Hin & _).
    apply registered_is_Some, list_elem_of_fmap in Hreg as (e & -> & He).
    by apply Hin. }
  assert (("Object", n) ∈ ops_keys ops ++ [("Object", n)]) as Ho.
  { apply elem_of_app. right. apply list_elem_of_here. }
  pose proof (refines_purge _ pool _ c Hd Href) as Href'.
  assert (surgescript_programpool_get
            (surgescript_programpool_purge pool c) c n
          = registered (spec_purge (spec_registry ops) c) "Object" n) as Hget.
  { rewrite (refines_get _ _ _ _ _ Href' Hc Ho). unfold spec_get.
    by rewrite registered_purge_eq. }
  split; [|split; [done|split]].
  - apply shallowcheck_false. destruct Href' as (Hhash & _).
    by rewrite (Hhash c n Hc), registered_purge_eq.
  - intros Hne. rewrite Hget. by apply registered_purge_ne.
  - intros ->. rewrite Hget. apply registered_purge_eq.
Qed.

(** C5.  For the pool that a run of [put], [replace], [delete] and [purge]
    calls makes of a new pool, the pairs the calls name having pairwise
    distinct signatures: [foreach(c, callback)] invokes the callback once
    per program name registered under [c], in the order in which the
    registrations that stand were made; a [replace] of a registered name
    does not move it, a name deleted and put again comes last.  When no
    [delete] or [purge] is among the calls, this is the order in which the
    names were first put under [c]. *)
Theorem foreach_insertion_order ops pool c :
  signatures_distinct (ops_keys ops) ->
  run_ops surgescript_programpool_create ops = (pool, Returned tt) ->
  (forall (State : Type) (callback : string -> State -> State) (s : State),
     surgescript_programpool_foreach pool c callback s
     = foldl (fun s program_name => callback program_name s) s
         (spec_names (spec_registry ops) c))
  /\ visited_names pool c = spec_names (spec_registry ops) c
  /\ NoDup (visited_names pool c)
  /\ (forall n, n ∈ visited_names pool c
                <-> is_Some (registered (spec_registry ops) c n))
  /\ (Forall (fun op => removes op = false) ops ->
      visited_names pool c = first_put_order c ops).
Proof.
  intros Hd Hrun.
  destruct (run_ops_refines _ ops pool Hd) as [Hret Href]; [done|done|].
  destruct Href as (_ & Hnames & _ & Hnd).
  assert (visited_names pool c = spec_names (spec_registry ops) c) as Hvis
    by (by rewrite visited_program_names).
  split; [|split; [done|split; [|split]]].
  - intros State callback s. by rewrite foreach_program_names, Hnames.
  - rewrite Hvis. by apply NoDup_spec_names.
  - intros n. by rewrite Hvis, elem_of_spec_names, registered_is_Some.
  - intros Hops. rewrite Hvis. unfold first_put_order.
    pose proof (spec_names_first_puts c ops [] Hops Hret) as Hfirst.
    change (spec_names [] c) with (@nil string) in Hfirst.
    change (spec_ops [] ops).1 with (spec_registry ops) in Hfirst.
    rewrite <- Hfirst. symmetry. apply filter_Forall_id, Forall_forall.
    intros n Hn. by apply registered_is_Some, elem_of_spec_names.
Qed.

End PoolAgainstRegistry.

(** C1, as it was stated: whatever [hashlittle2] is, some pair that was never
    registered, and whose name is not registered under "Object", is
    answered with a program. *)
Lemma get_aliased_pair :
  ~ exists h : hashlittle2_t, get_resolves_pairs h.
Proof.
  intros [h Hclaim].
  destruct (@swapped_signatures_collide h) as (a & b & Hne & _ & _ & Heq).
  destruct (@put_free nat h surgescript_programpool_create a b 1%nat)
    as [pool1 Hput]; [done|].
  specialize (Hclaim [OpPut a b 1%nat] pool1 b a).
  cbn [run_ops run_op] in Hclaim. rewrite Hput in Hclaim.
  specialize (Hclaim eq_refl).
  apply put_returned in Hput as (_ & _ & Hhash & _).
  rewrite get_unfold, <- Heq, Hhash, lookup_insert_eq in Hclaim.
  unfold spec_get, spec_registry in Hclaim.
  cbn [spec_ops spec_op spec_put registered fst snd app] in Hclaim.
  rewrite !decide_False in Hclaim by congruence. done.
Qed.

(** C4, as it was stated: whatever [hashlittle2] is, some name registered
    under a class is still answered after the purge of the class, with no
    program registered under "Object" for it. *)
Lemma purge_keeps_aliased_pair :
  ~ exists h : hashlittle2_t, purge_clears_pairs h.
Proof.
  intros [h Hclaim].
  destruct (@swapped_signatures_collide h) as (a & b & Hne & _ & _ & Heq).
  destruct (@put_free nat h surgescript_programpool_create a b 1%nat)
    as [pool1 Hput]; [done|].
  pose proof (put_returned _ _ _ _ _ _ Hput) as (_ & _ & Hhash & Hnames).
  assert (hash pool1 !! @generate_signature h b a = Some 1%nat) as Hba
    by (by rewrite <- Heq, Hhash, lookup_insert_eq).
  set (pool2 := {| hash := <[@generate_signature h b a := 2%nat]> (hash pool1);
                   meta := meta pool1 |}).
  specialize (Hclaim [OpPut a b 1%nat; OpReplace b a 2%nat] pool2 b a).
  cbn [run_ops run_op] in Hclaim. rewrite Hput in Hclaim.
  rewrite replace_unfold, Hba in Hclaim. fold pool2 in Hclaim.
  specialize (Hclaim eq_refl).
  assert (spec_registry [OpPut a b 1%nat; OpReplace b a 2%nat]
          = [((a, b), 1%nat); ((b, a), 2%nat)]) as Hreg.
  { unfold spec_registry. cbn [spec_ops spec_op spec_put registered].
    unfold spec_replace. cbn [registered fst snd app].
    rewrite decide_False by congruence. done. }
  rewrite Hreg in Hclaim.
  assert (registered [((a, b), 1%nat); ((b, a), 2%nat)] b a = Some 2%nat)
    as Hreg2.
  { cbn [registered fst snd]. rewrite decide_False by congruence.
    by rewrite decide_True. }
  specialize (Hclaim ltac:(rewrite Hreg2; eauto)).
  (* the pool: nothing is listed under [b], and the entry stays *)
  assert (program_names pool2 b = []) as Hnone.
  { change (program_names pool2 b) with (program_names pool1 b).
    rewrite Hnames, decide_False by congruence. done. }
  rewrite get_unfold, purge_lookup, Hnone in Hclaim.
  rewrite decide_False in Hclaim by (by intros ?%elem_of_nil).
  cbn [hash pool2] in Hclaim. rewrite lookup_insert_eq in Hclaim.
  (* the registry of the spec: nothing under ("Object", a) *)
  destruct (decide ("Object" = b)) as [<-|Hob].
  - by rewrite registered_purge_eq in Hclaim.
  - rewrite registered_purge_ne in Hclaim by done.
    cbn [registered fst snd] in Hclaim.
    rewrite !decide_False in Hclaim by congruence. done.
Qed.

(** C5, as it was stated: whatever [hashlittle2] is, after some run of calls
    [foreach] does not visit the registered names in the order of their
    first puts.  When "push" and "pop" of "Array" have different signatures,
    they are visited in the order in which they were put after the purge of
    the class, "pop" first; when they share one, "pop" registered by
    [replace] is not visited. *)
Lemma foreach_not_first_put_order :
  ~ exists h : hashlittle2_t, foreach_in_first_put_order h.
Proof.
  intros [h Hclaim].
  destruct (decide (@generate_signature h "Array" "push"
                    = @generate_signature h "Array" "pop")) as [Heq|Hne].
  - destruct (@put_free nat h surgescript_programpool_create "Array" "push"
                1%nat) as [pool1 Hput]; [done|].
    pose proof (put_returned _ _ _ _ _ _ Hput) as (_ & _ & Hhash & Hnames).
    assert (hash pool1 !! @generate_signature h "Array" "pop" = Some 1%nat)
      as Hpop by (by rewrite <- Heq, Hhash, lookup_insert_eq).
    set (pool2 :=
           {| hash := <[@generate_signature h "Array" "pop" := 2%nat]>
                        (hash pool1);
              meta := meta pool1 |}).
    specialize (Hclaim [OpPut "Array" "push" 1%nat;
                        OpReplace "Array" "pop" 2%nat] pool2 "Array").
    cbn [run_ops run_op] in Hclaim. rewrite Hput in Hclaim.
    rewrite replace_unfold, Hpop in Hclaim. fold pool2 in Hclaim.
    specialize (Hclaim eq_refl).
    rewrite visited_program_names in Hclaim.
    change (program_names pool2 "Array") with (program_names pool1 "Array")
      in Hclaim.
    rewrite Hnames, decide_True in Hclaim by done.
    vm_compute in Hclaim. discriminate Hclaim.
  - assert (@signatures_distinct h (ops_keys reinsert_ops)) as Hd.
    { unfold signatures_distinct.
      repeat (apply Forall_cons; split); try apply Forall_nil;
        cbn [fst snd]; first [exact I | intros Hs; congruence]. }
    destruct (@refines_ops nat h (ops_keys reinsert_ops) reinsert_ops
                surgescript_programpool_create [] Hd ltac:(done)
                (refines_create _)) as (pool & Hrun & Href).
    change (spec_ops [] reinsert_ops).2 with (@Returned unit tt) in Hrun.
    destruct (Href eq_refl) as (_ & Hnames & _).
    specialize (Hclaim reinsert_ops pool "Array" Hrun).
    rewrite visited_program_names, Hnames in Hclaim.
    vm_compute in Hclaim. discriminate Hclaim.
Qed.

(** * Closed instances

    The statements above, applied to the concrete pools, machines,
    environments and arrays defined before the properties. *)

Lemma put_get_roundtrip_witness :
  surgescript_programpool_put scenario_pool2 "Array" "push" 3%nat
    = (scenario_pool3, Returned true)
  /\ surgescript_programpool_get scenario_pool3 "Array" "push" = Some 3%nat
  /\ surgescript_programpool_exists scenario_pool3 "Array" "push" = true.
Proof.
  assert (surgescript_programpool_put scenario_pool2 "Array" "push" 3%nat
          = (scenario_pool3, Returned true)) as H
    by (vm_compute; reflexivity).
  split; [exact H|].
  exact (put_get_roundtrip scenario_pool2 "Array" "push" 3%nat
           scenario_pool3 true H).
Defined.

Lemma duplicate_put_fatal_replace_not_witness :
  surgescript_programpool_shallowcheck scenario_pool3 "Array" "push" = true
  /\ surgescript_programpool_put scenario_pool3 "Array" "push" 9%nat
     = (scenario_pool3, Fatal (DuplicateFunction "push" "Array"))
  /\ exists pool',
       surgescript_programpool_replace scenario_pool3 "Array" "push" 9%nat
         = (pool', Returned true)
       /\ surgescript_programpool_get pool' "Array" "push" = Some 9%nat
       /\ meta pool' = meta scenario_pool3.
Proof.
  assert (surgescript_programpool_shallowcheck scenario_pool3 "Array" "push"
          = true) as H by (vm_compute; reflexivity).
  split; [exact H|].
  exact (duplicate_put_fatal_replace_not scenario_pool3 "Array" "push" 9%nat H).
Defined.

Lemma signature_deterministic_chained_witness :
  0 <= generate_signature "Array" "push" < 2 ^ 64
  /\ generate_signature "Array" "push" <> generate_signature "push" "Array".
Proof.
  destruct (signature_deterministic_chained "Array" "push" "Array" "push")
    as (_ & Hrange & Horder).
  split; [exact Hrange|].
  apply Horder. vm_compute. intros H. discriminate H.
Defined.

Lemma update_inactive_witness :
  surgescript_vm_update killed_vm = (stopped_vm, false, [1; 2; 3])
  /\ surgescript_vm_is_active stopped_vm = false
  /\ surgescript_vm_update stopped_vm = (stopped_vm, false, [])
  /\ vm_updates 3 stopped_vm
     = (stopped_vm, [(false, []); (false, []); (false, [])]).
Proof.
  assert (surgescript_vm_is_active stopped_vm = false) as Hoff
    by (vm_compute; reflexivity).
  destruct (update_inactive stopped_vm Hoff) as [Hstep Hlater].
  split; [vm_compute; reflexivity|].
  split; [exact Hoff|]. split; [exact Hstep|].
  exact (proj1 (Hlater 3%nat)).
Defined.

Lemma clone_shares_all_but_temporaries_witness :
  is_Some (sample_memory !! surgescript_renv_tmp sample_env)
  /\ surgescript_renv_tmp sample_clone.2 <> surgescript_renv_tmp sample_env
  /\ tmp_read (tmp_write sample_clone.1 sample_clone.2 1 (VarBool true))
       sample_env 1
     = Some (VarNumber 3)
  /\ tmp_read (tmp_write sample_clone.1 sample_clone.2 1 (VarBool true))
       sample_clone.2 1
     = Some (VarBool true).
Proof.
  assert (is_Some (sample_memory !! surgescript_renv_tmp sample_env)) as Hlive
    by (exists [VarNull; VarNumber 3]; vm_compute; reflexivity).
  destruct (clone_shares_all_but_temporaries sample_memory [VarNull; VarNull]
              sample_env sample_clone.1 sample_clone.2 Hlive eq_refl)
    as (_ & Hne & _ & _ & _ & Hwrite).
  destruct (Hwrite 1%nat (VarBool true)) as [Hsame Hnew].
  split; [exact Hlive|]. split; [exact Hne|]. split.
  - rewrite (Hsame 1%nat). vm_compute; reflexivity.
  - apply Hnew. simpl. lia.
Defined.

Lemma pop_last_element_witness :
  fun_pop (array_heap [VarNumber 10; VarString "x"] 0)
    = (array_heap [VarNumber 10] 1, Returned (Some (VarString "x")))
  /\ fun_pop (array_heap [] 2) = (array_heap [] 2, Returned None).
Proof.
  assert (forall n : nat, (n <= 2)%nat -> Z.of_nat n <= INT_MAX) as Hsmall
    by (intros n Hn; unfold INT_MAX; lia).
  split.
  - destruct (proj1 (pop_last_element [VarNumber 10; VarString "x"] 0
                       (Hsmall 2%nat ltac:(lia))) ltac:(simpl; lia))
      as (es' & x & Hes & _ & Hpop & _).
    apply (app_inj_tail [VarNumber 10]) in Hes as [<- <-].
    exact Hpop.
  - exact (proj2 (pop_last_element [] 2 (Hsmall 0%nat ltac:(lia))) eq_refl).
Defined.

Lemma set_element_witness :
  fun_set 3 (VarNumber 1) (VarString "z") (array_heap [VarNumber 10; VarNumber 20] 0)
    = (array_heap [VarNumber 10; VarString "z"] 0, Returned (Some (VarString "z")))
  /\ fun_set 3 (VarNumber 4) (VarString "z") (array_heap [VarNumber 10; VarNumber 20] 0)
    = (array_heap [VarNumber 10; VarNumber 20; VarNull; VarNull; VarString "z"] 0,
       Returned (Some (VarString "z")))
  /\ fun_set 3 (VarNumber 1026) (VarString "z")
       (array_heap [VarNumber 10; VarNumber 20] 0)
    = (array_heap [VarNumber 10; VarNumber 20] 0,
       Fatal (ArraySetOutOfBounds 1026)).
Proof.
  assert (Z.of_nat (length [VarNumber 10; VarNumber 20]) + 1024 <= INT_MAX)
    as Hmax by (unfold INT_MAX; simpl; lia).
  assert (forall i, 0 <= i <= 2000 -> - (2 ^ 31) <= i /\ i <= INT_MAX) as Hint
    by (intros i Hi; unfold INT_MAX; lia).
  split; [|split].
  - exact (proj1 (set_element [VarNumber 10; VarNumber 20] 0 3
                    (VarNumber 1) (VarString "z") 1 Hmax eq_refl
                    (Hint 1 ltac:(lia)))
             ltac:(simpl; lia)).
  - exact (proj1 (proj1 (proj2 (set_element [VarNumber 10; VarNumber 20] 0 3
                    (VarNumber 4) (VarString "z") 4 Hmax eq_refl
                    (Hint 4 ltac:(lia))))
             ltac:(simpl; lia) ltac:(simpl; lia))).
  - exact (proj2 (proj2 (set_element [VarNumber 10; VarNumber 20] 0 3
                    (VarNumber 1026) (VarString "z") 1026 Hmax eq_refl
                    (Hint 1026 ltac:(lia))))
             ltac:(simpl; lia)).
Defined.

Lemma object_fallback_witness :
  surgescript_programpool_put scenario_pool0 "Object" "toString" 1%nat
    = (scenario_pool1, Returned true)
  /\ surgescript_programpool_shallowcheck scenario_pool1 "Dog" "toString" = false
  /\ surgescript_programpool_get scenario_pool1 "Dog" "toString" = Some 1%nat
  /\ surgescript_programpool_exists scenario_pool1 "Dog" "toString" = true.
Proof.
  assert (surgescript_programpool_put scenario_pool0 "Object" "toString" 1%nat
          = (scenario_pool1, Returned true)) as Hput
    by (vm_compute; reflexivity).
  assert (surgescript_programpool_shallowcheck scenario_pool1 "Dog" "toString"
          = false) as Hs by (vm_compute; reflexivity).
  split; [exact Hput|]. split; [exact Hs|].
  exact (object_fallback scenario_pool0 "toString" 1%nat scenario_pool1 true
           "Dog" Hput Hs).
Defined.

Lemma delete_exact_entry_witness :
  surgescript_programpool_shallowcheck scenario_pool1 "Array" "toString" = false
  /\ ("toString" ∉ program_names scenario_pool1 "Array")
  /\ surgescript_programpool_delete scenario_pool1 "Array" "toString"
     = scenario_pool1.
Proof.
  assert (surgescript_programpool_shallowcheck scenario_pool1 "Array" "toString"
          = false) as Hs by (vm_compute; reflexivity).
  assert ("toString" ∉ program_names scenario_pool1 "Array") as Hn
    by (apply (bool_decide_unpack _); vm_compute; exact I).
  split; [exact Hs|]. split; [exact Hn|].
  exact (proj2 (proj2 (delete_exact_entry scenario_pool1 "Array" "toString"))
           Hs Hn).
Defined.

Lemma put_is_compiled_witness :
  surgescript_programpool_put scenario_pool1 "Array" "toString" 2%nat
    = (scenario_pool2, Returned true)
  /\ surgescript_programpool_is_compiled scenario_pool1 "Array" = false
  /\ surgescript_programpool_is_compiled scenario_pool2 "Array" = true.
Proof.
  assert (surgescript_programpool_put scenario_pool1 "Array" "toString" 2%nat
          = (scenario_pool2, Returned true)) as Hput
    by (vm_compute; reflexivity).
  split; [exact Hput|]. split; [vm_compute; reflexivity|].
  exact (put_is_compiled scenario_pool1 "Array" "toString" 2%nat
           scenario_pool2 true Hput).
Defined.

Lemma update_false_inactive_witness :
  surgescript_vm_is_active killed_vm = true
  /\ surgescript_vm_update killed_vm = (stopped_vm, false, [1; 2; 3])
  /\ surgescript_vm_is_active stopped_vm = false.
Proof.
  assert (surgescript_vm_update killed_vm = (stopped_vm, false, [1; 2; 3]))
    as Hupdate by (vm_compute; reflexivity).
  split; [vm_compute; reflexivity|]. split; [exact Hupdate|].
  exact (update_false_inactive killed_vm stopped_vm [1; 2; 3] Hupdate).
Defined.

Lemma push_array_heap_witness :
  fun_push (VarNumber 7) (array_heap [VarNumber 1] 0)
  = (array_heap [VarNumber 1; VarNumber 7] 0, Returned tt).
Proof.
  exact (push_array_heap [VarNumber 1] 0 (VarNumber 7)
           ltac:(unfold INT_MAX; simpl; lia)).
Defined.

Lemma get_element_witness :
  fun_get (VarNumber 1) (array_heap [VarNumber 10; VarString "x"] 0)
    = (array_heap [VarNumber 10; VarString "x"] 0, Returned (VarString "x"))
  /\ fun_get (VarNumber 2) (array_heap [VarNumber 10; VarString "x"] 0)
    = (array_heap [VarNumber 10; VarString "x"] 0,
       Fatal (ArrayGetOutOfBounds 2))
  /\ fun_get (VarNumber (-1)) (array_heap [VarNumber 10; VarString "x"] 0)
    = (array_heap [VarNumber 10; VarString "x"] 0,
       Fatal (ArrayGetOutOfBounds (-1)))
  /\ fun_length (array_heap [VarNumber 10; VarString "x"] 0)
    = (array_heap [VarNumber 10; VarString "x"] 0, Returned (VarNumber 2)).
Proof.
  assert (Z.of_nat (length [VarNumber 10; VarString "x"]) <= INT_MAX) as Hmax
    by (unfold INT_MAX; simpl; lia).
  assert (forall i, -1 <= i <= 2 -> - (2 ^ 31) <= i /\ i <= INT_MAX) as Hint
    by (intros i Hi; unfold INT_MAX; lia).
  assert (forall i, 2 <= i ->
            Z.of_nat (length [VarNumber 10; VarString "x"]) <= i) as Hlen
    by (intros i Hi; simpl; lia).
  assert (forall i, i <= -1 -> i < 0) as Hneg by (intros i Hi; lia).
  split; [|split; [|split]].
  - exact (proj1 (get_element [VarNumber 10; VarString "x"] 0 (VarNumber 1) 1
                    Hmax eq_refl (Hint 1 ltac:(lia)))
             (VarString "x") eq_refl ltac:(lia)).
  - exact (proj1 (proj2 (get_element [VarNumber 10; VarString "x"] 0
                           (VarNumber 2) 2 Hmax eq_refl (Hint 2 ltac:(lia))))
             (or_intror (Hlen 2 ltac:(lia)))).
  - exact (proj1 (proj2 (get_element [VarNumber 10; VarString "x"] 0
                           (VarNumber (-1)) (-1) Hmax eq_refl
                           (Hint (-1) ltac:(lia))))
             (or_introl (Hneg (-1) ltac:(lia)))).
  - exact (proj2 (proj2 (get_element [VarNumber 10; VarString "x"] 0
                           (VarNumber 1) 1 Hmax eq_refl (Hint 1 ltac:(lia))))).
Defined.

Lemma shift_first_element_witness :
  fun_shift (array_heap [VarNumber 1; VarNumber 2; VarNumber 3] 0)
    = (array_heap [VarNumber 2; VarNumber 3] 1, Returned (Some (VarNumber 1)))
  /\ fun_shift (array_heap [] 1) = (array_heap [] 1, Returned None).
Proof.
  split.
  - exact (proj1 (shift_first_element [VarNumber 1; VarNumber 2; VarNumber 3] 0
                    ltac:(unfold INT_MAX; simpl; lia))
             (VarNumber 1) [VarNumber 2; VarNumber 3] eq_refl).
  - exact (proj2 (shift_first_element [] 1 ltac:(unfold INT_MAX; simpl; lia))
             eq_refl).
Defined.

Lemma unshift_array_heap_witness :
  fun_unshift (VarNumber 0) (array_heap [VarNumber 1; VarNumber 2] 0)
  = (array_heap [VarNumber 0; VarNumber 1; VarNumber 2] 0, Returned tt).
Proof.
  exact (unshift_array_heap [VarNumber 1; VarNumber 2] 0 (VarNumber 0)
           ltac:(unfold INT_MAX; simpl; lia)).
Defined.

Lemma reverse_array_heap_witness :
  fun_reverse (array_heap [VarNumber 1; VarNumber 2; VarNumber 3] 2)
  = (array_heap [VarNumber 3; VarNumber 2; VarNumber 1] 2, Returned tt).
Proof.
  exact (reverse_array_heap [VarNumber 1; VarNumber 2; VarNumber 3] 2
           ltac:(unfold INT_MAX; simpl; lia)).
Defined.

Lemma indexof_first_match_witness :
  fun_indexof (VarNumber 2)
    (array_heap [VarNumber 1; VarNumber 2; VarNumber 2] 0)
    = (array_heap [VarNumber 1; VarNumber 2; VarNumber 2] 0,
       Returned (VarNumber 1))
  /\ fun_indexof (VarNumber 5)
    (array_heap [VarNumber 1; VarNumber 2; VarNumber 2] 0)
    = (array_heap [VarNumber 1; VarNumber 2; VarNumber 2] 0,
       Returned (VarNumber (-1))).
Proof.
  assert (Z.of_nat (length [VarNumber 1; VarNumber 2; VarNumber 2]) <= INT_MAX)
    as Hmax by (unfold INT_MAX; simpl; lia).
  split.
  - exact (proj1 (indexof_first_match
                    [VarNumber 1; VarNumber 2; VarNumber 2] 0 (VarNumber 2)
                    Hmax)).
  - exact (proj1 (indexof_first_match
                    [VarNumber 1; VarNumber 2; VarNumber 2] 0 (VarNumber 5)
                    Hmax)).
Defined.

Lemma med3_median_witness :
  exists (m x y : nat) vm vx vy,
    med3 1 2 3 (array_heap [VarNumber 5; VarNumber 1; VarNumber 3] 0)
    = (array_heap [VarNumber 5; VarNumber 1; VarNumber 3] 0,
       Returned (Z.of_nat (S m)))
    /\ [(m, vm); (x, vx); (y, vy)]
         ≡ₚ [(0%nat, VarNumber 5); (1%nat, VarNumber 1); (2%nat, VarNumber 3)]
    /\ var_le vx vm /\ var_le vm vy.
Proof.
  exact (med3_median 3 [VarNumber 5; VarNumber 1; VarNumber 3] 0 0 1 2
           (VarNumber 5) (VarNumber 1) (VarNumber 3)
           number_compare_antisymmetric eq_refl eq_refl eq_refl).
Defined.

Lemma partition_places_pivot_witness :
  exists lo pv hi,
    partition 3 1 4
      (array_heap [VarNumber 5; VarNumber 1; VarNumber 4; VarNumber 3] 0)
    = (array_cells 4 (lo ++ pv :: hi ++ []) 0,
       Returned (Some (Z.of_nat (S (0 + length lo)))))
    /\ Forall (fun x => var_le x pv) lo
    /\ Forall (fun x => 0 < surgescript_var_compare x pv) hi
    /\ lo ++ pv :: hi ≡ₚ [VarNumber 5; VarNumber 1; VarNumber 4; VarNumber 3].
Proof.
  exact (partition_places_pivot 4 0 []
           [VarNumber 5; VarNumber 1; VarNumber 4; VarNumber 3] [] 3
           ltac:(discriminate) ltac:(simpl; lia)
           ltac:(unfold INT_MAX; simpl; lia)).
Defined.

Lemma sort_sorted_permutation_witness :
  (exists es',
     fun_sort 3
       (array_heap [VarNumber 5; VarNumber 1; VarNumber 4; VarNumber 3] 0)
     = (array_heap es' 0, Returned (Some tt))
     /\ es' ≡ₚ [VarNumber 5; VarNumber 1; VarNumber 4; VarNumber 3]
     /\ StronglySorted var_le es')
  /\ fun_sort 3
       (array_heap [VarNumber 5; VarNumber 1; VarNumber 4; VarNumber 3] 0)
     = (array_heap [VarNumber 1; VarNumber 3; VarNumber 4; VarNumber 5] 0,
        Returned (Some tt)).
Proof.
  split; [|vm_compute; reflexivity].
  exact (sort_sorted_permutation
           [VarNumber 5; VarNumber 1; VarNumber 4; VarNumber 3] 0 3
           number_compare_antisymmetric number_compare_transitive
           ltac:(unfold INT_MAX; simpl; lia) ltac:(simpl; lia)).
Defined.

Lemma register_array_binds_witness :
  surgescript_sslib_register_array fresh_vm = (array_vm, Returned tt)
  /\ surgescript_programpool_get (vm_program_pool array_vm) "Array" "set"
     = Some (2, cfun_set)
  /\ surgescript_programpool_get (vm_program_pool array_vm) "Array" "indexOf"
     = Some (1, cfun_indexof)
  /\ visited_names (vm_program_pool array_vm) "Array"
     = [ "__constructor"; "__destructor"; "state:main"; "get"; "set";
         "length"; "push"; "pop"; "shift"; "unshift"; "sort"; "reverse";
         "indexOf" ].
Proof.
  assert (NoDup (method_signature "Array" <$> array_methods)) as Hdistinct
    by (apply (bool_decide_unpack _); vm_compute; exact I).
  assert (Forall (fun m =>
            surgescript_programpool_shallowcheck (vm_program_pool fresh_vm)
              "Array" m.1.1 = false) array_methods) as Hfree
    by (apply (bool_decide_unpack _); vm_compute; exact I).
  destruct (register_array_binds fresh_vm Hdistinct Hfree)
    as (vm1 & Hrun & _ & _ & Hget & Hnames & _).
  assert (vm1 = array_vm) as ->
    by (unfold array_vm; rewrite Hrun; reflexivity).
  split; [exact Hrun|]. split; [|split].
  - apply (Hget "set" cfun_set 2).
    unfold array_methods.
    repeat first [ apply elem_of_cons; left; reflexivity
                 | apply elem_of_cons; right ].
  - apply (Hget "indexOf" cfun_indexof 1).
    unfold array_methods.
    repeat first [ apply elem_of_cons; left; reflexivity
                 | apply elem_of_cons; right ].
  - exact Hnames.
Defined.

Lemma register_array_twice_fatal_witness :
  surgescript_sslib_register_array fresh_vm = (array_vm, Returned tt)
  /\ surgescript_sslib_register_array array_vm
     = (array_vm, Fatal (DuplicateFunction "__constructor" "Array")).
Proof.
  assert (surgescript_sslib_register_array fresh_vm = (array_vm, Returned tt))
    as Hrun by (vm_compute; reflexivity).
  split; [exact Hrun|].
  exact (register_array_twice_fatal fresh_vm array_vm Hrun).
Defined.

Lemma purge_frame_witness :
  program_names (surgescript_programpool_purge scenario_pool3 "Array") "Object"
    = program_names scenario_pool3 "Object"
  /\ surgescript_programpool_is_compiled
       (surgescript_programpool_purge scenario_pool3 "Array") "Object"
     = surgescript_programpool_is_compiled scenario_pool3 "Object"
  /\ surgescript_programpool_purge scenario_pool1 "Array" = scenario_pool1.
Proof.
  split; [|split].
  - exact (proj1 (proj1 (purge_frame scenario_pool3 "Array") "Object"
                    ltac:(discriminate))).
  - exact (proj2 (proj1 (purge_frame scenario_pool3 "Array") "Object"
                    ltac:(discriminate))).
  - exact (proj2 (proj2 (purge_frame scenario_pool1 "Array")) eq_refl).
Defined.

Lemma put_delete_roundtrip_witness :
  surgescript_programpool_put scenario_pool1 "Array" "toString" 2%nat
    = (scenario_pool2, Returned true)
  /\ ("toString" ∉ program_names scenario_pool1 "Array")
  /\ hash (surgescript_programpool_delete scenario_pool2 "Array" "toString")
     = hash scenario_pool1
  /\ program_names
       (surgescript_programpool_delete scenario_pool2 "Array" "toString")
       "Array"
     = program_names scenario_pool1 "Array".
Proof.
  assert (surgescript_programpool_put scenario_pool1 "Array" "toString" 2%nat
          = (scenario_pool2, Returned true)) as Hput
    by (vm_compute; reflexivity).
  assert ("toString" ∉ program_names scenario_pool1 "Array") as Hn
    by (apply (bool_decide_unpack _); vm_compute; exact I).
  split; [exact Hput|]. split; [exact Hn|].
  destruct (put_delete_roundtrip scenario_pool1 "Array" "toString" 2%nat
              scenario_pool2 true Hput Hn) as (Hh & _ & Hnames & _).
  split; [exact Hh|]. exact (Hnames "Array").
Defined.

Lemma array_calls_as_list_witness :
  exists free,
    (do_ fun_constructor;
     run_array_calls
       [ CallPush (VarNumber 1); CallPush (VarNumber 2);
         CallUnshift (VarNumber 0); CallReverse; CallShift; CallPop ]) []
    = (array_heap [VarNumber 1] free,
       Returned [ None; None; None; None; Some (VarNumber 2);
                  Some (VarNumber 0) ]).
Proof.
  exact (array_calls_as_list
           [ CallPush (VarNumber 1); CallPush (VarNumber 2);
             CallUnshift (VarNumber 0); CallReverse; CallShift; CallPop ]
           ltac:(unfold INT_MAX; simpl; lia)).
Defined.

Lemma constructor_first_cell_witness :
  (exists heap1,
     fun_constructor [] = (heap1, Returned tt)
     /\ surgescript_heap_at heap1 LENGTH_ADDR = Some (VarNumber 0)
     /\ ARRAY_LENGTH heap1 = (heap1, Returned 0)
     /\ drop 1 heap1 = drop 1 [])
  /\ (exists heap1,
        fun_constructor (array_heap [VarNumber 4] 0)
        = (heap1, Fatal AssertionFailed)).
Proof.
  split.
  - exact (proj1 (constructor_first_cell []) eq_refl).
  - exact (proj2 (constructor_first_cell (array_heap [VarNumber 4] 0))
             (ex_intro _ (VarNumber 1) eq_refl)).
Defined.

Lemma set_then_get_witness :
  exists es' free',
    (do_ fun_set 3 (VarNumber 4) (VarString "z"); fun_get (VarNumber 4))
      (array_heap [VarNumber 10; VarNumber 20] 0)
    = (array_heap es' free', Returned (VarString "z"))
    /\ fun_length (array_heap es' free')
       = (array_heap es' free', Returned (VarNumber 5))
    /\ forall (j : nat) x (param : surgescript_var_t),
         [VarNumber 10; VarNumber 20] !! j = Some x -> j <> Z.to_nat 4 ->
         surgescript_var_get_number param = Z.of_nat j ->
         fun_get param (array_heap es' free')
         = (array_heap es' free', Returned (surgescript_var_clone x)).
Proof.
  assert (Z.of_nat (length [VarNumber 10; VarNumber 20]) + 1024 <= INT_MAX)
    as Hmax by (unfold INT_MAX; simpl; lia).
  assert (0 <= 4 /\ 4 < Z.of_nat (length [VarNumber 10; VarNumber 20]) + 1024)
    as Hi by (simpl; lia).
  assert (Z.to_nat (4 + 1 - Z.of_nat (length [VarNumber 10; VarNumber 20]))
          <= 3)%nat as Hfuel by (simpl; lia).
  exact (set_then_get [VarNumber 10; VarNumber 20] 0 3 (VarNumber 4)
           (VarString "z") 4 Hmax eq_refl Hi Hfuel).
Defined.

Lemma get_fallback_over_pairs_witness :
  signatures_distinct
    (ops_keys scenario_ops ++ [("Array", "toString"); ("Object", "toString")])
  /\ run_ops surgescript_programpool_create scenario_ops
     = (scenario_ops_pool, Returned tt)
  /\ surgescript_programpool_get scenario_ops_pool "Array" "toString"
     = Some 1%nat
  /\ (surgescript_programpool_shallowcheck scenario_ops_pool "Array" "toString"
      = true
      <-> is_Some (registered (spec_registry scenario_ops) "Array" "toString"))
  /\ surgescript_programpool_get scenario_pool2 "Array" "toString"
     = Some 2%nat
  /\ surgescript_programpool_get
       (surgescript_programpool_delete scenario_pool2 "Array" "toString")
       "Array" "toString" = Some 1%nat.
Proof.
  assert (signatures_distinct
            (ops_keys scenario_ops
             ++ [("Array", "toString"); ("Object", "toString")])) as Hd
    by (apply (bool_decide_unpack _); vm_compute; exact I).
  assert (run_ops surgescript_programpool_create scenario_ops
          = (scenario_ops_pool, Returned tt)) as Hrun
    by (vm_compute; reflexivity).
  assert (surgescript_programpool_put scenario_pool0 "Object" "toString" 1%nat
          = (scenario_pool1, Returned true)) as H1
    by (vm_compute; reflexivity).
  assert (surgescript_programpool_put scenario_pool1 "Array" "toString" 2%nat
          = (scenario_pool2, Returned true)) as H2
    by (vm_compute; reflexivity).
  split; [exact Hd|]. split; [exact Hrun|].
  split; [exact (proj1 (proj1 get_fallback_over_pairs scenario_ops
                          scenario_ops_pool "Array" "toString" Hd Hrun))|].
  split; [exact (proj2 (proj1 get_fallback_over_pairs scenario_ops
                          scenario_ops_pool "Array" "toString" Hd Hrun))|].
  exact (proj2 get_fallback_over_pairs scenario_pool0 1%nat 2%nat
           scenario_pool1 scenario_pool2 H1 H2).
Defined.

Lemma purge_clears_registered_witness :
  signatures_distinct (ops_keys purge_ops ++ [("Object", "toString")])
  /\ run_ops surgescript_programpool_create purge_ops
     = (scenario_pool3, Returned tt)
  /\ is_Some (registered (spec_registry purge_ops) "Array" "toString")
  /\ surgescript_programpool_is_compiled
       (surgescript_programpool_purge scenario_pool3 "Array") "Array" = false
  /\ surgescript_programpool_shallowcheck
       (surgescript_programpool_purge scenario_pool3 "Array")
       "Array" "toString" = false
  /\ surgescript_programpool_get
       (surgescript_programpool_purge scenario_pool3 "Array")
       "Array" "toString" = Some 1%nat.
Proof.
  assert (signatures_distinct
            (ops_keys purge_ops ++ [("Object", "toString")])) as Hd
    by (apply (bool_decide_unpack _); vm_compute; exact I).
  assert (run_ops surgescript_programpool_create purge_ops
          = (scenario_pool3, Returned tt)) as Hrun
    by (vm_compute; reflexivity).
  assert (is_Some (registered (spec_registry purge_ops) "Array" "toString"))
    as Hreg by (exists 2%nat; reflexivity).
  split; [exact Hd|]. split; [exact Hrun|]. split; [exact Hreg|].
  split; [exact (proj1 purge_clears_registered scenario_pool3 "Array")|].
  destruct (proj2 purge_clears_registered purge_ops scenario_pool3
              "Array" "toString" Hd Hrun Hreg) as (Hgone & Hget & _).
  split; [exact Hgone|exact Hget].
Defined.

Lemma foreach_insertion_order_witness :
  signatures_distinct (ops_keys reorder_ops)
  /\ run_ops surgescript_programpool_create reorder_ops
     = (reorder_pool, Returned tt)
  /\ visited_names reorder_pool "Array" = ["pop"; "push"]
  /\ signatures_distinct (ops_keys order_ops)
  /\ run_ops surgescript_programpool_create order_ops
     = (order_pool, Returned tt)
  /\ visited_names order_pool "Array" = first_put_order "Array" order_ops
  /\ first_put_order "Array" order_ops = ["push"; "pop"; "get"].
Proof.
  assert (signatures_distinct (ops_keys reorder_ops)) as Hd
    by (apply (bool_decide_unpack _); vm_compute; exact I).
  assert (run_ops surgescript_programpool_create reorder_ops
          = (reorder_pool, Returned tt)) as Hrun
    by (vm_compute; reflexivity).
  assert (signatures_distinct (ops_keys order_ops)) as Hd'
    by (apply (bool_decide_unpack _); vm_compute; exact I).
  assert (run_ops surgescript_programpool_create order_ops
          = (order_pool, Returned tt)) as Hrun'
    by (vm_compute; reflexivity).
  assert (Forall (fun op : @pool_op nat => removes op = false) order_ops)
    as Hops by (repeat constructor).
  split; [exact Hd|]. split; [exact Hrun|].
  split; [exact (proj1 (proj2 (foreach_insertion_order reorder_ops
                                 reorder_pool "Array" Hd Hrun)))|].
  split; [exact Hd'|]. split; [exact Hrun'|].
  split; [exact (proj2 (proj2 (proj2 (proj2
                   (foreach_insertion_order order_ops order_pool "Array"
                      Hd' Hrun')))) Hops)|].
  vm_compute; reflexivity.
Defined.
